(** * Go SDK generator of pulumi: naming, partitioning and constructor synthesis

    A shallow embedding of [pkg/codegen/go/gen.go]: the token and naming
    resolvers, the three type-representation resolvers, the package
    partitioner with its optionality propagation, and the part of
    [genResource] that emits the constructor's validation and default
    injection, together with the emitted [getEnvOrDefault] helper. *)

From Stdlib Require Import Ascii String ZArith Lia DecimalString.
From stdpp Require Import base strings gmap list.

Local Open Scope string_scope.
Set Warnings "-register-all,-clear-no-such-hyp".

(** ** Outcomes

    Go code in this file ends in one of three ways: it returns, it returns an
    [error] value, or it panics ([contract.Assert], [panic]).  Recursion that
    is bounded by a visited set is written with fuel; [OutOfFuel] is the
    fourth outcome and is shown not to occur when the fuel is large enough. *)

Inductive result (A : Type) : Type :=
  | Ok (a : A)
  | Failed (err : string)
  | Panic (msg : string)
  | OutOfFuel.

Arguments Ok {A} a.
Arguments Failed {A} err.
Arguments Panic {A} msg.
Arguments OutOfFuel {A}.

Definition result_bind {A B : Type} (k : A -> result B) (m : result A) : result B :=
  match m with
  | Ok a => k a
  | Failed e => Failed e
  | Panic msg => Panic msg
  | OutOfFuel => OutOfFuel
  end.

#[global] Instance result_mbind : MBind result := @result_bind.
#[global] Instance result_mret : MRet result := @Ok.

(** [contract.Assert(cond)] *)
Definition Assert (cond : bool) : result unit :=
  if cond then Ok tt else Panic "fatal: An assertion has failed".

(** ** The parts of Go's [strings] and [unicode] packages that the generator uses

    Strings are byte sequences.  Case mapping is the ASCII one: the letters
    [A]-[Z] and [a]-[z] are mapped, every other byte is left alone.  On a
    string of ASCII bytes this is what Go computes.  On another string Go
    decodes the bytes into runes, maps them by the Unicode tables and encodes
    them again, which can change the length; that is not modelled, and a
    statement that depends on how [Title], [camel] or [ToLower] map the
    bytes is made for ASCII strings ([isASCII]). *)

Module GoStrings.

Definition IsLower (c : ascii) : bool :=
  let n := nat_of_ascii c in (97 <=? n)%nat && (n <=? 122)%nat.

Definition IsUpper (c : ascii) : bool :=
  let n := nat_of_ascii c in (65 <=? n)%nat && (n <=? 90)%nat.

Definition ToUpperRune (c : ascii) : ascii :=
  if IsLower c then ascii_of_nat (nat_of_ascii c - 32) else c.

Definition ToLowerRune (c : ascii) : ascii :=
  if IsUpper c then ascii_of_nat (nat_of_ascii c + 32) else c.

(** [strings.ToLower] *)
Fixpoint ToLower (s : string) : string :=
  match s with
  | EmptyString => EmptyString
  | String c s' => String (ToLowerRune c) (ToLower s')
  end.

(** [strings.Split(s, sep)] for a one-byte separator.  The empty string
    splits into one empty component. *)
Fixpoint Split (s : string) (sep : ascii) : list string :=
  match s with
  | EmptyString => [EmptyString]
  | String c s' =>
      if Ascii.eqb c sep then EmptyString :: Split s' sep
      else match Split s' sep with
           | h :: t => String c h :: t
           | [] => [String c EmptyString]
           end
  end.

(** [strings.HasPrefix(s, prefix)] *)
Fixpoint HasPrefix (s prefix : string) : bool :=
  match prefix, s with
  | EmptyString, _ => true
  | String _ _, EmptyString => false
  | String p prefix', String c s' => Ascii.eqb c p && HasPrefix s' prefix'
  end.

Fixpoint rev_string (s : string) : string :=
  match s with
  | EmptyString => EmptyString
  | String c s' => rev_string s' +:+ String c EmptyString
  end.

(** [strings.HasSuffix(s, suffix)] *)
Definition HasSuffix (s suffix : string) : bool :=
  HasPrefix (rev_string s) (rev_string suffix).

(** [s[n:]] for [n <= len(s)] *)
Fixpoint drop_string (n : nat) (s : string) : string :=
  match n, s with
  | O, _ => s
  | S n', String _ s' => drop_string n' s'
  | S _, EmptyString => EmptyString
  end.

(** [s[:n]] for [n <= len(s)] *)
Fixpoint take_string (n : nat) (s : string) : string :=
  match n, s with
  | O, _ => EmptyString
  | S n', String c s' => String c (take_string n' s')
  | S _, EmptyString => EmptyString
  end.

(** [strings.TrimSuffix(s, suffix)] *)
Definition TrimSuffix (s suffix : string) : string :=
  if HasSuffix s suffix
  then take_string (String.length s - String.length suffix) s
  else s.

(** [strings.Replace(s, old, new, -1)] for a non-empty [old]: every
    non-overlapping occurrence, left to right.  [skip] counts the bytes of
    an occurrence that was just replaced and are still to be passed over. *)
Fixpoint replace_from (old new : string) (skip : nat) (s : string) : string :=
  match s with
  | EmptyString => EmptyString
  | String c s' =>
      match skip with
      | S k => replace_from old new k s'
      | O =>
          if HasPrefix s old
          then new +:+ replace_from old new (String.length old - 1) s'
          else String c (replace_from old new 0 s')
      end
  end.

Definition Replace (s old new : string) : string := replace_from old new 0 s.

(** [strings.Contains(s, substr)] *)
Fixpoint Contains (s substr : string) : bool :=
  HasPrefix s substr ||
  match s with
  | EmptyString => false
  | String _ s' => Contains s' substr
  end.

End GoStrings.

Import GoStrings.

(** [Title] upper-cases the first letter, after dropping any [$] prefix. *)
Fixpoint Title (s : string) : string :=
  match s with
  | EmptyString => EmptyString
  | String c s' =>
      if Ascii.eqb c "$"%char then Title s'
      else String (ToUpperRune c) s'
  end.

(** [camel]: the loop lower-cases runes up to the first lower-case one and
    copies the rest from there. *)
Fixpoint camel (s : string) : string :=
  match s with
  | EmptyString => EmptyString
  | String r rest =>
      if IsLower r then String r rest
      else String (ToLowerRune r) (camel rest)
  end.


(** ** The schema model ([pkg/codegen/schema])

    Go's schema is a pointer graph that may be cyclic through the properties
    of object types.  An object type is named here by its token, and the
    package carries the table from object tokens to property lists; the
    other type constructors nest as they do in Go. *)

(** What the generator reads of a [schema.Package] it refers to: its name
    and the [ModuleToPackage] table of its Go language info.  Two package
    pointers are the same package when the names agree. *)
Record PackageRef := {
  pkgName : string;
  pkgModuleToPackage : gmap string string;
}.

Definition samePackage (a b : PackageRef) : bool :=
  String.eqb (pkgName a) (pkgName b).

Inductive SchemaType : Type :=
  | BoolType | IntType | NumberType | StringType
  | ArchiveType | AssetType | JSONType | AnyType
  | ArrayType (ElementType : SchemaType)
  | MapType (ElementType : SchemaType)
  | ObjectType (Token : string) (Package : option PackageRef)
  | ResourceType (Token : string) (Resource : option PackageRef)
  | TokenType (Token : string) (UnderlyingType : option SchemaType)
  | UnionType (ElementTypes : list SchemaType)
  | EnumType (Token : string) (ElementType : SchemaType).

(** A constant of the schema ([interface{}]), by its [reflect.Kind].  A
    float64 is carried by its shortest decimal form, which is what
    [strconv.FormatFloat(v, 'f', -1, 64)] prints.  [VOther] stands for every
    kind [goPrimitiveValue] does not support. *)
Inductive GoValue : Type :=
  | VBool (b : bool)
  | VInt (z : Z)
  | VUint (n : N)
  | VFloat (decimal : string)
  | VString (s : string)
  | VOther.

Record DefaultValue := {
  dv_Value : option GoValue;
  dv_Environment : list string;
}.

Record Property := {
  prop_Name : string;
  prop_Type : SchemaType;
  prop_IsRequired : bool;
  prop_Secret : bool;
  prop_ConstValue : option GoValue;
  prop_DefaultValue : option DefaultValue;
}.

Record Resource := {
  res_Token : string;
  res_Properties : list Property;
  res_InputProperties : list Property;
  res_IsProvider : bool;
  res_IsComponent : bool;
}.

(** [Inputs] and [Outputs] are object types or nil; only that is read. *)
Record Function := {
  fn_Token : string;
  fn_Inputs : option string;
  fn_Outputs : option string;
}.

Record Package := {
  pkg_ref : PackageRef;
  pkg_Types : list SchemaType;
  pkg_Provider : Resource;
  pkg_Resources : list Resource;
  pkg_Functions : list Function;
  pkg_Config : list Property;
  (** [obj.Properties] for the object type with token [obj.Token] *)
  pkg_objects : gmap string (list Property);
}.

Definition objectProperties (objects : gmap string (list Property)) (tok : string)
  : list Property :=
  default [] (objects !! tok).

(** ** Namespaces *)

Record typeDetails := {
  ptrElement : bool;
  arrayElement : bool;
  mapElement : bool;
}.

(** [pkgContext].  The maps keyed by [schema.ObjectType], [schema.EnumType]
    and [schema.Function] pointers are keyed by the token.  The field [packages],
    the map every namespace of a run shares, is passed next to the receiver;
    a context built without it (an external package's) is passed the empty
    map, where a lookup misses as it does in a nil map. *)
Record pkgContext := {
  ctx_pkg : option PackageRef;
  ctx_mod : string;
  ctx_typeDetails : gmap string typeDetails;
  ctx_enumDetails : gmap string typeDetails;
  enums : list SchemaType;
  types : list SchemaType;
  resources : list Resource;
  functions : list Function;
  names : gset string;
  renamed : gmap string string;
  functionNames : gmap string string;
  needsUtils : bool;
  modToPkg : gmap string string;
}.

Abbreviation pkgMap := (gmap string pkgContext).

Definition set_names (f : gset string -> gset string) (c : pkgContext) : pkgContext :=
  {| ctx_pkg := ctx_pkg c; ctx_mod := ctx_mod c;
     ctx_typeDetails := ctx_typeDetails c; ctx_enumDetails := ctx_enumDetails c;
     enums := enums c; types := types c; resources := resources c;
     functions := functions c; names := f (names c); renamed := renamed c;
     functionNames := functionNames c; needsUtils := needsUtils c;
     modToPkg := modToPkg c |}.

Definition set_renamed (f : gmap string string -> gmap string string) (c : pkgContext)
  : pkgContext :=
  {| ctx_pkg := ctx_pkg c; ctx_mod := ctx_mod c;
     ctx_typeDetails := ctx_typeDetails c; ctx_enumDetails := ctx_enumDetails c;
     enums := enums c; types := types c; resources := resources c;
     functions := functions c; names := names c; renamed := f (renamed c);
     functionNames := functionNames c; needsUtils := needsUtils c;
     modToPkg := modToPkg c |}.

(** ** Token resolver *)

(** [tokenToModule] *)
Definition tokenToModule (tok : string) : result string :=
  let components := Split tok ":" in
  _ ← Assert (Nat.eqb (length components) 3);
  Ok (nth 1 components "").

(** Modelled from the spec: [schema.Package.TokenToModule], which lives in
    the schema package.  The spec has the token resolver split the token,
    take the module path, and fail fatally unless the token has exactly three
    components; that is what [tokenToModule] above does. *)
Definition Package_TokenToModule (pkg : option PackageRef) (tok : string) : result string :=
  tokenToModule tok.

(** [tokenToPackage] *)
Definition tokenToPackage (pkg : option PackageRef) (overrides : gmap string string)
    (tok : string) : result string :=
  m ← Package_TokenToModule pkg tok;
  let m := match overrides !! m with
           | Some override => override
           | None => m
           end in
  Ok (ToLower m).

(** [tokenToName] *)
Definition tokenToName (tok : string) : result string :=
  let components := Split tok ":" in
  _ ← Assert (Nat.eqb (length components) 3);
  Ok (Title (nth 2 components "")).

(** [resourceName] *)
Definition resourceName (r : Resource) : result string :=
  if res_IsProvider r then Ok "Provider" else tokenToName (res_Token r).

(** ** Naming resolver *)

(** The panic on a nil [pkg.pkg]. *)
Definition checkPkg (pkg : pkgContext) (tok : string) : result unit :=
  match ctx_pkg pkg with
  | Some _ => Ok tt
  | None => Panic ("pkg.pkg is nil. token " +:+ tok)
  end.

(** The lookup-or-rename block shared, up to the suffix, by [tokenToType]
    and [tokenToEnum]: a recorded rename is looked up; otherwise a name the
    namespace has taken gets the suffix, and the rename is recorded and the
    new name registered. *)
Definition renameIn (suffix : string) (packages : pkgMap) (m name : string)
  : string * pkgMap :=
  match packages !! m with
  | Some modPkg =>
      match renamed modPkg !! name with
      | Some newName => (newName, packages)
      | None =>
          if bool_decide (name ∈ names modPkg) then
            let newName := name +:+ suffix in
            (newName,
             <[m := set_names (fun ns => ns ∪ {[newName]})
                      (set_renamed (fun rn => <[name := newName]> rn) modPkg)]> packages)
          else (name, packages)
      end
  | None => (name, packages)
  end.

(** [pkgContext.tokenToType] *)
Definition tokenToType (packages : pkgMap) (pkg : pkgContext) (tok : string)
  : result (string * pkgMap) :=
  let components := Split tok ":" in
  _ ← Assert (Nat.eqb (length components) 3);
  _ ← checkPkg pkg tok;
  m ← tokenToPackage (ctx_pkg pkg) (modToPkg pkg) tok;
  let '(name, packages) := renameIn "Type" packages m (Title (nth 2 components "")) in
  if String.eqb m (ctx_mod pkg) then Ok (name, packages)
  else
    let m := if String.eqb m "" then nth 0 components "" else m in
    Ok (Replace (Replace m "/" "" +:+ "." +:+ name) "-provider" "", packages).

(** [pkgContext.tokenToEnum] *)
Definition tokenToEnum (packages : pkgMap) (pkg : pkgContext) (tok : string)
  : result (string * pkgMap) :=
  let components := Split tok ":" in
  _ ← Assert (Nat.eqb (length components) 3);
  _ ← checkPkg pkg tok;
  m ← tokenToPackage (ctx_pkg pkg) (modToPkg pkg) tok;
  let '(name, packages) := renameIn "Enum" packages m (Title (nth 2 components "")) in
  if String.eqb m (ctx_mod pkg) then Ok (name, packages)
  else
    let m := if String.eqb m "" then nth 0 components "" else m in
    Ok (Replace m "/" "" +:+ "." +:+ name, packages).

(** [pkgContext.tokenToResource] *)
Definition tokenToResource (pkg : pkgContext) (tok : string) : result string :=
  let components := Split tok ":" in
  _ ← Assert (Nat.eqb (length components) 3);
  _ ← checkPkg pkg tok;
  if String.eqb (nth 0 components "") "pulumi" && String.eqb (nth 1 components "") "providers"
  then Ok (nth 2 components "" +:+ ".Provider")
  else
    m ← tokenToPackage (ctx_pkg pkg) (modToPkg pkg) tok;
    let name := Title (nth 2 components "") in
    if String.eqb m (ctx_mod pkg) then Ok name
    else
      let m := if String.eqb m "" then nth 0 components "" else m in
      Ok (Replace m "/" "" +:+ "." +:+ name).

(** ** Type representation resolver *)

(** [pkgContext.isExternalReference].  A resource type carries the package
    of its resource when the resource pointer is set. *)
Definition isExternalReference (pkg : pkgContext) (t : SchemaType) : bool :=
  match t with
  | ObjectType _ (Some typPackage) =>
      match ctx_pkg pkg with
      | Some p => negb (samePackage typPackage p)
      | None => false
      end
  | ResourceType _ (Some resPackage) =>
      match ctx_pkg pkg with
      | Some p => negb (samePackage resPackage p)
      | None => false
      end
  | _ => false
  end.

(** The context [resolveResourceType] and [resolveObjectType] build for an
    external package: its package, its [ModuleToPackage] table, and zero
    values elsewhere; the import of its Go language info is taken to
    succeed, [pkgModuleToPackage] being what it yields. *)
Definition extPkgCtx (extPkg : PackageRef) : pkgContext :=
  {| ctx_pkg := Some extPkg; ctx_mod := "";
     ctx_typeDetails := ∅; ctx_enumDetails := ∅;
     enums := []; types := []; resources := []; functions := [];
     names := ∅; renamed := ∅; functionNames := ∅; needsUtils := false;
     modToPkg := pkgModuleToPackage extPkg |}.

(** [pkgContext.resolveResourceType] *)
Definition resolveResourceType (pkg : pkgContext) (tok : string)
    (resource : option PackageRef) : result string :=
  if negb (isExternalReference pkg (ResourceType tok resource)) then
    tokenToResource pkg tok
  else
    match resource with
    | Some extPkg =>
        resType ← tokenToResource (extPkgCtx extPkg) tok;
        if negb (Contains resType ".") then Ok (pkgName extPkg +:+ "." +:+ resType)
        else Ok resType
    | None => tokenToResource pkg tok
    end.

(** [pkgContext.resolveObjectType].  For an external object type the source
    calls [extPkgCtx.plainType(t, false)]; there the type is no longer
    external, so that call is [extPkgCtx.tokenToType(t.Token)], returned as
    it is since [optional] is false.  The external context has no
    [packages] map, so the namespaces of this run are left alone. *)
Definition resolveObjectType (packages : pkgMap) (pkg : pkgContext) (tok : string)
    (package : option PackageRef) : result (string * pkgMap) :=
  if negb (isExternalReference pkg (ObjectType tok package)) then
    tokenToType packages pkg tok
  else
    match package with
    | Some extPkg =>
        '(typ, _) ← tokenToType ∅ (extPkgCtx extPkg) tok;
        Ok (typ, packages)
    | None => tokenToType packages pkg tok
    end.

(** [pkgContext.plainType] *)
Fixpoint plainType (packages : pkgMap) (pkg : pkgContext) (t : SchemaType)
    (optional : bool) {struct t} : result (string * pkgMap) :=
  let wrap (r : result (string * pkgMap)) : result (string * pkgMap) :=
    '(typ, packages) ← r;
    if optional then Ok ("*" +:+ typ, packages) else Ok (typ, packages) in
  match t with
  | EnumType _ elementType => plainType packages pkg elementType optional
  | ArrayType elementType =>
      let typ := "[]" in
      let typ := if isExternalReference pkg elementType then typ +:+ "*" else typ in
      '(el, packages) ← plainType packages pkg elementType false;
      Ok (typ +:+ el, packages)
  | MapType elementType =>
      let typ := "map[string]" in
      let typ := if isExternalReference pkg elementType then typ +:+ "*" else typ in
      '(el, packages) ← plainType packages pkg elementType false;
      Ok (typ +:+ el, packages)
  | ObjectType tok package => wrap (resolveObjectType packages pkg tok package)
  | ResourceType tok resource =>
      wrap (typ ← resolveResourceType pkg tok resource; Ok (typ, packages))
  | TokenType tok underlyingType =>
      match underlyingType with
      | Some u => plainType packages pkg u optional
      | None => wrap (tokenToType packages pkg tok)
      end
  | UnionType elementTypes =>
      (fix relaxedEnum (es : list SchemaType) : result (string * pkgMap) :=
         match es with
         | EnumType _ elementType :: _ => plainType packages pkg elementType optional
         | _ :: es' => relaxedEnum es'
         | [] => Ok ("interface{}", packages)
         end) elementTypes
  | BoolType => wrap (Ok ("bool", packages))
  | IntType => wrap (Ok ("int", packages))
  | NumberType => wrap (Ok ("float64", packages))
  | StringType => wrap (Ok ("string", packages))
  | ArchiveType => Ok ("pulumi.Archive", packages)
  | AssetType => Ok ("pulumi.AssetOrArchive", packages)
  | JSONType | AnyType => Ok ("interface{}", packages)
  end.

(** [pkgContext.inputType] *)
Fixpoint inputType (packages : pkgMap) (pkg : pkgContext) (t : SchemaType)
    (optional : bool) {struct t} : result (string * pkgMap) :=
  let wrap (r : result (string * pkgMap)) : result (string * pkgMap) :=
    '(typ, packages) ← r;
    if optional then Ok (typ +:+ "PtrInput", packages)
    else Ok (typ +:+ "Input", packages) in
  match t with
  | EnumType tok _ =>
      let prefix := if optional then "*" else "" in
      '(name, packages) ← tokenToEnum packages pkg tok;
      Ok (prefix +:+ name, packages)
  | ArrayType elementType =>
      '(en, packages) ← inputType packages pkg elementType false;
      Ok (TrimSuffix en "Input" +:+ "ArrayInput", packages)
  | MapType elementType =>
      '(en, packages) ← inputType packages pkg elementType false;
      Ok (TrimSuffix en "Input" +:+ "MapInput", packages)
  | ObjectType tok package => wrap (resolveObjectType packages pkg tok package)
  | ResourceType tok resource =>
      typ ← resolveResourceType pkg tok resource;
      Ok (typ +:+ "Input", packages)
  | TokenType tok underlyingType =>
      match underlyingType with
      | Some u => inputType packages pkg u optional
      | None => wrap (tokenToType packages pkg tok)
      end
  | UnionType elementTypes =>
      (fix relaxedEnum (es : list SchemaType) : result (string * pkgMap) :=
         match es with
         | EnumType _ elementType :: _ => inputType packages pkg elementType optional
         | _ :: es' => relaxedEnum es'
         | [] => Ok ("pulumi.Input", packages)
         end) elementTypes
  | BoolType => wrap (Ok ("pulumi.Bool", packages))
  | IntType => wrap (Ok ("pulumi.Int", packages))
  | NumberType => wrap (Ok ("pulumi.Float64", packages))
  | StringType => wrap (Ok ("pulumi.String", packages))
  | ArchiveType => Ok ("pulumi.ArchiveInput", packages)
  | AssetType => Ok ("pulumi.AssetOrArchiveInput", packages)
  | JSONType | AnyType => Ok ("pulumi.Input", packages)
  end.

(** [pkgContext.outputType] *)
Fixpoint outputType (packages : pkgMap) (pkg : pkgContext) (t : SchemaType)
    (optional : bool) {struct t} : result (string * pkgMap) :=
  let wrap (r : result (string * pkgMap)) : result (string * pkgMap) :=
    '(typ, packages) ← r;
    if optional then Ok (typ +:+ "PtrOutput", packages)
    else Ok (typ +:+ "Output", packages) in
  match t with
  | EnumType _ elementType => outputType packages pkg elementType optional
  | ArrayType elementType =>
      '(el, packages) ← outputType packages pkg elementType false;
      let en := TrimSuffix el "Output" in
      if String.eqb en "pulumi.Any" then Ok ("pulumi.ArrayOutput", packages)
      else Ok (en +:+ "ArrayOutput", packages)
  | MapType elementType =>
      '(el, packages) ← outputType packages pkg elementType false;
      let en := TrimSuffix el "Output" in
      if String.eqb en "pulumi.Any" then Ok ("pulumi.MapOutput", packages)
      else Ok (en +:+ "MapOutput", packages)
  | ObjectType tok package => wrap (resolveObjectType packages pkg tok package)
  | ResourceType tok resource =>
      typ ← resolveResourceType pkg tok resource;
      Ok (typ +:+ "Output", packages)
  | TokenType tok underlyingType =>
      match underlyingType with
      | Some u => outputType packages pkg u optional
      | None => wrap (tokenToType packages pkg tok)
      end
  | UnionType elementTypes =>
      (fix relaxedEnum (es : list SchemaType) : result (string * pkgMap) :=
         match es with
         | EnumType _ elementType :: _ => outputType packages pkg elementType optional
         | _ :: es' => relaxedEnum es'
         | [] => Ok ("pulumi.AnyOutput", packages)
         end) elementTypes
  | BoolType => wrap (Ok ("pulumi.Bool", packages))
  | IntType => wrap (Ok ("pulumi.Int", packages))
  | NumberType => wrap (Ok ("pulumi.Float64", packages))
  | StringType => wrap (Ok ("pulumi.String", packages))
  | ArchiveType => Ok ("pulumi.ArchiveOutput", packages)
  | AssetType => Ok ("pulumi.AssetOrArchiveOutput", packages)
  | JSONType | AnyType => Ok ("pulumi.AnyOutput", packages)
  end.

(** How the representation with [optional = true] differs from the one with
    [optional = false]. *)
Inductive wrapping : Type :=
  | PtrSuffix      (** [base ++ suffix] becomes [base ++ "Ptr" ++ suffix] *)
  | PointerPrefix  (** [*] is put in front *)
  | NoWrapper.     (** the same string *)

Definition wrapped (w : wrapping) (suffix : string) (required optional : string) : Prop :=
  match w with
  | PtrSuffix => ∃ base, required = base +:+ suffix ∧ optional = base +:+ "Ptr" +:+ suffix
  | PointerPrefix => optional = "*" +:+ required
  | NoWrapper => optional = required
  end.

(** The element type of the first enum among the alternatives of a union. *)
Fixpoint relaxedEnumElement (es : list SchemaType) : option SchemaType :=
  match es with
  | EnumType _ elementType :: _ => Some elementType
  | _ :: es' => relaxedEnumElement es'
  | [] => None
  end.

Fixpoint plainWrapping (t : SchemaType) : wrapping :=
  match t with
  | BoolType | IntType | NumberType | StringType => PointerPrefix
  | ObjectType _ _ | ResourceType _ _ | TokenType _ None => PointerPrefix
  | EnumType _ elementType => plainWrapping elementType
  | TokenType _ (Some u) => plainWrapping u
  | UnionType es =>
      (fix first (es : list SchemaType) : wrapping :=
         match es with
         | EnumType _ elementType :: _ => plainWrapping elementType
         | _ :: es' => first es'
         | [] => NoWrapper
         end) es
  | _ => NoWrapper
  end.

Fixpoint inputWrapping (t : SchemaType) : wrapping :=
  match t with
  | BoolType | IntType | NumberType | StringType => PtrSuffix
  | ObjectType _ _ | TokenType _ None => PtrSuffix
  | EnumType _ _ => PointerPrefix
  | TokenType _ (Some u) => inputWrapping u
  | UnionType es =>
      (fix first (es : list SchemaType) : wrapping :=
         match es with
         | EnumType _ elementType :: _ => inputWrapping elementType
         | _ :: es' => first es'
         | [] => NoWrapper
         end) es
  | _ => NoWrapper
  end.

Fixpoint outputWrapping (t : SchemaType) : wrapping :=
  match t with
  | BoolType | IntType | NumberType | StringType => PtrSuffix
  | ObjectType _ _ | TokenType _ None => PtrSuffix
  | EnumType _ elementType => outputWrapping elementType
  | TokenType _ (Some u) => outputWrapping u
  | UnionType es =>
      (fix first (es : list SchemaType) : wrapping :=
         match es with
         | EnumType _ elementType :: _ => outputWrapping elementType
         | _ :: es' => first es'
         | [] => NoWrapper
         end) es
  | _ => NoWrapper
  end.

(** Two resolutions end alike: both return, with the same namespaces and
    with identifiers related by [R], or both stop the same way. *)
Definition sameOutcome (R : string → string → Prop)
    (required optional : result (string * pkgMap)) : Prop :=
  match required, optional with
  | Ok (a, ps), Ok (b, ps') => ps = ps' ∧ R a b
  | Failed e, Failed e' => e = e'
  | Panic msg, Panic msg' => msg = msg'
  | OutOfFuel, OutOfFuel => True
  | _, _ => False
  end.

(** ** Package partitioner ([generatePackageContextMap]) *)

Definition set_typeDetails (f : gmap string typeDetails -> gmap string typeDetails)
    (c : pkgContext) : pkgContext :=
  {| ctx_pkg := ctx_pkg c; ctx_mod := ctx_mod c;
     ctx_typeDetails := f (ctx_typeDetails c); ctx_enumDetails := ctx_enumDetails c;
     enums := enums c; types := types c; resources := resources c;
     functions := functions c; names := names c; renamed := renamed c;
     functionNames := functionNames c; needsUtils := needsUtils c;
     modToPkg := modToPkg c |}.

Definition set_enumDetails (f : gmap string typeDetails -> gmap string typeDetails)
    (c : pkgContext) : pkgContext :=
  {| ctx_pkg := ctx_pkg c; ctx_mod := ctx_mod c;
     ctx_typeDetails := ctx_typeDetails c; ctx_enumDetails := f (ctx_enumDetails c);
     enums := enums c; types := types c; resources := resources c;
     functions := functions c; names := names c; renamed := renamed c;
     functionNames := functionNames c; needsUtils := needsUtils c;
     modToPkg := modToPkg c |}.

Definition set_types (f : list SchemaType -> list SchemaType) (c : pkgContext)
  : pkgContext :=
  {| ctx_pkg := ctx_pkg c; ctx_mod := ctx_mod c;
     ctx_typeDetails := ctx_typeDetails c; ctx_enumDetails := ctx_enumDetails c;
     enums := enums c; types := f (types c); resources := resources c;
     functions := functions c; names := names c; renamed := renamed c;
     functionNames := functionNames c; needsUtils := needsUtils c;
     modToPkg := modToPkg c |}.

Definition set_enums (f : list SchemaType -> list SchemaType) (c : pkgContext)
  : pkgContext :=
  {| ctx_pkg := ctx_pkg c; ctx_mod := ctx_mod c;
     ctx_typeDetails := ctx_typeDetails c; ctx_enumDetails := ctx_enumDetails c;
     enums := f (enums c); types := types c; resources := resources c;
     functions := functions c; names := names c; renamed := renamed c;
     functionNames := functionNames c; needsUtils := needsUtils c;
     modToPkg := modToPkg c |}.

Definition set_resources (f : list Resource -> list Resource) (c : pkgContext)
  : pkgContext :=
  {| ctx_pkg := ctx_pkg c; ctx_mod := ctx_mod c;
     ctx_typeDetails := ctx_typeDetails c; ctx_enumDetails := ctx_enumDetails c;
     enums := enums c; types := types c; resources := f (resources c);
     functions := functions c; names := names c; renamed := renamed c;
     functionNames := functionNames c; needsUtils := needsUtils c;
     modToPkg := modToPkg c |}.

Definition set_functions (f : list Function -> list Function)
    (g : gmap string string -> gmap string string) (c : pkgContext) : pkgContext :=
  {| ctx_pkg := ctx_pkg c; ctx_mod := ctx_mod c;
     ctx_typeDetails := ctx_typeDetails c; ctx_enumDetails := ctx_enumDetails c;
     enums := enums c; types := types c; resources := resources c;
     functions := f (functions c); names := names c; renamed := renamed c;
     functionNames := g (functionNames c); needsUtils := needsUtils c;
     modToPkg := modToPkg c |}.

(** The context [getPkg] allocates for module [m]. *)
Definition emptyContext (pkg : PackageRef) (m : string) : pkgContext :=
  {| ctx_pkg := Some pkg; ctx_mod := m;
     ctx_typeDetails := ∅; ctx_enumDetails := ∅;
     enums := []; types := []; resources := []; functions := [];
     names := ∅; renamed := ∅; functionNames := ∅; needsUtils := false;
     modToPkg := pkgModuleToPackage pkg |}.

(** [getPkg]: the namespace of module [m], allocated on first use.  The
    pointer it returns is the entry of [packages] under [m]. *)
Definition getPkg (pkg : Package) (packages : pkgMap) (m : string) : pkgMap :=
  match packages !! m with
  | Some _ => packages
  | None => <[m := emptyContext (pkg_ref pkg) m]> packages
  end.

(** [getPkgFromToken] *)
Definition getPkgFromToken (pkg : Package) (packages : pkgMap) (tok : string)
  : result (string * pkgMap) :=
  m ← tokenToPackage (Some (pkg_ref pkg)) (pkgModuleToPackage (pkg_ref pkg)) tok;
  Ok (m, getPkg pkg packages m).

Definition zeroDetails : typeDetails :=
  {| ptrElement := false; arrayElement := false; mapElement := false |}.

(** [pkgContext.detailsForType] followed by the write through the pointer it
    returns: the entry is created zeroed when missing, then updated. *)
Definition updateDetailsForType (tok : string) (f : typeDetails -> typeDetails)
    (c : pkgContext) : pkgContext :=
  set_typeDetails (fun td => <[tok := f (default zeroDetails (td !! tok))]> td) c.

(** [pkgContext.detailsForEnum], likewise. *)
Definition updateDetailsForEnum (tok : string) (f : typeDetails -> typeDetails)
    (c : pkgContext) : pkgContext :=
  set_enumDetails (fun td => <[tok := f (default zeroDetails (td !! tok))]> td) c.

Definition setPtrElement (d : typeDetails) : typeDetails :=
  {| ptrElement := true; arrayElement := arrayElement d; mapElement := mapElement d |}.

Definition setArrayElement (d : typeDetails) : typeDetails :=
  {| ptrElement := ptrElement d; arrayElement := true; mapElement := mapElement d |}.

Definition setMapElement (d : typeDetails) : typeDetails :=
  {| ptrElement := ptrElement d; arrayElement := arrayElement d; mapElement := true |}.

(** What the partitioner threads through: the namespaces and [seenMap]. *)
Record scanState := {
  packages : pkgMap;
  seen : gset string;
}.

(** [markOptionalPropertyTypesAsRequiringPtr].  Each recursive call is made
    right after a token was added to [seen]; [fuel] bounds the depth. *)
Fixpoint markOptionalPropertyTypesAsRequiringPtr (fuel : nat) (pkg : Package)
    (st : scanState) (props : list Property) (parentOptional : bool)
  : result scanState :=
  match fuel with
  | O => OutOfFuel
  | S fuel' =>
      (fix loop (props : list Property) (st : scanState) : result scanState :=
         match props with
         | [] => Ok st
         | p :: props' =>
             match prop_Type p with
             | ObjectType tok _ =>
                 if negb (prop_IsRequired p) || parentOptional then
                   if bool_decide (tok ∈ seen st) then loop props' st
                   else
                     let seen' := seen st ∪ {[tok]} in
                     '(m, ps) ← getPkgFromToken pkg (packages st) tok;
                     let ps := alter (updateDetailsForType tok setPtrElement) m ps in
                     st ← markOptionalPropertyTypesAsRequiringPtr fuel' pkg
                            {| packages := ps; seen := seen' |}
                            (objectProperties (pkg_objects pkg) tok) true;
                     loop props' st
                 else loop props' st
             | EnumType tok _ =>
                 if negb (prop_IsRequired p) || parentOptional then
                   if bool_decide (tok ∈ seen st) then loop props' st
                   else
                     let seen' := seen st ∪ {[tok]} in
                     '(m, ps) ← getPkgFromToken pkg (packages st) tok;
                     let ps := alter (updateDetailsForEnum tok setPtrElement) m ps in
                     loop props' {| packages := ps; seen := seen' |}
                 else loop props' st
             | _ => loop props' st
             end
         end) props st
  end.

(** One round of the loop over [pkg.Types]. *)
Definition scanType (fuel : nat) (pkg : Package) (st : scanState) (t : SchemaType)
  : result scanState :=
  match t with
  | ArrayType (ObjectType tok _) =>
      '(m, ps) ← getPkgFromToken pkg (packages st) tok;
      Ok {| packages := alter (updateDetailsForType tok setArrayElement) m ps;
            seen := seen st |}
  | MapType (ObjectType tok _) =>
      '(m, ps) ← getPkgFromToken pkg (packages st) tok;
      Ok {| packages := alter (updateDetailsForType tok setMapElement) m ps;
            seen := seen st |}
  | ObjectType tok _ =>
      '(m, ps) ← getPkgFromToken pkg (packages st) tok;
      let ps := alter (set_types (fun ts => (ts ++ [t])%list)) m ps in
      markOptionalPropertyTypesAsRequiringPtr fuel pkg
        {| packages := ps; seen := seen st |}
        (objectProperties (pkg_objects pkg) tok) false
  | EnumType tok _ =>
      '(m, ps) ← getPkgFromToken pkg (packages st) tok;
      Ok {| packages := alter (set_enums (fun es => (es ++ [t])%list)) m ps; seen := seen st |}
  | _ => Ok st
  end.

(** A loop over a slice, threading the state and stopping at a panic. *)
Fixpoint forEach {A S : Type} (body : S -> A -> result S) (l : list A) (st : S)
  : result S :=
  match l with
  | [] => Ok st
  | a :: l' => st ← body st a; forEach body l' st
  end.

(** The identifiers [scanResource] registers for a resource named [name]. *)
Definition resourceIdentifiers (name : string) (isProvider isComponent : bool)
  : list string :=
  ([name; name +:+ "Input"; name +:+ "Output"; name +:+ "Args";
    camel name +:+ "Args"; "New" +:+ name] ++
   (if negb isProvider && negb isComponent
    then [name +:+ "State"; camel name +:+ "State"; "Get" +:+ name]
    else []))%list.

(** [scanResource].  [pkg.names.Add] is called once per identifier, in the
    order of [resourceIdentifiers]. *)
Definition scanResource (fuel : nat) (pkg : Package) (st : scanState) (r : Resource)
  : result scanState :=
  '(m, ps) ← getPkgFromToken pkg (packages st) (res_Token r);
  let ps := alter (set_resources (fun rs => (rs ++ [r])%list)) m ps in
  name ← resourceName r;
  let ps :=
    foldl (fun ps id => alter (set_names (fun ns => ns ∪ {[id]})) m ps) ps
      (resourceIdentifiers name (res_IsProvider r) (res_IsComponent r)) in
  st ← markOptionalPropertyTypesAsRequiringPtr fuel pkg
         {| packages := ps; seen := seen st |}
         (res_InputProperties r) (negb (res_IsProvider r));
  markOptionalPropertyTypesAsRequiringPtr fuel pkg st
    (res_Properties r) (negb (res_IsProvider r)).

(** One round of the loop over [pkg.Functions]. *)
Definition scanFunction (pkg : Package) (ps : pkgMap) (f : Function) : result pkgMap :=
  '(m, ps) ← getPkgFromToken pkg ps (fn_Token f);
  let ps := alter (set_functions (fun fs => (fs ++ [f])%list) id) m ps in
  name ← tokenToName (fn_Token f);
  let taken :=
    match ps !! m with
    | Some c => bool_decide (name ∈ names c)
    | None => false
    end in
  let name :=
    if taken then
      if HasPrefix name "New" then "Create" +:+ drop_string 3 name
      else if HasPrefix name "Get" then "Lookup" +:+ drop_string 3 name
      else name
    else name in
  let ps := alter (set_names (fun ns => ns ∪ {[name]})) m ps in
  let ps := alter (set_functions id (fun fn => <[fn_Token f := name]> fn)) m ps in
  let ps :=
    match fn_Inputs f with
    | Some _ => alter (set_names (fun ns => ns ∪ {[name +:+ "Args"]})) m ps
    | None => ps
    end in
  let ps :=
    match fn_Outputs f with
    | Some _ => alter (set_names (fun ns => ns ∪ {[name +:+ "Result"]})) m ps
    | None => ps
    end in
  Ok ps.

(** [generatePackageContextMap] *)
Definition generatePackageContextMap (fuel : nat) (pkg : Package) : result pkgMap :=
  let ps : pkgMap := ∅ in
  let ps := if negb (Nat.eqb (length (pkg_Config pkg)) 0) then getPkg pkg ps "config" else ps in
  st ← forEach (scanType fuel pkg) (pkg_Types pkg) {| packages := ps; seen := ∅ |};
  st ← scanResource fuel pkg st (pkg_Provider pkg);
  st ← forEach (scanResource fuel pkg) (pkg_Resources pkg) st;
  forEach (scanFunction pkg) (pkg_Functions pkg) (packages st).

(** ** Example schemas *)

Definition examplePkg : PackageRef := {| pkgName := "p"; pkgModuleToPackage := ∅ |}.

(** Namespace [m] of [examplePkg] with the given names taken. *)
Definition exampleNamespace (taken : list string) : pkgContext :=
  set_names (fun _ => list_to_set taken) (emptyContext examplePkg "m").


Definition property (name : string) (t : SchemaType) (required : bool) : Property :=
  {| prop_Name := name; prop_Type := t; prop_IsRequired := required;
     prop_Secret := false; prop_ConstValue := None; prop_DefaultValue := None |}.

Definition exampleProvider : Resource :=
  {| res_Token := "pulumi:providers:p"; res_Properties := []; res_InputProperties := [];
     res_IsProvider := true; res_IsComponent := false |}.

(** Package [p] with the object type [Node { children: Array<Node> }]; its
    type list holds the object type and the array type. *)
Definition nodeToken : string := "p:m:Node".

Definition nodeType : SchemaType := ObjectType nodeToken (Some examplePkg).

Definition nodePackage : Package :=
  {| pkg_ref := examplePkg;
     pkg_Types := [nodeType; ArrayType nodeType];
     pkg_Provider := exampleProvider;
     pkg_Resources := [];
     pkg_Functions := [];
     pkg_Config := [];
     pkg_objects := {[nodeToken := [property "children" (ArrayType nodeType) false]]} |}.

(** Package [p] with the one resource [p:m:Widget]: a required string
    [Name] and an optional int [Size] with default 1. *)
Definition widget : Resource :=
  let props :=
    [property "Name" StringType true;
     {| prop_Name := "Size"; prop_Type := IntType; prop_IsRequired := false;
        prop_Secret := false; prop_ConstValue := None;
        prop_DefaultValue := Some {| dv_Value := Some (VInt 1); dv_Environment := [] |} |}] in
  {| res_Token := "p:m:Widget"; res_Properties := props; res_InputProperties := props;
     res_IsProvider := false; res_IsComponent := false |}.

Definition widgetPackage : Package :=
  {| pkg_ref := examplePkg;
     pkg_Types := [];
     pkg_Provider := exampleProvider;
     pkg_Resources := [widget];
     pkg_Functions := [];
     pkg_Config := [];
     pkg_objects := ∅ |}.

(** ** Reading the partitioner's result *)

(** The flags of the object type [tok] in namespace [m]; an entry that was
    never created reads as the zero flags. *)
Definition typeFlags (ps : pkgMap) (m tok : string) : typeDetails :=
  default zeroDetails (ps !! m ≫= fun c => ctx_typeDetails c !! tok).

Definition enumFlags (ps : pkgMap) (m tok : string) : typeDetails :=
  default zeroDetails (ps !! m ≫= fun c => ctx_enumDetails c !! tok).

(** The identifiers taken in namespace [m]. *)
Definition namesOf (ps : pkgMap) (m : string) : gset string :=
  default ∅ (names <$> ps !! m).

(** The namespace the partitioner files the token under. *)
Definition namespaceOf (pkg : Package) (tok : string) : result string :=
  tokenToPackage (Some (pkg_ref pkg)) (pkgModuleToPackage (pkg_ref pkg)) tok.

Definition flagOf (flags : pkgMap → string → string → typeDetails)
    (field : typeDetails → bool) (pkg : Package) (ps : pkgMap) (tok : string) : bool :=
  match namespaceOf pkg tok with
  | Ok m => field (flags ps m tok)
  | _ => false
  end.

(** [detailsForType(obj).ptrElement] and its siblings, read at the namespace
    of the token. *)
Definition needsPtrVariant := flagOf typeFlags ptrElement.
Definition needsMapVariant := flagOf typeFlags mapElement.
Definition enumNeedsPtrVariant := flagOf enumFlags ptrElement.

(** Flags only go from false to true. *)
Definition flags_le (d d' : typeDetails) : Prop :=
  (ptrElement d = true → ptrElement d' = true) ∧
  (arrayElement d = true → arrayElement d' = true) ∧
  (mapElement d = true → mapElement d' = true).

Definition details_le (ps ps' : pkgMap) : Prop :=
  ∀ m tok, flags_le (typeFlags ps m tok) (typeFlags ps' m tok) ∧
           flags_le (enumFlags ps m tok) (enumFlags ps' m tok).

(** ** Well-formed schemas *)

(** The token of a property whose type is an object type or an enum. *)
Definition objectToken (p : Property) : option string :=
  match prop_Type p with
  | ObjectType tok _ => Some tok
  | _ => None
  end.

Definition enumToken (p : Property) : option string :=
  match prop_Type p with
  | EnumType tok _ => Some tok
  | _ => None
  end.

Definition resourceProperties (r : Resource) : list Property :=
  (res_InputProperties r ++ res_Properties r)%list.

(** Every property list the propagation can walk: those of the object
    types, of the provider and of the resources. *)
Definition schemaProperties (pkg : Package) : list Property :=
  (mjoin (snd <$> map_to_list (pkg_objects pkg)) ++
   mjoin (resourceProperties <$> pkg_Provider pkg :: pkg_Resources pkg))%list.

Definition objectTokens (pkg : Package) : list string :=
  omap objectToken (schemaProperties pkg).

Definition enumTokens (pkg : Package) : list string :=
  omap enumToken (schemaProperties pkg).

(** No token names both an object type and an enum. *)
Definition tokensUnambiguous (pkg : Package) : Prop :=
  ∀ tok, tok ∈ objectTokens pkg → tok ∈ enumTokens pkg → False.




(** [p] is a property of [props] or, recursively, of an object type that is
    the type of a property of [props]. *)
Inductive nestedProperty (pkg : Package) : list Property → Property → Prop :=
  | nested_here props p :
      p ∈ props → nestedProperty pkg props p
  | nested_under props q tok p :
      q ∈ props → objectToken q = Some tok →
      nestedProperty pkg (objectProperties (pkg_objects pkg) tok) p →
      nestedProperty pkg props p.

(** What the propagation keeps true of its state: a seen token has its flag
    set, and the object and enum properties of a seen object type are seen. *)
Definition seenMarked (pkg : Package) (st : scanState) : Prop :=
  ∀ tok, tok ∈ seen st →
    (tok ∈ objectTokens pkg → needsPtrVariant pkg (packages st) tok = true) ∧
    (tok ∈ enumTokens pkg → enumNeedsPtrVariant pkg (packages st) tok = true).

(** [stack] holds the object types whose properties are being walked. *)
Definition seenClosedExcept (pkg : Package) (stack : gset string) (st : scanState) : Prop :=
  ∀ tok p child, tok ∈ seen st → tok ∈ objectTokens pkg → tok ∉ stack →
    p ∈ objectProperties (pkg_objects pkg) tok →
    objectToken p = Some child ∨ enumToken p = Some child →
    child ∈ seen st.

Definition propagated (pkg : Package) (st : scanState) : Prop :=
  seenMarked pkg st ∧ seenClosedExcept pkg ∅ st.

(** ** Constructor synthesis ([genResource], [getDefaultValue])

    [genResource] prints Go source.  The statements it prints into the body
    of [NewX] are kept here as syntax, one constructor per [Fprintf]
    group, and the Go expressions it builds as text are kept as [goExpr]. *)

(** The parser named in a call of [getEnvOrDefault]. *)
Inductive envParser : Type :=
  | ParserNil              (** [nil] *)
  | ParseEnvStringArray    (** [parseEnvStringArray] *)
  | ParseEnvBool           (** [parseEnvBool] *)
  | ParseEnvInt            (** [parseEnvInt] *)
  | ParseEnvFloat.         (** [parseEnvFloat] *)

(** The type asserted on the result of [getEnvOrDefault]. *)
Inductive goType : Type :=
  | GoString               (** [string] *)
  | GoStringArray          (** [pulumi.StringArray] *)
  | GoBool                 (** [bool] *)
  | GoInt                  (** [int] *)
  | GoFloat64.             (** [float64] *)

(** The value text [val] that [getConstValue] and [getDefaultValue] build. *)
Inductive goExpr : Type :=
  | EEmpty                               (** the empty text *)
  | EConstant (c : GoValue)              (** what [goPrimitiveValue] prints for [c] *)
  | EZero (typ : goType)                 (** [typDefault]: the zero literal of [typ] *)
  | EGetEnvOrDefault (def : goExpr) (parser : envParser) (vars : list string)
      (typ : goType).                    (** [getEnvOrDefault(def, parser, vars...).(typ)] *)

(** [goPrimitiveValue]: the kinds it prints, and the error for the others.
    The text it prints is never empty. *)
Definition goPrimitiveValue (value : GoValue) : result goExpr :=
  match value with
  | VOther => Failed "unsupported default value of type"
  | _ => Ok (EConstant value)
  end.

(** [pkgContext.getConstValue] *)
Definition getConstValue (cv : option GoValue) : result goExpr :=
  match cv with
  | Some c => goPrimitiveValue c
  | None => Ok EEmpty
  end.

(** The triple [parser, typDefault, typ] of [getDefaultValue]; [typDefault]
    is the zero literal of [typ].  The switch on the dynamic type comes
    first, the switch on the primitive types second. *)
Definition envParserFor (t : SchemaType) : envParser * goType :=
  match t with
  | ArrayType _ => (ParseEnvStringArray, GoStringArray)
  | BoolType => (ParseEnvBool, GoBool)
  | IntType => (ParseEnvInt, GoInt)
  | NumberType => (ParseEnvFloat, GoFloat64)
  | _ => (ParserNil, GoString)
  end.

(** [pkgContext.getDefaultValue]; the boolean tells whether [needsUtils]
    was set. *)
Definition getDefaultValue (dv : DefaultValue) (t : SchemaType) : result (goExpr * bool) :=
  val ← match dv_Value dv with
        | Some v => goPrimitiveValue v
        | None => Ok EEmpty
        end;
  if negb (Nat.eqb (length (dv_Environment dv)) 0) then
    let '(parser, typ) := envParserFor t in
    let val := match val with EEmpty => EZero typ | _ => val end in
    Ok (EGetEnvOrDefault val parser (dv_Environment dv) typ, true)
  else Ok (val, false).

(** The statements of the constructor body that [genResource] prints between
    the signature and the aliases.  [field] is [Title(p.Name)], [conv] the
    conversion [t] put around the value. *)
Inductive stmt : Type :=
  | ArgsNilDefault (name : string)
      (** [if args == nil { args = &<name>Args{} }] *)
  | ArgsNilError
      (** [if args == nil { return nil, errors.New(...) }] *)
  | RequireNonNil (field : string)
      (** [if args.F == nil { return nil, errors.New(...) }] *)
  | Assign (field conv : string) (v : goExpr)
      (** [args.F = t(v)] *)
  | AssignIfEmptyString (field conv : string) (v : goExpr)
      (** [if args.F == <empty string> { args.F = t(v) }] *)
  | AssignIfZero (field conv : string) (v : goExpr)
      (** [if args.F == 0 { args.F = t(v) }] *)
  | AssignPointerIfNil (field conv : string) (v : goExpr)
      (** [if args.F == nil { e := t(v); args.F = &e }] *)
  | AssignIfNil (field conv : string) (v : goExpr).
      (** [if args.F == nil { args.F = t(v) }] *)

(** [hasRequired] *)
Definition hasRequired (r : Resource) : bool :=
  existsb prop_IsRequired (res_InputProperties r).

(** The conversion [t]: the Input type name without its [Input] suffix. *)
Definition conversionFor (ps : pkgMap) (pkg : pkgContext) (p : Property)
  : result (string * pkgMap) :=
  '(typ, ps) ← inputType ps pkg (prop_Type p) (negb (prop_IsRequired p));
  let t := TrimSuffix typ "Input" in
  Ok (if String.eqb t "pulumi." then "pulumi.Any" else t, ps).

(** One round of the loop that checks the required arguments. *)
Definition requiredCheck (p : Property) : list stmt :=
  match prop_Type p with
  | EnumType _ _ => []
  | _ => if prop_IsRequired p then [RequireNonNil (Title (prop_Name p))] else []
  end.

Definition genRequiredChecks (r : Resource) : list stmt :=
  flat_map requiredCheck (res_InputProperties r).

(** One round of the loop that assigns constants and defaults. *)
Definition genPropertyDefaults (ps : pkgMap) (pkg : pkgContext) (p : Property)
  : result (list stmt * pkgMap) :=
  '(constStmts, ps) ←
    match prop_ConstValue p with
    | Some _ =>
        v ← getConstValue (prop_ConstValue p);
        '(t, ps) ← conversionFor ps pkg p;
        Ok ([Assign (Title (prop_Name p)) t v], ps)
    | None => Ok ([], ps)
    end;
  match prop_DefaultValue p with
  | Some dv =>
      '(v, _) ← getDefaultValue dv (prop_Type p);
      '(t, ps) ← conversionFor ps pkg p;
      match prop_Type p with
      | EnumType tok elementType =>
          if prop_IsRequired p then
            match elementType with
            | StringType =>
                Ok ((constStmts ++ [AssignIfEmptyString (Title (prop_Name p)) t v])%list, ps)
            | IntType | NumberType =>
                Ok ((constStmts ++ [AssignIfZero (Title (prop_Name p)) t v])%list, ps)
            | _ => Panic ("unxpected type for enum: " +:+ tok)
            end
          else
            '(e, ps) ← inputType ps pkg (prop_Type p) false;
            Ok ((constStmts ++ [AssignPointerIfNil (Title (prop_Name p)) e v])%list, ps)
      | _ => Ok ((constStmts ++ [AssignIfNil (Title (prop_Name p)) t v])%list, ps)
      end
  | None => Ok (constStmts, ps)
  end.

Fixpoint genDefaults (ps : pkgMap) (pkg : pkgContext) (props : list Property)
  : result (list stmt * pkgMap) :=
  match props with
  | [] => Ok ([], ps)
  | p :: props' =>
      '(here, ps) ← genPropertyDefaults ps pkg p;
      '(rest, ps) ← genDefaults ps pkg props';
      Ok ((here ++ rest)%list, ps)
  end.

(** The part of [genResource] from [hasRequired] to the end of the loop
    over the constants and defaults: the statements of the constructor, in
    the order they are printed. *)
Definition genResourceConstructor (ps : pkgMap) (pkg : pkgContext) (r : Resource)
  : result (list stmt * pkgMap) :=
  name ← resourceName r;
  let nilCheck := if negb (hasRequired r) then ArgsNilDefault name else ArgsNilError in
  '(defaults, ps) ← genDefaults ps pkg (res_InputProperties r);
  Ok ((nilCheck :: genRequiredChecks r ++ defaults)%list, ps).

(** ** The emitted Go at run time *)

(** A Go value as the constructor sees it.  A float64 is carried by its
    shortest decimal form. *)
Inductive value : Type :=
  | Nil
  | Bool (b : bool)
  | Int (z : Z)
  | Float (decimal : string)
  | Str (s : string)
  | StrArray (items : list string).

#[global] Instance value_eq_dec : EqDecision value.
Proof. solve_decision. Defined.

(** [strconv.ParseBool] *)
Definition ParseBool (v : string) : option bool :=
  if bool_decide (v ∈ ["1"; "t"; "T"; "TRUE"; "true"; "True"]) then Some true
  else if bool_decide (v ∈ ["0"; "f"; "F"; "FALSE"; "false"; "False"]) then Some false
  else None.

(** The value of a Go constant with the text [goPrimitiveValue] prints,
    where a value is expected of the constant's kind. *)
Definition constantValue (c : GoValue) : value :=
  match c with
  | VBool b => Bool b
  | VInt z => Int z
  | VUint n => Int (Z.of_N n)
  | VFloat d => Float d
  | VString s => Str s
  | VOther => Nil
  end.

(** The value of the same constant passed as [interface{}], where it takes
    its default type: a float64 printed without a fraction is an integer
    constant there. *)
Definition interfaceValue (c : GoValue) : value :=
  match c with
  | VFloat d =>
      match NilZero.int_of_string d with
      | Some i => Int (Z.of_int i)
      | None => Float d
      end
  | _ => constantValue c
  end.

Definition zeroValue (typ : goType) : value :=
  match typ with
  | GoString => Str ""
  | GoStringArray => StrArray []
  | GoBool => Bool false
  | GoInt => Int 0
  | GoFloat64 => Float "0"
  end.

Definition hasType (v : value) (typ : goType) : bool :=
  match v, typ with
  | Str _, GoString | StrArray _, GoStringArray | Bool _, GoBool
  | Int _, GoInt | Float _, GoFloat64 => true
  | _, _ => false
  end.

(** The type assertion [v.(typ)] *)
Definition typeAssert (v : value) (typ : goType) : result value :=
  if hasType v typ then Ok v else Panic "interface conversion".

Section Runtime.
(** [strconv.ParseInt(v, 0, 0)] and [strconv.ParseFloat(v, 64)] of Go's
    library, and the environment [os.Getenv] reads. *)
Variable ParseInt : string → option Z.
Variable ParseFloat : string → option string.
Variable Getenv : string → string.

(** [parseEnvBool], [parseEnvInt], [parseEnvFloat], [parseEnvStringArray] *)
Definition parseEnvBool (v : string) : value :=
  match ParseBool v with
  | Some b => Bool b
  | None => Nil
  end.

Definition parseEnvInt (v : string) : value :=
  match ParseInt v with
  | Some i => Int i
  | None => Nil
  end.

Definition parseEnvFloat (v : string) : value :=
  match ParseFloat v with
  | Some f => Float f
  | None => Nil
  end.

Definition parseEnvStringArray (v : string) : value :=
  StrArray (Split v ";").

(** [getEnvOrDefault]; a nil [parser] is [None]. *)
Fixpoint getEnvOrDefault (def : value) (parser : option (string → value))
    (vars : list string) : value :=
  match vars with
  | [] => def
  | v :: vars' =>
      let value := Getenv v in
      if negb (String.eqb value "") then
        match parser with
        | Some parse => parse value
        | None => Str value
        end
      else getEnvOrDefault def parser vars'
  end.

Definition parserFunction (parser : envParser) : option (string → value) :=
  match parser with
  | ParserNil => None
  | ParseEnvStringArray => Some parseEnvStringArray
  | ParseEnvBool => Some parseEnvBool
  | ParseEnvInt => Some parseEnvInt
  | ParseEnvFloat => Some parseEnvFloat
  end.

(** The value of an expression, inside a conversion or, for the default
    handed to [getEnvOrDefault], as [interface{}].  The empty text is no
    expression. *)
Fixpoint evalAs (asInterface : bool) (e : goExpr) : result value :=
  match e with
  | EEmpty => Failed "missing expression"
  | EConstant c => Ok (if asInterface then interfaceValue c else constantValue c)
  | EZero typ => Ok (zeroValue typ)
  | EGetEnvOrDefault def parser vars typ =>
      d ← evalAs true def;
      typeAssert (getEnvOrDefault d (parserFunction parser) vars) typ
  end.

Definition eval (e : goExpr) : result value := evalAs false e.

(** The fields of [args] the caller set; a field that is not set has the
    zero value of its type. *)
Definition isNil (v : option value) : bool :=
  match v with
  | None | Some Nil => true
  | _ => false
  end.

Definition isEmptyString (v : option value) : bool :=
  match v with
  | None | Some (Str EmptyString) => true
  | _ => false
  end.

Definition isZero (v : option value) : bool :=
  match v with
  | None | Some (Int Z0) => true
  | Some (Float d) => bool_decide (d ∈ ["0"; "-0"])
  | _ => false
  end.

Definition assignWhen (guard : bool) (field : string) (v : goExpr)
    (args : gmap string value) : result (gmap string value) :=
  if guard then x ← eval v; Ok (<[field := x]> args) else Ok args.

(** One statement, on a non-nil [args]. *)
Definition execStmt (s : stmt) (args : gmap string value) : result (gmap string value) :=
  match s with
  | ArgsNilDefault _ | ArgsNilError => Ok args
  | RequireNonNil field =>
      if isNil (args !! field)
      then Failed ("invalid value for required argument '" +:+ field +:+ "'")
      else Ok args
  | Assign field _ v => assignWhen true field v args
  | AssignIfEmptyString field _ v => assignWhen (isEmptyString (args !! field)) field v args
  | AssignIfZero field _ v => assignWhen (isZero (args !! field)) field v args
  | AssignPointerIfNil field _ v => assignWhen (isNil (args !! field)) field v args
  | AssignIfNil field _ v => assignWhen (isNil (args !! field)) field v args
  end.


(** The constructor body, from a possibly nil [args] to the arguments the
    resource is registered with. *)
Fixpoint execBody (body : list stmt) (args : option (gmap string value))
  : result (gmap string value) :=
  match body, args with
  | [], Some a => Ok a
  | [], None => Panic "nil pointer dereference"
  | ArgsNilDefault _ :: body', None => execBody body' (Some ∅)
  | ArgsNilError :: _, None => Failed "missing one or more required arguments"
  | _ :: _, None => Panic "nil pointer dereference"
  | s :: body', Some a => a ← execStmt s a; execBody body' (Some a)
  end.
End Runtime.

(** A token component: no colon in it. *)
Fixpoint noColon (s : string) : bool :=
  match s with
  | EmptyString => true
  | String c s' => negb (Ascii.eqb c ":"%char) && noColon s'
  end.

(** The renames on record only grow: every namespace is still there, with at
    least the names and exactly the earlier renames it had. *)
Definition registry_le (ps ps' : pkgMap) : Prop :=
  ∀ m c, ps !! m = Some c →
    ∃ c', ps' !! m = Some c' ∧ names c ⊆ names c' ∧ renamed c ⊆ renamed c'.

(** A rename is on record for the name of [tok] in the namespace of [tok]. *)
Definition renameRecorded (ps : pkgMap) (pkg : pkgContext) (tok : string) : Prop :=
  ∃ m c newName,
    tokenToPackage (ctx_pkg pkg) (modToPkg pkg) tok = Ok m ∧
    ps !! m = Some c ∧
    renamed c !! Title (nth 2 (Split tok ":") "") = Some newName.

(** ** Definitions the statements are written with *)

(** Namespace [m] after [tokenToType] renamed [Bucket], and the same with
    more names registered. *)
Definition recordedNamespace : pkgContext :=
  set_names (fun s => s ∪ {["BucketType"]})
    (set_renamed (fun r => <["Bucket" := "BucketType"]> r) (exampleNamespace ["Bucket"])).

Definition laterNamespace : pkgContext :=
  set_names (fun s => s ∪ {["Gadget"; "BucketTypeType"]}) recordedNamespace.

(** The identifier [tokenToType] builds from the namespace [m] of the token
    and the name the rename block gave. *)
Definition qualifiedType (pkg : pkgContext) (tok m name : string) : string :=
  if String.eqb m (ctx_mod pkg) then name
  else Replace (Replace (if String.eqb m "" then nth 0 (Split tok ":") "" else m) "/" ""
                +:+ "." +:+ name) "-provider" "".

Definition qualifiedEnum (pkg : pkgContext) (tok m name : string) : string :=
  if String.eqb m (ctx_mod pkg) then name
  else Replace (if String.eqb m "" then nth 0 (Split tok ":") "" else m) "/" ""
       +:+ "." +:+ name.

(** Induction over schema types that reaches the alternatives of a union
    and the underlying type of a token type. *)
Section SchemaType_nested_ind.
Variable P : SchemaType → Prop.
Hypothesis HBool : P BoolType.
Hypothesis HInt : P IntType.
Hypothesis HNumber : P NumberType.
Hypothesis HString : P StringType.
Hypothesis HArchive : P ArchiveType.
Hypothesis HAsset : P AssetType.
Hypothesis HJSON : P JSONType.
Hypothesis HAny : P AnyType.
Hypothesis HArray : ∀ t, P t → P (ArrayType t).
Hypothesis HMap : ∀ t, P t → P (MapType t).
Hypothesis HObject : ∀ tok p, P (ObjectType tok p).
Hypothesis HResource : ∀ tok r, P (ResourceType tok r).
Hypothesis HTokenNone : ∀ tok, P (TokenType tok None).
Hypothesis HTokenSome : ∀ tok u, P u → P (TokenType tok (Some u)).
Hypothesis HUnion : ∀ es, Forall P es → P (UnionType es).
Hypothesis HEnum : ∀ tok t, P t → P (EnumType tok t).

Fixpoint SchemaType_nested_ind (t : SchemaType) : P t :=
  match t with
  | BoolType => HBool | IntType => HInt | NumberType => HNumber
  | StringType => HString | ArchiveType => HArchive | AssetType => HAsset
  | JSONType => HJSON | AnyType => HAny
  | ArrayType e => HArray e (SchemaType_nested_ind e)
  | MapType e => HMap e (SchemaType_nested_ind e)
  | ObjectType tok p => HObject tok p
  | ResourceType tok r => HResource tok r
  | TokenType tok None => HTokenNone tok
  | TokenType tok (Some u) => HTokenSome tok u (SchemaType_nested_ind u)
  | UnionType es =>
      HUnion es
        ((fix all (es : list SchemaType) : Forall P es :=
            match es with
            | [] => Forall_nil_2 P
            | e :: es' => Forall_cons_2 P e es' (SchemaType_nested_ind e) (all es')
            end) es)
  | EnumType tok e => HEnum tok e (SchemaType_nested_ind e)
  end.
End SchemaType_nested_ind.

(** The two writes of the propagation: the token joins [seen] and the flag
    [ptrElement] of the type is set in the namespace of its token. *)
Definition markObject (pkg : Package) (st : scanState) (tok m : string) : scanState :=
  {| packages := alter (updateDetailsForType tok setPtrElement) m
                   (getPkg pkg (packages st) m);
     seen := seen st ∪ {[tok]} |}.

Definition markEnum (pkg : Package) (st : scanState) (tok m : string) : scanState :=
  {| packages := alter (updateDetailsForEnum tok setPtrElement) m
                   (getPkg pkg (packages st) m);
     seen := seen st ∪ {[tok]} |}.

(** A property that is skipped: its type is neither an object type nor an
    enum, or it is required under a required parent, or its token is seen. *)
Definition skipped (st : scanState) (p : Property) (b : bool) : Prop :=
  (objectToken p = None ∧ enumToken p = None) ∨
  negb (prop_IsRequired p) || b = false ∨
  (∃ tok, (objectToken p = Some tok ∨ enumToken p = Some tok) ∧ tok ∈ seen st).

(** The propagation only adds to [seen], only raises flags, and leaves the
    names of every namespace alone. *)
Definition extends (st st' : scanState) : Prop :=
  seen st ⊆ seen st' ∧ details_le (packages st) (packages st') ∧
  ∀ m, namesOf (packages st') m = namesOf (packages st) m.


(** What every round keeps: [seen] and the flags only grow. *)
Definition grows (st st' : scanState) : Prop :=
  seen st ⊆ seen st' ∧ details_le (packages st) (packages st').

(** The state of [scanResource] once the identifiers are registered. *)
Definition registered (pkg : Package) (st : scanState) (r : Resource) (m name : string)
  : scanState :=
  {| packages :=
       foldl (fun ps id => alter (set_names (fun ns => ns ∪ {[id]})) m ps)
         (alter (set_resources (fun rs => (rs ++ [r])%list)) m
            (getPkg pkg (packages st) m))
         (resourceIdentifiers name (res_IsProvider r) (res_IsComponent r));
     seen := seen st |}.

(** The state the loop over [pkg.Types] starts from. *)
Definition initialState (pkg : Package) : scanState :=
  {| packages := if negb (Nat.eqb (length (pkg_Config pkg)) 0)
                 then getPkg pkg ∅ "config" else ∅;
     seen := ∅ |}.

(** The nine identifiers of the resource [Widget]. *)
Definition widgetIdentifiers : list string :=
  ["Widget"; "WidgetInput"; "WidgetOutput"; "WidgetArgs"; "widgetArgs";
   "NewWidget"; "WidgetState"; "widgetState"; "GetWidget"].

(** Package [p] with the resource [p:m:Bucket], whose required input
    [versioning] is the object type [Versioning { mode: Mode }], [Mode]
    being an enum. *)
Definition modeProperty : Property :=
  property "mode" (EnumType "p:m:Mode" StringType) true.

Definition versioningProperty : Property :=
  property "versioning" (ObjectType "p:m:Versioning" (Some examplePkg)) true.

Definition bucket : Resource :=
  {| res_Token := "p:m:Bucket"; res_Properties := [];
     res_InputProperties := [versioningProperty];
     res_IsProvider := false; res_IsComponent := false |}.

Definition bucketPackage : Package :=
  {| pkg_ref := examplePkg;
     pkg_Types := [];
     pkg_Provider := exampleProvider;
     pkg_Resources := [bucket];
     pkg_Functions := [];
     pkg_Config := [];
     pkg_objects := {["p:m:Versioning" := [modeProperty]]} |}.

(** A decimal reading of integers, for the examples. *)
Definition parseDecimal (v : string) : option Z :=
  Z.of_int <$> NilZero.int_of_string v.

(** An environment with [A] set to [abc] and [B] to [7]. *)
Definition exampleEnv (name : string) : string :=
  if String.eqb name "A" then "abc" else if String.eqb name "B" then "7" else "".

(** A required input, not of enum type, that the caller left nil. *)
Definition missing (a : gmap string value) (p : Property) : bool :=
  match prop_Type p with
  | EnumType _ _ => false
  | _ => prop_IsRequired p && isNil (a !! Title (prop_Name p))
  end.

Definition invalidValue (p : Property) : string :=
  "invalid value for required argument '" +:+ Title (prop_Name p) +:+ "'".

(** The statements [genPropertyDefaults] yields for a required property of
    enum type: the constant's assignment and the default behind a comparison
    with the zero value of the element type. *)
Definition requiredEnumStmt (p : Property) (elementType : SchemaType) (s : stmt) : Prop :=
  match s with
  | Assign field _ _ =>
      field = Title (prop_Name p) ∧ is_Some (prop_ConstValue p)
  | AssignIfEmptyString field _ _ =>
      field = Title (prop_Name p) ∧ elementType = StringType ∧
      is_Some (prop_DefaultValue p)
  | AssignIfZero field _ _ =>
      field = Title (prop_Name p) ∧ (elementType = IntType ∨ elementType = NumberType) ∧
      is_Some (prop_DefaultValue p)
  | _ => False
  end.

(** A resource whose one input is a required string enum with no default. *)
Definition paint : Resource :=
  {| res_Token := "p:m:Paint"; res_Properties := [];
     res_InputProperties := [property "color" (EnumType "p:m:Color" StringType) true];
     res_IsProvider := false; res_IsComponent := false |}.

(** The value a parser name gives for a variable's text. *)
Definition parsed (ParseInt : string → option Z) (ParseFloat : string → option string)
    (parser : envParser) (text : string) : value :=
  match parserFunction ParseInt ParseFloat parser with
  | Some parse => parse text
  | None => Str text
  end.





(** * The rest of the generator *)

(** The byte [sep] does not occur in [s]. *)
Fixpoint lacks (sep : ascii) (s : string) : bool :=
  match s with
  | EmptyString => true
  | String c s' => negb (Ascii.eqb c sep) && lacks sep s'
  end.

(** [goPackage]: the part of the name before the first hyphen. *)
Definition goPackage (name : string) : string := nth 0 (Split name "-") "".

(** Every rename on record maps a taken name to a taken name, the old one
    with the suffix [Type] or [Enum]. *)
Definition renamesConsistent (ps : pkgMap) : Prop :=
  ∀ m c k v, ps !! m = Some c → renamed c !! k = Some v →
    k ∈ names c ∧ v ∈ names c ∧ (v = k +:+ "Type" ∨ v = k +:+ "Enum").

(** A type with no token in it: the primitive types, archive, asset, JSON
    and any, and the arrays, maps and unions of such types. *)
Fixpoint tokenFree (t : SchemaType) : bool :=
  match t with
  | BoolType | IntType | NumberType | StringType
  | ArchiveType | AssetType | JSONType | AnyType => true
  | ArrayType e | MapType e => tokenFree e
  | UnionType es =>
      (fix all (es : list SchemaType) : bool :=
         match es with
         | [] => true
         | e :: es' => tokenFree e && all es'
         end) es
  | _ => false
  end.

(** A package other than [examplePkg]. *)
Definition otherPkg : PackageRef := {| pkgName := "aws"; pkgModuleToPackage := ∅ |}.

(** The base of an Output type name for the base of the Input type name of
    the same type: they agree, but for JSON and any, whose Input form is
    [pulumi.Input] and whose Output form is [pulumi.AnyOutput]. *)
Definition outputBase (base : string) : string :=
  if String.eqb base "pulumi." then "pulumi.Any" else base.

(** [Q] holds of every namespace name and of what the map has under it. *)
Definition everywhere (Q : string → option pkgContext → Prop) (ps : pkgMap) : Prop :=
  ∀ m, Q m (ps !! m).

(** What a namespace holds of each kind; nothing when it does not exist. *)
Definition typesOf (ps : pkgMap) (m : string) : list SchemaType :=
  default [] (types <$> ps !! m).

Definition enumsOf (ps : pkgMap) (m : string) : list SchemaType :=
  default [] (enums <$> ps !! m).

Definition resourcesOf (ps : pkgMap) (m : string) : list Resource :=
  default [] (resources <$> ps !! m).

Definition functionsOf (ps : pkgMap) (m : string) : list Function :=
  default [] (functions <$> ps !! m).

(** [pkg.functionNames[f]] in namespace [m] *)
Definition functionNameOf (ps : pkgMap) (m tok : string) : option string :=
  ps !! m ≫= fun c => functionNames c !! tok.

(** The token belongs to namespace [m]. *)
Definition filedUnder (pkg : Package) (m tok : string) : bool :=
  match namespaceOf pkg tok with
  | Ok m' => String.eqb m' m
  | _ => false
  end.

Definition objectIn (pkg : Package) (m : string) (t : SchemaType) : bool :=
  match t with
  | ObjectType tok _ => filedUnder pkg m tok
  | _ => false
  end.

Definition enumIn (pkg : Package) (m : string) (t : SchemaType) : bool :=
  match t with
  | EnumType tok _ => filedUnder pkg m tok
  | _ => false
  end.

(** A namespace as [getPkg] makes it, whatever was filed in it since: it
    knows its own name, the package and the overrides, and has no rename
    on record. *)
Definition freshNamespace (pkg : Package) (m : string) (c : pkgContext) : Prop :=
  ctx_mod c = m ∧ ctx_pkg c = Some (pkg_ref pkg) ∧
  modToPkg c = pkgModuleToPackage (pkg_ref pkg) ∧
  renamed c = ∅ ∧ needsUtils c = false.

(** The tokens the partitioner files: those of the object types and enums
    of the type list, of the provider and the resources, and of the
    functions. *)
Definition filedTokens (pkg : Package) : list string :=
  (omap (fun t => match t with
                  | ObjectType tok _ | EnumType tok _ => Some tok
                  | _ => None
                  end) (pkg_Types pkg) ++
   (res_Token <$> pkg_Provider pkg :: pkg_Resources pkg) ++
   (fn_Token <$> pkg_Functions pkg))%list.

(** The name [scanFunction] gives a function whose name [base] is taken. *)
Definition renamedFunction (base : string) : string :=
  if HasPrefix base "New" then "Create" +:+ drop_string 3 base
  else if HasPrefix base "Get" then "Lookup" +:+ drop_string 3 base
  else base.

(** Package [p] with the resource [p:m:Foo] and the functions [p:m:newFoo]
    and [p:m:getFoo]. *)
Definition fooPackage : Package :=
  {| pkg_ref := examplePkg;
     pkg_Types := [];
     pkg_Provider := exampleProvider;
     pkg_Resources :=
       [{| res_Token := "p:m:Foo"; res_Properties := []; res_InputProperties := [];
           res_IsProvider := false; res_IsComponent := false |}];
     pkg_Functions :=
       [{| fn_Token := "p:m:newFoo"; fn_Inputs := None; fn_Outputs := None |};
        {| fn_Token := "p:m:getFoo"; fn_Inputs := None; fn_Outputs := None |}];
     pkg_Config := [property "region" StringType false];
     pkg_objects := ∅ |}.

(** ** Comments ([printComment]) *)

Definition newline : ascii := "010"%char.
Definition tab : ascii := "009"%char.

(** The text written to [w] by a sequence of [Fprintf] calls. *)
Definition written (pieces : list string) : string := foldr String.append "" pieces.

(** The loop of [printComment] that drops the empty lines at the end. *)
Fixpoint dropTrailingEmpty (lines : list string) : list string :=
  match lines with
  | [] => []
  | l :: lines' =>
      match dropTrailingEmpty lines' with
      | [] => if String.eqb l "" then [] else [l]
      | rest => l :: rest
      end
  end.

(** What the second loop of [printComment] writes for the line [l]. *)
Definition commentLine (indent : bool) (l : string) : string :=
  (if indent then String tab "" else "") +:+
  (if String.eqb l "" then "//" else "// " +:+ l) +:+ String newline "".

Section Comments.
(** [codegen.FilterExamples] *)
Variable FilterExamples : string → string → string.

(** [printComment]: the text written and the number of lines. *)
Definition printComment (comment : string) (indent : bool) : string * nat :=
  let comment := FilterExamples comment "go" in
  let lines := dropTrailingEmpty (Split comment newline) in
  (written (commentLine indent <$> lines), length lines).

(** [printCommentWithDeprecationMessage] *)
Definition printCommentWithDeprecationMessage (comment deprecationMessage : string)
    (indent : bool) : string :=
  let '(text, lines) := printComment comment indent in
  if negb (String.eqb deprecationMessage "") then
    text +:+
    (if negb (Nat.eqb lines 0) then "//" +:+ String newline "" else "") +:+
    (printComment ("Deprecated: " +:+ deprecationMessage) indent).1
  else text.
End Comments.

(** A line of a Go comment, indented by a tab or not. *)
Definition isComment (line : string) : bool :=
  HasPrefix line "//" || HasPrefix line (String tab "//").

(** The text is [n] comment lines, each ended by a newline. *)
Definition commentLines (text : string) (n : nat) : Prop :=
  ∃ lines, Split text newline = (lines ++ [""])%list ∧
           Forall (fun line => isComment line = true) lines ∧ length lines = n.

(** ** Enums ([genEnum], [genEnumType], [enumElementType]) *)

(** [contract.Assertf(cond, msg)] *)
Definition Assertf (cond : bool) (msg : string) : result unit :=
  if cond then Ok tt else Panic ("fatal: An assertion has failed: " +:+ msg).

(** [pkgContext.enumElementType] *)
Definition enumElementType (t : SchemaType) (optional : bool) : result string :=
  let suffix := if optional then "Ptr" else "" in
  match t with
  | BoolType => Ok ("pulumi.Bool" +:+ suffix)
  | IntType => Ok ("pulumi.Int" +:+ suffix)
  | NumberType => Ok ("pulumi.Float64" +:+ suffix)
  | StringType => Ok ("pulumi.String" +:+ suffix)
  | _ => Panic "Invalid enum type"
  end.

(** [schema.Enum], an element of an enum, and what the generator reads of a
    [schema.EnumType]. *)
Record EnumElement := {
  elem_Value : option GoValue;
  elem_Comment : string;
  elem_Name : string;
  elem_DeprecationMessage : string;
}.

Record EnumDecl := {
  enum_Token : string;
  enum_Comment : string;
  enum_ElementType : SchemaType;
  enum_Elements : list EnumElement;
}.

(** What [genEnumType] writes, kept by its parts: the comment and the name
    of each constant with its value, printed with [%q] for a string and with
    [%v] otherwise; the type declaration; the name [genEnumInputFuncs]
    derives for the conversion methods. *)
Record enumConstant := {
  const_comment : string;
  const_name : string;
  const_value : GoValue;
  const_quoted : bool;
}.

Record enumFile := {
  type_comment : string;
  type_name : string;
  type_elementType : string;
  type_constants : list enumConstant;
  type_asFuncName : string;
}.

Definition set_elem_Name (name : string) (e : EnumElement) : EnumElement :=
  {| elem_Value := elem_Value e; elem_Comment := elem_Comment e; elem_Name := name;
     elem_DeprecationMessage := elem_DeprecationMessage e |}.

Section Enums.
(** [codegen.FilterExamples], [makeSafeEnumName] of this package, which
    returns a name or an error, and [fmt.Sprintf] with the verb [%v]. *)
Variable FilterExamples : string → string → string.
Variable makeSafeEnumName : string → string → string + string.
Variable Sprint : option GoValue → string.

(** One round of the loop over [enumType.Elements]: the constant written and
    the element with the name it was given. *)
Definition genEnumElement (taken : gset string) (tok name : string) (e : EnumElement)
  : result (enumConstant * EnumElement) :=
  let comment :=
    printCommentWithDeprecationMessage FilterExamples (elem_Comment e)
      (elem_DeprecationMessage e) true in
  let elementName :=
    if String.eqb (elem_Name e) "" then Sprint (elem_Value e) else elem_Name e in
  match makeSafeEnumName elementName name with
  | inr err => Failed err
  | inl enumName =>
      _ ← Assertf (negb (bool_decide (enumName ∈ taken)))
            ("Name collision for enum constant: " +:+ enumName +:+ " for " +:+ tok);
      match elem_Value e with
      | None => Panic "nil pointer dereference"
      | Some v =>
          Ok ({| const_comment := comment; const_name := enumName; const_value := v;
                 const_quoted := match v with VString _ => true | _ => false end |},
              set_elem_Name enumName e)
      end
  end.

Fixpoint genEnumElements (taken : gset string) (tok name : string)
    (es : list EnumElement) : result (list enumConstant * list EnumElement) :=
  match es with
  | [] => Ok ([], [])
  | e :: es' =>
      '(c, e) ← genEnumElement taken tok name e;
      '(cs, es) ← genEnumElements taken tok name es';
      Ok (c :: cs, e :: es)
  end.

(** [genEnumType] up to the closing parenthesis of the constants. *)
Definition genEnumConstants (ps : pkgMap) (pkg : pkgContext) (name : string)
    (enumType : EnumDecl) : result (enumFile * list EnumElement) :=
  m ← tokenToPackage (ctx_pkg pkg) (modToPkg pkg) (enum_Token enumType);
  modPkg ← match ps !! m with
           | Some c => Ok c
           | None => Panic "fatal: An assertion has failed"
           end;
  let comment :=
    printCommentWithDeprecationMessage FilterExamples (enum_Comment enumType) "" false in
  elementType ← enumElementType (enum_ElementType enumType) false;
  '(constants, elements) ←
    genEnumElements (names modPkg) (enum_Token enumType) name (enum_Elements enumType);
  Ok ({| type_comment := comment; type_name := name; type_elementType := elementType;
         type_constants := constants;
         type_asFuncName := Title (Replace elementType "pulumi." "") |},
      elements).

(** [pkgContext.genEnumType].  The message of the last assertion ends with
    the enum type as [%s] prints the pointer; that end is left out. *)
Definition genEnumType (ps : pkgMap) (pkg : pkgContext) (name : string)
    (enumType : EnumDecl) : result (enumFile * list EnumElement * pkgMap) :=
  '(file, elements) ← genEnumConstants ps pkg name enumType;
  '(inputTy, ps) ←
    inputType ps pkg (EnumType (enum_Token enumType) (enum_ElementType enumType)) false;
  _ ← Assertf (String.eqb name inputTy)
        ("expect inputType (" +:+ inputTy +:+ ") for enums to be the same as enum type");
  Ok (file, elements, ps).

(** [pkgContext.genEnum] *)
Definition genEnum (ps : pkgMap) (pkg : pkgContext) (enum : EnumDecl)
  : result (enumFile * list EnumElement * pkgMap) :=
  '(name, ps) ← tokenToEnum ps pkg (enum_Token enum);
  genEnumType ps pkg name enum.
End Enums.

(** An enum of namespace [m] for the examples. *)
Definition colorEnum : EnumDecl :=
  {| enum_Token := "p:m:color"; enum_Comment := ""; enum_ElementType := StringType;
     enum_Elements :=
       [{| elem_Value := Some (VString "red"); elem_Comment := ""; elem_Name := "Red";
           elem_DeprecationMessage := "" |}] |}.

(** ** Configuration getters ([genConfig]) *)

Definition quote : ascii := "034"%char.

(** The name of the Go type that [getDefaultValue] asserts. *)
Definition goTypeName (typ : goType) : string :=
  match typ with
  | GoString => "string"
  | GoStringArray => "pulumi.StringArray"
  | GoBool => "bool"
  | GoInt => "int"
  | GoFloat64 => "float64"
  end.

(** The pair [getType, funcType] of [genConfig]. *)
Definition configTypes (t : SchemaType) : string * string :=
  match t with
  | BoolType => ("bool", "Bool")
  | IntType => ("int", "Int")
  | NumberType => ("float64", "Float64")
  | _ => ("string", "")
  end.

(** The body of a getter: [return config.Get<funcType>(ctx, key)], or
    [config.Try<funcType>(ctx, key)] followed by the return of the default. *)
Inductive getterBody : Type :=
  | ReturnConfig (funcType configKey : string)
  | TryThenDefault (funcType configKey : string) (defaultValue : goExpr).

(** The function [Get<name>(ctx *pulumi.Context) <type>] that [genConfig]
    writes for a variable. *)
Record configGetter := {
  getter_comment : string;
  getter_name : string;
  getter_type : string;
  getter_body : getterBody;
}.

Section Config.
Variable FilterExamples : string → string → string.
(** The fields [Comment] and [DeprecationMessage] of a property. *)
Variable Comment : Property → string.
Variable DeprecationMessage : Property → string.

(** One round of the loop of [genConfig]; the boolean tells whether
    [needsUtils] was set. *)
Definition genConfigGetter (pkg : pkgContext) (p : Property)
  : result (configGetter * bool) :=
  let '(getType, funcType) := configTypes (prop_Type p) in
  let comment :=
    printCommentWithDeprecationMessage FilterExamples (Comment p)
      (DeprecationMessage p) false in
  match ctx_pkg pkg with
  | None => Panic "nil pointer dereference"
  | Some pk =>
      let configKey :=
        String quote (pkgName pk +:+ ":" +:+ camel (prop_Name p)) +:+ String quote "" in
      match prop_DefaultValue p with
      | Some dv =>
          '(defaultValue, needs) ← getDefaultValue dv (prop_Type p);
          Ok ({| getter_comment := comment; getter_name := Title (prop_Name p);
                 getter_type := getType;
                 getter_body := TryThenDefault funcType configKey defaultValue |},
              needs)
      | None =>
          Ok ({| getter_comment := comment; getter_name := Title (prop_Name p);
                 getter_type := getType;
                 getter_body := ReturnConfig funcType configKey |},
              false)
      end
  end.

(** The loop of [genConfig] over the variables, after the header. *)
Fixpoint genConfigGetters (pkg : pkgContext) (variables : list Property)
  : result (list configGetter * bool) :=
  match variables with
  | [] => Ok ([], false)
  | p :: variables' =>
      '(g, needs) ← genConfigGetter pkg p;
      '(gs, needs') ← genConfigGetters pkg variables';
      Ok (g :: gs, needs || needs')
  end.
End Config.

(** A configuration variable whose default reads the variable [REGION]. *)
Definition regionVariable (t : SchemaType) : Property :=
  {| prop_Name := "region"; prop_Type := t; prop_IsRequired := false;
     prop_Secret := false; prop_ConstValue := None;
     prop_DefaultValue := Some {| dv_Value := None; dv_Environment := ["REGION"] |} |}.

(** ** Imports ([getTypeImports], [getImports]) *)

(** The fields of [GoPackageInfo] the imports read; [ModuleToPackage] is
    [pkgModuleToPackage].  The fields [importBasePath] and [pkgImportAliases]
    of a context are those of the [GoPackageInfo] of the run, and are passed
    beside the receiver. *)
Record GoPackageInfo := {
  ImportBasePath : string;
  PackageImportAliases : gmap string string;
}.

(** The key of [seen]: a type compared with another one, a package being
    compared as [samePackage] does. *)
Definition samePackageRef (p p' : option PackageRef) : bool :=
  match p, p' with
  | Some a, Some b => samePackage a b
  | None, None => true
  | _, _ => false
  end.

Fixpoint SchemaType_eqb (a b : SchemaType) {struct a} : bool :=
  match a, b with
  | BoolType, BoolType | IntType, IntType | NumberType, NumberType
  | StringType, StringType | ArchiveType, ArchiveType | AssetType, AssetType
  | JSONType, JSONType | AnyType, AnyType => true
  | ArrayType x, ArrayType y | MapType x, MapType y => SchemaType_eqb x y
  | ObjectType tok p, ObjectType tok' p' | ResourceType tok p, ResourceType tok' p' =>
      String.eqb tok tok' && samePackageRef p p'
  | TokenType tok u, TokenType tok' u' =>
      String.eqb tok tok' &&
      match u, u' with
      | Some x, Some y => SchemaType_eqb x y
      | None, None => true
      | _, _ => false
      end
  | UnionType xs, UnionType ys =>
      (fix all (xs ys : list SchemaType) {struct xs} : bool :=
         match xs, ys with
         | [], [] => true
         | x :: xs', y :: ys' => SchemaType_eqb x y && all xs' ys'
         | _, _ => false
         end) xs ys
  | EnumType tok e, EnumType tok' e' => String.eqb tok tok' && SchemaType_eqb e e'
  | _, _ => false
  end.

(** The two maps [getTypeImports] updates. *)
Record importState := {
  importsAndAliases : gmap string string;
  seenTypes : list SchemaType;
}.

(** What [getImports] is given: a type, a resource, a function, a list of
    properties, or a value of another type. *)
Inductive member : Type :=
  | TypeMember (t : SchemaType)
  | ResourceMember (r : Resource)
  | FunctionMember (f : Function)
  | PropertiesMember (props : list Property)
  | OtherMember.

Section Imports.
(** [path.Join] of two elements, [extPkg.Language["go"]] when it is a
    [GoPackageInfo], and [extPkg.Version.Major]. *)
Variable pathJoin : string → string → string.
Variable languageGo : PackageRef → option GoPackageInfo.
Variable versionMajor : PackageRef → N.

(** [extractImportBasePath] *)
Definition extractImportBasePath (extPkg : PackageRef) : string :=
  let version := versionMajor extPkg in
  let vPath :=
    if (1 <? version)%N then "/v" +:+ NilEmpty.string_of_uint (N.to_uint version)
    else "" in
  "github.com/pulumi/pulumi-" +:+ pkgName extPkg +:+ "/sdk" +:+ vPath +:+ "/go/" +:+
  pkgName extPkg.

(** The block [getTypeImports] runs for an object or a resource type of
    another package. *)
Definition externalImport (extPkg : PackageRef) (tok : string)
    (imports : gmap string string) : result (gmap string string) :=
  let goInfo :=
    match languageGo extPkg with
    | Some info => info
    | None => {| ImportBasePath := extractImportBasePath extPkg;
                 PackageImportAliases := ∅ |}
    end in
  m ← tokenToPackage (ctx_pkg (extPkgCtx extPkg)) (modToPkg (extPkgCtx extPkg)) tok;
  let imp := pathJoin (ImportBasePath goInfo) m in
  Ok (<[imp := default "" (PackageImportAliases goInfo !! imp)]> imports).

(** The block it runs for one of the package of the context. *)
Definition localImport (goInfo : GoPackageInfo) (pkg : pkgContext) (tok : string)
    (imports : gmap string string) : result (gmap string string) :=
  m ← tokenToPackage (ctx_pkg pkg) (modToPkg pkg) tok;
  if negb (String.eqb m (ctx_mod pkg)) then
    let p := pathJoin (ImportBasePath goInfo) m in
    Ok (<[p := default "" (PackageImportAliases goInfo !! p)]> imports)
  else Ok imports.

Definition set_imports (imports : gmap string string) (st : importState) : importState :=
  {| importsAndAliases := imports; seenTypes := seenTypes st |}.

(** [pkgContext.getTypeImports].  The fuel bounds the descent into the
    properties of object types. *)
Fixpoint getTypeImports (fuel : nat) (goInfo : GoPackageInfo)
    (objects : gmap string (list Property)) (pkg : pkgContext) (recurse : bool)
    (t : SchemaType) (st : importState) {struct fuel} : result importState :=
  match fuel with
  | O => OutOfFuel
  | S fuel' =>
      (fix visit (t : SchemaType) (st : importState) {struct t} : result importState :=
         if existsb (SchemaType_eqb t) (seenTypes st) then Ok st
         else
           let st := {| importsAndAliases := importsAndAliases st;
                        seenTypes := t :: seenTypes st |} in
           match t with
           | ArrayType e => visit e st
           | MapType e => visit e st
           | ObjectType tok package =>
               match package with
               | Some extPkg =>
                   if isExternalReference pkg t then
                     imports ← externalImport extPkg tok (importsAndAliases st);
                     Ok (set_imports imports st)
                   else
                     imports ← localImport goInfo pkg tok (importsAndAliases st);
                     if recurse then
                       forEach (fun st p =>
                                  getTypeImports fuel' goInfo objects pkg recurse
                                    (prop_Type p) st)
                         (objectProperties objects tok) (set_imports imports st)
                     else Ok (set_imports imports st)
               | None =>
                   imports ← localImport goInfo pkg tok (importsAndAliases st);
                   if recurse then
                     forEach (fun st p =>
                                getTypeImports fuel' goInfo objects pkg recurse
                                  (prop_Type p) st)
                       (objectProperties objects tok) (set_imports imports st)
                   else Ok (set_imports imports st)
               end
           | ResourceType tok resource =>
               match resource with
               | Some extPkg =>
                   if isExternalReference pkg t then
                     imports ← externalImport extPkg tok (importsAndAliases st);
                     Ok (set_imports imports st)
                   else
                     imports ← localImport goInfo pkg tok (importsAndAliases st);
                     Ok (set_imports imports st)
               | None =>
                   imports ← localImport goInfo pkg tok (importsAndAliases st);
                   Ok (set_imports imports st)
               end
           | UnionType es =>
               (fix each (es : list SchemaType) (st : importState) {struct es}
                  : result importState :=
                  match es with
                  | [] => Ok st
                  | e :: es' => st ← visit e st; each es' st
                  end) es st
           | _ => Ok st
           end) t st
  end.

(** The loop of [getImports] over the input properties of a resource. *)
Definition inputImports (fuel : nat) (goInfo : GoPackageInfo)
    (objects : gmap string (list Property)) (pkg : pkgContext)
    (st : importState) (p : Property) : result importState :=
  st ← getTypeImports fuel goInfo objects pkg false (prop_Type p) st;
  if prop_IsRequired p then
    Ok (set_imports (<["github.com/pkg/errors" := ""]> (importsAndAliases st)) st)
  else Ok st.

(** [pkgContext.getImports].  The inputs and the outputs of a function are
    object types of the package of the context. *)
Definition getImports (fuel : nat) (goInfo : GoPackageInfo)
    (objects : gmap string (list Property)) (pkg : pkgContext) (m : member)
    (imports : gmap string string) : result (gmap string string) :=
  let st := {| importsAndAliases := imports; seenTypes := [] |} in
  let pulumi (st : importState) :=
    <["github.com/pulumi/pulumi/sdk/v2/go/pulumi" := ""]> (importsAndAliases st) in
  match m with
  | TypeMember (ObjectType _ _ as t) | TypeMember (ResourceType _ _ as t) =>
      st ← getTypeImports fuel goInfo objects pkg true t st;
      Ok (pulumi st)
  | ResourceMember r =>
      st ← forEach (fun st p =>
                      getTypeImports fuel goInfo objects pkg false (prop_Type p) st)
             (res_Properties r) st;
      st ← forEach (inputImports fuel goInfo objects pkg) (res_InputProperties r) st;
      Ok (pulumi st)
  | FunctionMember f =>
      st ← match fn_Inputs f with
           | Some tok =>
               getTypeImports fuel goInfo objects pkg true
                 (ObjectType tok (ctx_pkg pkg)) st
           | None => Ok st
           end;
      st ← match fn_Outputs f with
           | Some tok =>
               getTypeImports fuel goInfo objects pkg true
                 (ObjectType tok (ctx_pkg pkg)) st
           | None => Ok st
           end;
      Ok (pulumi st)
  | PropertiesMember props =>
      st ← forEach (fun st p =>
                      getTypeImports fuel goInfo objects pkg false (prop_Type p) st)
             props st;
      Ok (pulumi st)
  | TypeMember (EnumType _ _) => Ok (pulumi st)
  | _ => Ok imports
  end.
End Imports.

(** The constructor returns an error made with [errors.New]. *)
Definition usesErrors (body : list stmt) : bool :=
  existsb (fun s => match s with
                    | ArgsNilError | RequireNonNil _ => true
                    | _ => false
                    end) body.

(** A resource of namespace [m] for the examples: its required input is an
    object type of namespace [other].  The elements are joined with a slash. *)
Definition gadget : Resource :=
  let props := [property "spec" (ObjectType "p:other:Spec" None) true] in
  {| res_Token := "p:m:Gadget"; res_Properties := props; res_InputProperties := props;
     res_IsProvider := false; res_IsComponent := false |}.

Definition exampleInfo : GoPackageInfo :=
  {| ImportBasePath := "example.com/sdk/go/p"; PackageImportAliases := ∅ |}.

Definition joinPath (a b : string) : string := a +:+ "/" +:+ b.

(** ** More definitions the statements are written with *)

(** Every byte of [s] is an ASCII one. *)
Fixpoint isASCII (s : string) : bool :=
  match s with
  | EmptyString => true
  | String c s' => Nat.ltb (nat_of_ascii c) 128 && isASCII s'
  end.










(* ------------------------------------------------------------------ *)
(** * Theorems *)
(* ------------------------------------------------------------------ *)

Local Open Scope nat_scope.

(** ** Strings *)

Lemma Split_noColon s : noColon s = true → Split s ":" = [s].
Proof.
  induction s as [|c s IH]; simpl; [done|].
  intros [Hc Hs]%andb_prop. apply negb_true_iff in Hc. rewrite Hc, (IH Hs). done.
Qed.

Lemma Split_component s rest :
  noColon s = true → Split (s +:+ ":" +:+ rest) ":" = s :: Split rest ":".
Proof.
  induction s as [|c s IH]; simpl; [done|].
  intros [Hc Hs]%andb_prop. apply negb_true_iff in Hc. rewrite Hc.
  change (Split (s +:+ String ":" rest) ":") with (Split (s +:+ ":" +:+ rest) ":").
  rewrite (IH Hs). done.
Qed.

Lemma Split_three p m n :
  noColon p = true → noColon m = true → noColon n = true →
  Split (p +:+ ":" +:+ m +:+ ":" +:+ n) ":" = [p; m; n].
Proof.
  intros Hp Hm Hn. rewrite (Split_component p _ Hp), (Split_component m _ Hm).
  by rewrite (Split_noColon n Hn).
Qed.

(** ** Token resolver *)

Lemma Assert_false_panics (b : bool) :
  b = false → Assert b = Panic "fatal: An assertion has failed".
Proof. by intros ->. Qed.

(** C1, as the code has it: for a token [p:m:n] the namespace is the override
    of [m] when there is one and [m] otherwise, lower-cased in both cases; a
    token that does not split into exactly three components panics, and no
    token yields an error value. *)
Theorem C1_tokenToPackage_lowercases_both (pkg : option PackageRef)
    (overrides : gmap string string) :
  (∀ p m n, noColon p = true → noColon m = true → noColon n = true →
     tokenToPackage pkg overrides (p +:+ ":" +:+ m +:+ ":" +:+ n)
     = Ok (ToLower (default m (overrides !! m)))) ∧
  (∀ tok, length (Split tok ":") ≠ 3 →
     tokenToPackage pkg overrides tok = Panic "fatal: An assertion has failed" ∧
     tokenToModule tok = Panic "fatal: An assertion has failed") ∧
  (∀ tok err, tokenToPackage pkg overrides tok ≠ Failed err).
Proof.
  split; [|split].
  - intros p m n Hp Hm Hn.
    unfold tokenToPackage, Package_TokenToModule, tokenToModule.
    rewrite (Split_three p m n Hp Hm Hn). simpl.
    by destruct (overrides !! m).
  - intros tok Hlen.
    assert (Nat.eqb (length (Split tok ":")) 3 = false) as Hb
      by by apply Nat.eqb_neq.
    unfold tokenToPackage, Package_TokenToModule, tokenToModule.
    by rewrite Hb.
  - intros tok err.
    unfold tokenToPackage, Package_TokenToModule, tokenToModule.
    destruct (Nat.eqb (length (Split tok ":")) 3); simpl; [|done].
    by destruct (overrides !! _).
Qed.

Lemma C1_tokenToPackage_witness :
  tokenToPackage (Some examplePkg) {["m" := "Foo"]} "p:m:n" = Ok "foo" ∧
  tokenToPackage (Some examplePkg) {["m" := "Foo"]} "p:m"
  = Panic "fatal: An assertion has failed".
Proof.
  destruct (C1_tokenToPackage_lowercases_both (Some examplePkg) {["m" := "Foo"]})
    as [Hok [Hpanic _]].
  split.
  - apply (Hok "p" "m" "n"); reflexivity.
  - apply (Hpanic "p:m"). simpl. lia.
Defined.

(** The override is not returned as it is: [Foo] comes back as [foo]. *)
Lemma C1_override_not_verbatim :
  ({["m" := "Foo"]} : gmap string string) !! "m" = Some "Foo" ∧
  tokenToPackage (Some examplePkg) {["m" := "Foo"]} "p:m:n" ≠ Ok "Foo".
Proof. split; [reflexivity | vm_compute; discriminate]. Qed.

(** ** Naming resolver *)

Section Renaming.
Variable suffix : string.

Lemma renameIn_recorded (ps : pkgMap) m c name newName :
  ps !! m = Some c → renamed c !! name = Some newName →
  renameIn suffix ps m name = (newName, ps).
Proof. intros Hm Hr. unfold renameIn. by rewrite Hm, Hr. Qed.

Lemma renameIn_taken (ps : pkgMap) m c name :
  ps !! m = Some c → renamed c !! name = None → name ∈ names c →
  renameIn suffix ps m name
  = (name +:+ suffix,
     <[m := set_names (fun ns => ns ∪ {[name +:+ suffix]})
              (set_renamed (fun rn => <[name := name +:+ suffix]> rn) c)]> ps).
Proof.
  intros Hm Hr Hin. unfold renameIn. rewrite Hm, Hr.
  by rewrite bool_decide_eq_true_2.
Qed.

Lemma renameIn_free (ps : pkgMap) m c name :
  ps !! m = Some c → renamed c !! name = None → name ∉ names c →
  renameIn suffix ps m name = (name, ps).
Proof.
  intros Hm Hr Hin. unfold renameIn. rewrite Hm, Hr.
  by rewrite bool_decide_eq_false_2.
Qed.

Lemma renameIn_no_namespace (ps : pkgMap) m name :
  ps !! m = None → renameIn suffix ps m name = (name, ps).
Proof. intros Hm. unfold renameIn. by rewrite Hm. Qed.

(** The registry only grows under a rename. *)
Lemma renameIn_registry_le (ps : pkgMap) m name id ps1 :
  renameIn suffix ps m name = (id, ps1) → registry_le ps ps1.
Proof.
  unfold renameIn. intros H m' c' Hc'.
  destruct (ps !! m) as [c|] eqn:Hm; [|simplify_eq; eauto].
  destruct (renamed c !! name) as [nn|] eqn:Hr; [simplify_eq; eauto|].
  case_bool_decide; simplify_eq; [|eauto].
  destruct (decide (m = m')) as [->|Hne].
  - rewrite lookup_insert_eq. simplify_eq. eexists. split; [done|]. simpl.
    split; [set_solver|]. by apply insert_subseteq.
  - rewrite lookup_insert_ne by done. eauto.
Qed.

(** What is on record after a call is what the call returned. *)
Lemma renameIn_returns_record (ps : pkgMap) m name id ps1 c1 newName :
  renameIn suffix ps m name = (id, ps1) →
  ps1 !! m = Some c1 → renamed c1 !! name = Some newName →
  id = newName.
Proof.
  unfold renameIn. intros H Hm1 Hr1.
  destruct (ps !! m) as [c|] eqn:Hm; [|simplify_eq].
  destruct (renamed c !! name) as [nn|] eqn:Hr; [by simplify_eq|].
  case_bool_decide; simplify_eq.
  rewrite lookup_insert_eq in Hm1. simplify_eq. simpl in Hr1.
  rewrite lookup_insert_eq in Hr1. by simplify_eq.
Qed.

(** Called again on its own result, the block returns the same name and
    changes nothing. *)
Lemma renameIn_again (ps : pkgMap) m name id ps1 :
  renameIn suffix ps m name = (id, ps1) →
  renameIn suffix ps1 m name = (id, ps1).
Proof.
  intros H. pose proof H as H0. unfold renameIn in H.
  destruct (ps !! m) as [c|] eqn:Hm; [|by simplify_eq].
  destruct (renamed c !! name) as [nn|] eqn:Hr; [by simplify_eq|].
  case_bool_decide; simplify_eq; [|done].
  eapply renameIn_recorded; [apply lookup_insert_eq|].
  simpl. apply lookup_insert_eq.
Qed.

(** With a rename on record, a later and larger registry answers alike. *)
Lemma renameIn_stable (ps1 ps2 : pkgMap) m name c1 newName :
  ps1 !! m = Some c1 → renamed c1 !! name = Some newName →
  registry_le ps1 ps2 →
  renameIn suffix ps2 m name = (newName, ps2).
Proof.
  intros Hm Hr Hle. destruct (Hle m c1 Hm) as (c2 & Hm2 & _ & Hrn).
  eapply renameIn_recorded; [done|].
  by eapply lookup_weaken.
Qed.
End Renaming.

Lemma tokenToType_Ok ps pkg tok id ps1 :
  tokenToType ps pkg tok = Ok (id, ps1) ↔
  ∃ m name,
    length (Split tok ":") = 3 ∧ is_Some (ctx_pkg pkg) ∧
    tokenToPackage (ctx_pkg pkg) (modToPkg pkg) tok = Ok m ∧
    renameIn "Type" ps m (Title (nth 2 (Split tok ":") "")) = (name, ps1) ∧
    id = qualifiedType pkg tok m name.
Proof.
  unfold tokenToType, qualifiedType, checkPkg. split.
  - destruct (Nat.eqb (length (Split tok ":")) 3) eqn:Hlen; [|done].
    apply Nat.eqb_eq in Hlen. simpl.
    destruct (ctx_pkg pkg) as [pr|] eqn:Hpkg; [|done]. simpl.
    destruct (tokenToPackage _ _ _) as [m| | |] eqn:Hm; try done. simpl.
    destruct (renameIn _ _ _ _) as [name ps'] eqn:Hre.
    intros H. exists m, name. split_and!; [done|by eexists|done| |].
    + destruct (String.eqb m (ctx_mod pkg)); by simplify_eq.
    + destruct (String.eqb m (ctx_mod pkg)); by simplify_eq.
  - intros (m & name & Hlen & [pr Hpkg] & Hm & Hre & ->).
    rewrite Hlen. rewrite Hpkg in Hm |- *. simpl. rewrite Hm. simpl. rewrite Hre.
    by destruct (String.eqb m (ctx_mod pkg)).
Qed.

Lemma tokenToEnum_Ok ps pkg tok id ps1 :
  tokenToEnum ps pkg tok = Ok (id, ps1) ↔
  ∃ m name,
    length (Split tok ":") = 3 ∧ is_Some (ctx_pkg pkg) ∧
    tokenToPackage (ctx_pkg pkg) (modToPkg pkg) tok = Ok m ∧
    renameIn "Enum" ps m (Title (nth 2 (Split tok ":") "")) = (name, ps1) ∧
    id = qualifiedEnum pkg tok m name.
Proof.
  unfold tokenToEnum, qualifiedEnum, checkPkg. split.
  - destruct (Nat.eqb (length (Split tok ":")) 3) eqn:Hlen; [|done].
    apply Nat.eqb_eq in Hlen. simpl.
    destruct (ctx_pkg pkg) as [pr|] eqn:Hpkg; [|done]. simpl.
    destruct (tokenToPackage _ _ _) as [m| | |] eqn:Hm; try done. simpl.
    destruct (renameIn _ _ _ _) as [name ps'] eqn:Hre.
    intros H. exists m, name. split_and!; [done|by eexists|done| |].
    + destruct (String.eqb m (ctx_mod pkg)); by simplify_eq.
    + destruct (String.eqb m (ctx_mod pkg)); by simplify_eq.
  - intros (m & name & Hlen & [pr Hpkg] & Hm & Hre & ->).
    rewrite Hlen. rewrite Hpkg in Hm |- *. simpl. rewrite Hm. simpl. rewrite Hre.
    by destruct (String.eqb m (ctx_mod pkg)).
Qed.

(** A name the namespace has taken, with no rename on record yet, comes back
    from [tokenToType] with the suffix [Type]. *)
Lemma tokenToType_taken ps pkg tok m c :
  length (Split tok ":") = 3 → is_Some (ctx_pkg pkg) →
  tokenToPackage (ctx_pkg pkg) (modToPkg pkg) tok = Ok m →
  ps !! m = Some c →
  renamed c !! Title (nth 2 (Split tok ":") "") = None →
  Title (nth 2 (Split tok ":") "") ∈ names c →
  ∃ ps1, tokenToType ps pkg tok
         = Ok (qualifiedType pkg tok m (Title (nth 2 (Split tok ":") "") +:+ "Type"), ps1).
Proof.
  intros Hlen Hpkg Hm Hc Hr Hin. eexists. apply tokenToType_Ok.
  eexists m, _. split_and!; try done. by eapply renameIn_taken.
Qed.

(** C2, what the code does: in namespace [m] with the resource identifier
    [Bucket] registered, the object type of token [p:m:bucket] resolves to
    [BucketType], and the enum of token [p:m:bucket] resolved after it comes
    back as [BucketType] as well, and so does the enum of token
    [p:m:Bucket]: the rename recorded for the object type, under the key
    [Bucket], is the one the enum resolver finds.  On the namespace as it
    was before the object type was resolved, the enum resolves to
    [BucketEnum]. *)
Theorem C2_enum_after_type_is_BucketType :
  ∃ ps1 ps2 ps3 ps4,
    tokenToType {["m" := exampleNamespace ["Bucket"]]} (exampleNamespace ["Bucket"])
      "p:m:bucket" = Ok ("BucketType", ps1) ∧
    tokenToEnum ps1 (exampleNamespace ["Bucket"]) "p:m:bucket" = Ok ("BucketType", ps2) ∧
    tokenToEnum ps1 (exampleNamespace ["Bucket"]) "p:m:Bucket" = Ok ("BucketType", ps3) ∧
    tokenToEnum {["m" := exampleNamespace ["Bucket"]]} (exampleNamespace ["Bucket"])
      "p:m:bucket" = Ok ("BucketEnum", ps4).
Proof. eexists _, _, _, _. split_and!; vm_compute; reflexivity. Qed.

(** The registry only grows under the resolvers. *)
Lemma tokenToType_registry_le ps pkg tok id ps1 :
  tokenToType ps pkg tok = Ok (id, ps1) → registry_le ps ps1.
Proof.
  intros (m & name & _ & _ & _ & Hre & _)%tokenToType_Ok.
  by eapply renameIn_registry_le.
Qed.

Lemma tokenToEnum_registry_le ps pkg tok id ps1 :
  tokenToEnum ps pkg tok = Ok (id, ps1) → registry_le ps ps1.
Proof.
  intros (m & name & _ & _ & _ & Hre & _)%tokenToEnum_Ok.
  by eapply renameIn_registry_le.
Qed.

(** Resolving [FooType], then [foo] next to a resource [Foo], then [FooType]
    again: the second answer for [FooType] differs from the first, because
    the first call recorded nothing and the call in between registered the
    name [FooType]. *)
Lemma C3_not_idempotent_without_record :
  ∃ ps1 ps2 ps3,
    tokenToType {["m" := exampleNamespace ["Foo"]]} (exampleNamespace ["Foo"])
      "p:m:FooType" = Ok ("FooType", ps1) ∧
    tokenToType ps1 (exampleNamespace ["Foo"]) "p:m:foo" = Ok ("FooType", ps2) ∧
    tokenToType ps2 (exampleNamespace ["Foo"]) "p:m:FooType" = Ok ("FooTypeType", ps3) ∧
    "FooType" ≠ "FooTypeType".
Proof. eexists _, _, _. split_and!; [vm_compute; reflexivity..|done]. Qed.

(** C3, as the code has it.  For [tokenToType] and for [tokenToEnum]: a call
    repeated on the registry the first one left returns the same identifier;
    when the name of the token was taken or already renamed at the first
    call, the rename is on record afterwards; and with a rename on record,
    a call on any later registry, however much was registered in between,
    returns the same identifier.  [tokenToResource] reads neither the names
    nor the renames. *)
Theorem C3_resolution_stable_once_recorded (ps : pkgMap) (pkg : pkgContext)
    (tok id : string) (ps1 : pkgMap) :
  (tokenToType ps pkg tok = Ok (id, ps1) →
     tokenToType ps1 pkg tok = Ok (id, ps1) ∧
     (∀ m c, tokenToPackage (ctx_pkg pkg) (modToPkg pkg) tok = Ok m →
        ps !! m = Some c →
        Title (nth 2 (Split tok ":") "") ∈ names c ∨
        is_Some (renamed c !! Title (nth 2 (Split tok ":") "")) →
        renameRecorded ps1 pkg tok) ∧
     (renameRecorded ps1 pkg tok →
        ∀ ps2, registry_le ps1 ps2 → tokenToType ps2 pkg tok = Ok (id, ps2))) ∧
  (tokenToEnum ps pkg tok = Ok (id, ps1) →
     tokenToEnum ps1 pkg tok = Ok (id, ps1) ∧
     (∀ m c, tokenToPackage (ctx_pkg pkg) (modToPkg pkg) tok = Ok m →
        ps !! m = Some c →
        Title (nth 2 (Split tok ":") "") ∈ names c ∨
        is_Some (renamed c !! Title (nth 2 (Split tok ":") "")) →
        renameRecorded ps1 pkg tok) ∧
     (renameRecorded ps1 pkg tok →
        ∀ ps2, registry_le ps1 ps2 → tokenToEnum ps2 pkg tok = Ok (id, ps2))) ∧
  (∀ f g, tokenToResource (set_names f (set_renamed g pkg)) tok
          = tokenToResource pkg tok).
Proof.
  split_and!.
  - intros (m & name & Hlen & Hpkg & Hm & Hre & ->)%tokenToType_Ok. split_and!.
    + apply tokenToType_Ok. exists m, name. split_and!; try done.
      by eapply renameIn_again.
    + intros m' c Hm' Hc Hcase. assert (m' = m) as -> by congruence. exists m.
      destruct Hcase as [Hin|[nn Hnn]].
      * destruct (renamed c !! Title (nth 2 (Split tok ":") "")) as [nn|] eqn:Hr.
        -- rewrite (renameIn_recorded _ _ _ _ _ _ Hc Hr) in Hre. simplify_eq. eauto.
        -- rewrite (renameIn_taken _ _ _ _ _ Hc Hr Hin) in Hre. simplify_eq.
           eexists _, _. split_and!; [done|apply lookup_insert_eq|].
           simpl. apply lookup_insert_eq.
      * rewrite (renameIn_recorded _ _ _ _ _ _ Hc Hnn) in Hre. simplify_eq. eauto.
    + intros (m' & c1 & nn & Hm' & Hc1 & Hr1) ps2 Hle.
      assert (m' = m) as -> by congruence.
      assert (name = nn) as -> by by eapply renameIn_returns_record.
      apply tokenToType_Ok. exists m, nn. split_and!; try done.
      by eapply renameIn_stable.
  - intros (m & name & Hlen & Hpkg & Hm & Hre & ->)%tokenToEnum_Ok. split_and!.
    + apply tokenToEnum_Ok. exists m, name. split_and!; try done.
      by eapply renameIn_again.
    + intros m' c Hm' Hc Hcase. assert (m' = m) as -> by congruence. exists m.
      destruct Hcase as [Hin|[nn Hnn]].
      * destruct (renamed c !! Title (nth 2 (Split tok ":") "")) as [nn|] eqn:Hr.
        -- rewrite (renameIn_recorded _ _ _ _ _ _ Hc Hr) in Hre. simplify_eq. eauto.
        -- rewrite (renameIn_taken _ _ _ _ _ Hc Hr Hin) in Hre. simplify_eq.
           eexists _, _. split_and!; [done|apply lookup_insert_eq|].
           simpl. apply lookup_insert_eq.
      * rewrite (renameIn_recorded _ _ _ _ _ _ Hc Hnn) in Hre. simplify_eq. eauto.
    + intros (m' & c1 & nn & Hm' & Hc1 & Hr1) ps2 Hle.
      assert (m' = m) as -> by congruence.
      assert (name = nn) as -> by by eapply renameIn_returns_record.
      apply tokenToEnum_Ok. exists m, nn. split_and!; try done.
      by eapply renameIn_stable.
  - intros f g. reflexivity.
Qed.

Lemma C3_resolution_stable_witness :
  tokenToType {["m" := laterNamespace]} (exampleNamespace ["Bucket"]) "p:m:bucket"
  = Ok ("BucketType", {["m" := laterNamespace]}).
Proof.
  destruct (C3_resolution_stable_once_recorded
              {["m" := exampleNamespace ["Bucket"]]} (exampleNamespace ["Bucket"])
              "p:m:bucket" "BucketType" {["m" := recordedNamespace]})
    as [HType _].
  destruct HType as (_ & Hrecord & Hstable).
  - vm_compute. reflexivity.
  - apply Hstable.
    + apply (Hrecord "m" (exampleNamespace ["Bucket"])); [reflexivity | reflexivity |].
      left. refine (bool_decide_unpack _ _). vm_compute. exact I.
    + intros m c [<- <-]%lookup_singleton_Some.
      exists laterNamespace. split; [apply lookup_singleton_eq|].
      split; [|reflexivity]. simpl. apply union_subseteq_l.
Defined.

(** ** Type representation resolver *)

Lemma sameOutcome_refl (r : result (string * pkgMap)) :
  sameOutcome (wrapped NoWrapper "") r r.
Proof. by destruct r as [[a ps]| | |]. Qed.

Lemma sameOutcome_NoWrapper_suffix suffix r r' :
  sameOutcome (wrapped NoWrapper "") r r' → sameOutcome (wrapped NoWrapper suffix) r r'.
Proof. done. Qed.

Ltac by_schema_induction t :=
  induction t as
    [ | | | | | | | | e IH | e IH | tok p | tok r | tok | tok u IH | es IH | tok e IH ]
    using SchemaType_nested_ind.

(** The alternatives of a union: the first enum decides. *)
Ltac union_case IH :=
  let e := fresh "e" in
  let He := fresh "He" in
  let IHes := fresh "IHes" in
  induction IH as [|e ? He _ IHes]; [done|];
  destruct e; try apply IHes; apply He.

Lemma plainType_optional ps pkg t :
  sameOutcome (wrapped (plainWrapping t) "")
    (plainType ps pkg t false) (plainType ps pkg t true).
Proof.
  revert ps. by_schema_induction t; intros ps; simpl.
  1-8: done.
  - apply sameOutcome_refl.
  - apply sameOutcome_refl.
  - by destruct (resolveObjectType ps pkg tok p) as [[a ps']| | |].
  - by destruct (resolveResourceType pkg tok r).
  - by destruct (tokenToType ps pkg tok) as [[a ps']| | |].
  - apply IH.
  - union_case IH.
  - apply IH.
Qed.

(** For Input a union resolves through the element type of its first enum,
    not through the enum, so the induction carries the element type along. *)
Lemma inputType_optional_with_element pkg t :
  (∀ ps, sameOutcome (wrapped (inputWrapping t) "Input")
           (inputType ps pkg t false) (inputType ps pkg t true)) ∧
  (∀ tok e, t = EnumType tok e →
     ∀ ps, sameOutcome (wrapped (inputWrapping e) "Input")
             (inputType ps pkg e false) (inputType ps pkg e true)).
Proof.
  by_schema_induction t; (split; [intros ps; simpl | intros tok' e' Heq; try done]).
  1-4: split; [done|]; by eexists.
  1-4: done.
  - apply sameOutcome_NoWrapper_suffix, sameOutcome_refl.
  - apply sameOutcome_NoWrapper_suffix, sameOutcome_refl.
  - destruct (resolveObjectType ps pkg tok p) as [[a ps']| | |]; try done.
    split; [done|]. by exists a.
  - apply sameOutcome_NoWrapper_suffix, sameOutcome_refl.
  - destruct (tokenToType ps pkg tok) as [[a ps']| | |]; try done.
    split; [done|]. by exists a.
  - apply IH.
  - induction IH as [|e es [_ He] _ IHes]; [done|].
    destruct e; try apply IHes. by eapply He.
  - by destruct (tokenToEnum ps pkg tok) as [[a ps']| | |].
  - injection Heq as -> ->. apply IH.
Qed.

Lemma inputType_optional ps pkg t :
  sameOutcome (wrapped (inputWrapping t) "Input")
    (inputType ps pkg t false) (inputType ps pkg t true).
Proof. apply inputType_optional_with_element. Qed.

Lemma outputType_optional ps pkg t :
  sameOutcome (wrapped (outputWrapping t) "Output")
    (outputType ps pkg t false) (outputType ps pkg t true).
Proof.
  revert ps. by_schema_induction t; intros ps; simpl.
  1-4: split; [done|]; by eexists.
  1-4: done.
  - apply sameOutcome_NoWrapper_suffix, sameOutcome_refl.
  - apply sameOutcome_NoWrapper_suffix, sameOutcome_refl.
  - destruct (resolveObjectType ps pkg tok p) as [[a ps']| | |]; try done.
    split; [done|]. by exists a.
  - apply sameOutcome_NoWrapper_suffix, sameOutcome_refl.
  - destruct (tokenToType ps pkg tok) as [[a ps']| | |]; try done.
    split; [done|]. by exists a.
  - apply IH.
  - union_case IH.
  - apply IH.
Qed.

(** C8, as the code has it.  From the same namespaces, the resolutions with
    [optional = false] and [optional = true] end alike, and the identifiers
    differ by the wrapping of the type: [*] in front for Plain, [Input]
    replaced by [PtrInput] for Input and [Output] by [PtrOutput] for Output
    when the type is bool, int, number or string, an object type or a token
    type without underlying type, or resolves through one of these; the
    same string for arrays, maps, archive, asset, JSON, any and unions with
    no enum alternative; a resource reference is wrapped in Plain only; an
    enum's Input form gets [*] in front. *)
Theorem C8_optional_wraps_by_type (ps : pkgMap) (pkg : pkgContext) (t : SchemaType) :
  sameOutcome (wrapped (plainWrapping t) "")
    (plainType ps pkg t false) (plainType ps pkg t true) ∧
  sameOutcome (wrapped (inputWrapping t) "Input")
    (inputType ps pkg t false) (inputType ps pkg t true) ∧
  sameOutcome (wrapped (outputWrapping t) "Output")
    (outputType ps pkg t false) (outputType ps pkg t true).
Proof.
  split_and!;
    [apply plainType_optional | apply inputType_optional | apply outputType_optional].
Qed.

(** An array of strings resolves to the same three representations whether
    optional or not, and so do the other unwrapped types; a resource
    reference and an enum have no [Ptr]-suffixed Input form. *)
Lemma C8_array_not_wrapped :
  plainType ∅ (emptyContext examplePkg "m") (ArrayType StringType) false
  = Ok ("[]string", ∅) ∧
  plainType ∅ (emptyContext examplePkg "m") (ArrayType StringType) true
  = Ok ("[]string", ∅) ∧
  inputType ∅ (emptyContext examplePkg "m") (ArrayType StringType) false
  = Ok ("pulumi.StringArrayInput", ∅) ∧
  inputType ∅ (emptyContext examplePkg "m") (ArrayType StringType) true
  = Ok ("pulumi.StringArrayInput", ∅) ∧
  outputType ∅ (emptyContext examplePkg "m") (ArrayType StringType) false
  = Ok ("pulumi.StringArrayOutput", ∅) ∧
  outputType ∅ (emptyContext examplePkg "m") (ArrayType StringType) true
  = Ok ("pulumi.StringArrayOutput", ∅) ∧
  inputType ∅ (emptyContext examplePkg "m") (EnumType "p:m:color" StringType) false
  = Ok ("Color", ∅) ∧
  inputType ∅ (emptyContext examplePkg "m") (EnumType "p:m:color" StringType) true
  = Ok ("*Color", ∅) ∧
  inputType ∅ (emptyContext examplePkg "m") (ResourceType "p:m:bucket" None) false
  = Ok ("BucketInput", ∅) ∧
  inputType ∅ (emptyContext examplePkg "m") (ResourceType "p:m:bucket" None) true
  = Ok ("BucketInput", ∅).
Proof. split_and!; vm_compute; reflexivity. Qed.

(** ** Package partitioner: reading namespaces after each primitive step *)

Lemma bind_Ok {A B : Type} (r : result A) (k : A → result B) (b : B) :
  (r ≫= k) = Ok b ↔ ∃ a, r = Ok a ∧ k a = Ok b.
Proof.
  split.
  - destruct r as [a| | |]; try done. intros H. by exists a.
  - by intros (a & -> & H).
Qed.

Lemma getPkgFromToken_Ok pkg ps tok m ps' :
  getPkgFromToken pkg ps tok = Ok (m, ps') ↔
  namespaceOf pkg tok = Ok m ∧ ps' = getPkg pkg ps m.
Proof.
  unfold getPkgFromToken, namespaceOf. rewrite bind_Ok. split.
  - intros (m' & Hm & Heq). by simplify_eq.
  - intros [Hm ->]. by exists m.
Qed.



Lemma getPkg_is_Some pkg ps m : is_Some (getPkg pkg ps m !! m).
Proof.
  unfold getPkg. destruct (ps !! m) eqn:H; [by rewrite H|].
  rewrite lookup_insert_eq. by eexists.
Qed.

Section Reading.
Context {A : Type} (field : pkgContext → A) (zero : A).

(** A value read off the namespace [m], with [zero] for a missing one. *)
#[local] Abbreviation read ps m := (default zero (field <$> (ps : pkgMap) !! (m : string))).

Lemma read_getPkg pkg ps m m' :
  (∀ p, field (emptyContext p m) = zero) →
  read (getPkg pkg ps m) m' = read ps m'.
Proof.
  intros Hzero. unfold read, getPkg. destruct (ps !! m) eqn:Hm; [done|].
  destruct (decide (m = m')) as [<-|Hne].
  - rewrite lookup_insert_eq, Hm. simpl. apply Hzero.
  - by rewrite lookup_insert_ne.
Qed.

Lemma read_alter_frame f ps m m' :
  (∀ c, field (f c) = field c) → read (alter f m ps) m' = read ps m'.
Proof.
  intros Hf. unfold read. rewrite lookup_alter. case_decide; [|done].
  subst. destruct (ps !! m') as [c|]; simpl; [by rewrite Hf|done].
Qed.

Lemma read_alter_same f ps m c :
  ps !! m = Some c → read (alter f m ps) m = field (f c).
Proof.
  intros Hc. unfold read. rewrite lookup_alter. rewrite decide_True by done.
  by rewrite Hc.
Qed.

Lemma read_alter_ne f ps m m' :
  m ≠ m' → read (alter f m ps) m' = read ps m'.
Proof. intros Hne. unfold read. rewrite lookup_alter. by rewrite decide_False. Qed.
End Reading.

Lemma typeFlags_read ps m tok :
  typeFlags ps m tok
  = default zeroDetails
      ((fun c => default zeroDetails (ctx_typeDetails c !! tok)) <$> ps !! m).
Proof. unfold typeFlags. destruct (ps !! m) as [c|]; [|done]. simpl. done. Qed.

Lemma enumFlags_read ps m tok :
  enumFlags ps m tok
  = default zeroDetails
      ((fun c => default zeroDetails (ctx_enumDetails c !! tok)) <$> ps !! m).
Proof. unfold enumFlags. destruct (ps !! m) as [c|]; [|done]. simpl. done. Qed.

Lemma typeFlags_getPkg pkg ps m m' tok :
  typeFlags (getPkg pkg ps m) m' tok = typeFlags ps m' tok.
Proof. rewrite !typeFlags_read. by apply read_getPkg. Qed.

Lemma enumFlags_getPkg pkg ps m m' tok :
  enumFlags (getPkg pkg ps m) m' tok = enumFlags ps m' tok.
Proof. rewrite !enumFlags_read. by apply read_getPkg. Qed.

Lemma namesOf_getPkg pkg ps m m' :
  namesOf (getPkg pkg ps m) m' = namesOf ps m'.
Proof. by apply read_getPkg. Qed.

Lemma typeFlags_alter_frame f ps m m' tok :
  (∀ c, ctx_typeDetails (f c) = ctx_typeDetails c) →
  typeFlags (alter f m ps) m' tok = typeFlags ps m' tok.
Proof. intros Hf. rewrite !typeFlags_read. apply read_alter_frame. intros c. by rewrite Hf. Qed.

Lemma enumFlags_alter_frame f ps m m' tok :
  (∀ c, ctx_enumDetails (f c) = ctx_enumDetails c) →
  enumFlags (alter f m ps) m' tok = enumFlags ps m' tok.
Proof. intros Hf. rewrite !enumFlags_read. apply read_alter_frame. intros c. by rewrite Hf. Qed.

Lemma namesOf_alter_frame f ps m m' :
  (∀ c, names (f c) = names c) → namesOf (alter f m ps) m' = namesOf ps m'.
Proof. intros Hf. by apply read_alter_frame. Qed.

(** The write through [detailsForType]: the flags of [tok] in [m] are
    updated, all others are as before. *)
Lemma typeFlags_update f ps m tok m' tok' :
  is_Some (ps !! m) →
  typeFlags (alter (updateDetailsForType tok f) m ps) m' tok'
  = if decide (m = m' ∧ tok = tok') then f (typeFlags ps m tok)
    else typeFlags ps m' tok'.
Proof.
  intros [c Hc]. unfold typeFlags. rewrite lookup_alter.
  destruct (decide (m = m')) as [<-|Hne].
  - rewrite Hc. simpl. destruct (decide (tok = tok')) as [<-|Hne].
    + rewrite decide_True by done. by rewrite lookup_insert_eq.
    + rewrite decide_False by (intros [? ?]; congruence). by rewrite lookup_insert_ne.
  - by rewrite decide_False by (intros [? ?]; congruence).
Qed.

Lemma enumFlags_update f ps m tok m' tok' :
  is_Some (ps !! m) →
  enumFlags (alter (updateDetailsForEnum tok f) m ps) m' tok'
  = if decide (m = m' ∧ tok = tok') then f (enumFlags ps m tok)
    else enumFlags ps m' tok'.
Proof.
  intros [c Hc]. unfold enumFlags. rewrite lookup_alter.
  destruct (decide (m = m')) as [<-|Hne].
  - rewrite Hc. simpl. destruct (decide (tok = tok')) as [<-|Hne].
    + rewrite decide_True by done. by rewrite lookup_insert_eq.
    + rewrite decide_False by (intros [? ?]; congruence). by rewrite lookup_insert_ne.
  - by rewrite decide_False by (intros [? ?]; congruence).
Qed.

Lemma flags_le_refl d : flags_le d d.
Proof. by repeat split. Qed.

Lemma flags_le_trans d1 d2 d3 : flags_le d1 d2 → flags_le d2 d3 → flags_le d1 d3.
Proof. intros (?&?&?) (?&?&?). repeat split; auto. Qed.

Lemma details_le_refl ps : details_le ps ps.
Proof. intros m tok. split; apply flags_le_refl. Qed.

Lemma details_le_trans ps1 ps2 ps3 :
  details_le ps1 ps2 → details_le ps2 ps3 → details_le ps1 ps3.
Proof.
  intros H12 H23 m tok. destruct (H12 m tok), (H23 m tok).
  split; by eapply flags_le_trans.
Qed.

Lemma details_le_getPkg pkg ps m : details_le ps (getPkg pkg ps m).
Proof.
  intros m' tok. rewrite typeFlags_getPkg, enumFlags_getPkg.
  split; apply flags_le_refl.
Qed.

Lemma details_le_alter_frame f ps m :
  (∀ c, ctx_typeDetails (f c) = ctx_typeDetails c) →
  (∀ c, ctx_enumDetails (f c) = ctx_enumDetails c) →
  details_le ps (alter f m ps).
Proof.
  intros Ht He m' tok.
  rewrite typeFlags_alter_frame, enumFlags_alter_frame by done.
  split; apply flags_le_refl.
Qed.

Lemma details_le_update_type f ps m tok :
  is_Some (ps !! m) → (∀ d, flags_le d (f d)) →
  details_le ps (alter (updateDetailsForType tok f) m ps).
Proof.
  intros Hm Hf m' tok'. rewrite typeFlags_update by done.
  rewrite enumFlags_alter_frame by done. split; [|apply flags_le_refl].
  case_decide as Heq; [|apply flags_le_refl]. destruct Heq as [<- <-]. apply Hf.
Qed.

Lemma details_le_update_enum f ps m tok :
  is_Some (ps !! m) → (∀ d, flags_le d (f d)) →
  details_le ps (alter (updateDetailsForEnum tok f) m ps).
Proof.
  intros Hm Hf m' tok'. rewrite enumFlags_update by done.
  rewrite typeFlags_alter_frame by done. split; [apply flags_le_refl|].
  case_decide as Heq; [|apply flags_le_refl]. destruct Heq as [<- <-]. apply Hf.
Qed.

Lemma flags_le_setPtrElement d : flags_le d (setPtrElement d).
Proof. by repeat split. Qed.

Lemma flags_le_setArrayElement d : flags_le d (setArrayElement d).
Proof. by repeat split. Qed.

Lemma flags_le_setMapElement d : flags_le d (setMapElement d).
Proof. by repeat split. Qed.

(** ** Optionality propagation *)

Abbreviation mark := markOptionalPropertyTypesAsRequiringPtr.

Lemma mark_nil fuel pkg st b : mark (S fuel) pkg st [] b = Ok st.
Proof. reflexivity. Qed.

Lemma mark_cons_skip fuel pkg st p props b :
  skipped st p b →
  mark (S fuel) pkg st (p :: props) b = mark (S fuel) pkg st props b.
Proof.
  unfold skipped, objectToken, enumToken. intros H. simpl.
  destruct (prop_Type p); try done.
  - destruct H as [[? ?]|[->|(tok & [?|?] & Hin)]]; simplify_eq; [done|].
    destruct (_ || _); [|done]. by rewrite bool_decide_eq_true_2.
  - destruct H as [[? ?]|[->|(tok & [?|?] & Hin)]]; simplify_eq; [done|].
    destruct (_ || _); [|done]. by rewrite bool_decide_eq_true_2.
Qed.

Lemma mark_cons_object fuel pkg st p props b tok :
  objectToken p = Some tok → negb (prop_IsRequired p) || b = true → tok ∉ seen st →
  mark (S fuel) pkg st (p :: props) b
  = (m ← namespaceOf pkg tok;
     st ← mark fuel pkg (markObject pkg st tok m)
            (objectProperties (pkg_objects pkg) tok) true;
     mark (S fuel) pkg st props b).
Proof.
  unfold objectToken. intros Htok Hopt Hseen. simpl.
  destruct (prop_Type p); try done. simplify_eq. rewrite Hopt.
  rewrite bool_decide_eq_false_2 by done.
  unfold getPkgFromToken, namespaceOf.
  by destruct (tokenToPackage _ _ tok).
Qed.

Lemma mark_cons_enum fuel pkg st p props b tok :
  enumToken p = Some tok → negb (prop_IsRequired p) || b = true → tok ∉ seen st →
  mark (S fuel) pkg st (p :: props) b
  = (m ← namespaceOf pkg tok;
     mark (S fuel) pkg (markEnum pkg st tok m) props b).
Proof.
  unfold enumToken. intros Htok Hopt Hseen. simpl.
  destruct (prop_Type p); try done. simplify_eq. rewrite Hopt.
  rewrite bool_decide_eq_false_2 by done.
  unfold getPkgFromToken, namespaceOf.
  by destruct (tokenToPackage _ _ tok).
Qed.

(** The three ways a property is handled. *)
Lemma property_cases st p b :
  skipped st p b ∨
  (∃ tok, objectToken p = Some tok ∧ negb (prop_IsRequired p) || b = true ∧ tok ∉ seen st) ∨
  (∃ tok, enumToken p = Some tok ∧ negb (prop_IsRequired p) || b = true ∧ tok ∉ seen st).
Proof.
  unfold skipped.
  destruct (negb (prop_IsRequired p) || b) eqn:Hopt; [|by left; right; left].
  destruct (objectToken p) as [tok|] eqn:Ho.
  - destruct (decide (tok ∈ seen st)); [left; right; right; eauto|].
    right; left; eauto.
  - destruct (enumToken p) as [tok|] eqn:He; [|by left; left].
    destruct (decide (tok ∈ seen st)); [left; right; right; eauto|].
    right; right; eauto.
Qed.

Lemma objectProperties_elem_of pkg tok p :
  p ∈ objectProperties (pkg_objects pkg) tok → p ∈ schemaProperties pkg.
Proof.
  unfold objectProperties, schemaProperties. intros Hp.
  destruct (pkg_objects pkg !! tok) as [props|] eqn:Htok; simpl in Hp;
    [|by apply elem_of_nil in Hp].
  apply elem_of_app. left. apply list_elem_of_join. exists props. split; [done|].
  apply list_elem_of_fmap. exists (tok, props). split; [done|].
  by apply elem_of_map_to_list.
Qed.

Lemma resourceProperties_elem_of pkg r p :
  r ∈ pkg_Provider pkg :: pkg_Resources pkg → p ∈ resourceProperties r →
  p ∈ schemaProperties pkg.
Proof.
  intros Hr Hp. unfold schemaProperties. apply elem_of_app. right.
  apply list_elem_of_join. exists (resourceProperties r). split; [done|].
  apply list_elem_of_fmap. by exists r.
Qed.

Lemma objectToken_elem_of pkg p tok :
  p ∈ schemaProperties pkg → objectToken p = Some tok → tok ∈ objectTokens pkg.
Proof. intros Hp Htok. unfold objectTokens. apply list_elem_of_omap. eauto. Qed.

Lemma enumToken_elem_of pkg p tok :
  p ∈ schemaProperties pkg → enumToken p = Some tok → tok ∈ enumTokens pkg.
Proof. intros Hp Htok. unfold enumTokens. apply list_elem_of_omap. eauto. Qed.

(** *** An invariant of the two writes is an invariant of the propagation *)

Section PropagationRule.
Variable pkg : Package.
Variable allowed : Property → Prop.
Variable Inv : scanState → Prop.

Hypothesis allowed_nested :
  ∀ tok p, p ∈ objectProperties (pkg_objects pkg) tok → allowed p.
Hypothesis Inv_object :
  ∀ st p tok m, Inv st → allowed p → objectToken p = Some tok → tok ∉ seen st →
    namespaceOf pkg tok = Ok m → Inv (markObject pkg st tok m).
Hypothesis Inv_enum :
  ∀ st p tok m, Inv st → allowed p → enumToken p = Some tok → tok ∉ seen st →
    namespaceOf pkg tok = Ok m → Inv (markEnum pkg st tok m).

Lemma mark_rule fuel st props b st' :
  Forall allowed props → Inv st →
  mark fuel pkg st props b = Ok st' → Inv st'.
Proof.
  revert st props b st'. induction fuel as [|fuel IHfuel]; [done|].
  intros st props. revert st.
  induction props as [|p props IHprops]; intros st b st' Hall HI Hrun.
  { rewrite mark_nil in Hrun. by simplify_eq. }
  apply Forall_cons in Hall as [Hp Hall].
  destruct (property_cases st p b)
    as [Hskip|[(tok & Htok & Hopt & Hseen)|(tok & Htok & Hopt & Hseen)]].
  - rewrite mark_cons_skip in Hrun by done. eauto.
  - rewrite (mark_cons_object _ _ _ _ _ _ tok) in Hrun by done.
    apply bind_Ok in Hrun as (m & Hm & Hrun).
    apply bind_Ok in Hrun as (st1 & Hrec & Hrun).
    eapply IHprops; [done| |done].
    eapply IHfuel; [|by eapply Inv_object|done].
    apply Forall_forall. intros q Hq. by eapply allowed_nested.
  - rewrite (mark_cons_enum _ _ _ _ _ _ tok) in Hrun by done.
    apply bind_Ok in Hrun as (m & Hm & Hrun).
    eapply IHprops; [done| |done]. by eapply Inv_enum.
Qed.
End PropagationRule.

Lemma extends_refl st : extends st st.
Proof. split_and!; [done|apply details_le_refl|done]. Qed.

Lemma extends_trans st1 st2 st3 : extends st1 st2 → extends st2 st3 → extends st1 st3.
Proof.
  intros (Hs12 & Hd12 & Hn12) (Hs23 & Hd23 & Hn23). split_and!.
  - by etrans.
  - by eapply details_le_trans.
  - intros m. by rewrite Hn23.
Qed.

Lemma extends_markObject pkg st tok m : extends st (markObject pkg st tok m).
Proof.
  split_and!; simpl.
  - apply union_subseteq_l.
  - eapply details_le_trans; [apply details_le_getPkg|].
    apply details_le_update_type; [apply getPkg_is_Some|apply flags_le_setPtrElement].
  - intros m'. rewrite namesOf_alter_frame by done. apply namesOf_getPkg.
Qed.

Lemma extends_markEnum pkg st tok m : extends st (markEnum pkg st tok m).
Proof.
  split_and!; simpl.
  - apply union_subseteq_l.
  - eapply details_le_trans; [apply details_le_getPkg|].
    apply details_le_update_enum; [apply getPkg_is_Some|apply flags_le_setPtrElement].
  - intros m'. rewrite namesOf_alter_frame by done. apply namesOf_getPkg.
Qed.

Lemma mark_extends fuel pkg st props b st' :
  mark fuel pkg st props b = Ok st' → extends st st'.
Proof.
  intros Hrun.
  eapply (mark_rule pkg (fun _ => True) (extends st)); [done| | | |apply extends_refl|done].
  - intros st1 p tok m Hext _ _ _ _.
    eapply extends_trans; [done|apply extends_markObject].
  - intros st1 p tok m Hext _ _ _ _.
    eapply extends_trans; [done|apply extends_markEnum].
  - by apply Forall_forall.
Qed.

Lemma flagOf_mono_type field pkg ps ps' tok :
  (∀ d d', flags_le d d' → field d = true → field d' = true) →
  details_le ps ps' →
  flagOf typeFlags field pkg ps tok = true → flagOf typeFlags field pkg ps' tok = true.
Proof.
  unfold flagOf. intros Hfield Hle. destruct (namespaceOf pkg tok) as [m| | |]; try done.
  apply Hfield. apply Hle.
Qed.

Lemma flagOf_mono_enum field pkg ps ps' tok :
  (∀ d d', flags_le d d' → field d = true → field d' = true) →
  details_le ps ps' →
  flagOf enumFlags field pkg ps tok = true → flagOf enumFlags field pkg ps' tok = true.
Proof.
  unfold flagOf. intros Hfield Hle. destruct (namespaceOf pkg tok) as [m| | |]; try done.
  apply Hfield. apply Hle.
Qed.

Lemma needsPtrVariant_mono pkg ps ps' tok :
  details_le ps ps' →
  needsPtrVariant pkg ps tok = true → needsPtrVariant pkg ps' tok = true.
Proof. apply flagOf_mono_type. by intros d d' (? & _). Qed.


Lemma enumNeedsPtrVariant_mono pkg ps ps' tok :
  details_le ps ps' →
  enumNeedsPtrVariant pkg ps tok = true → enumNeedsPtrVariant pkg ps' tok = true.
Proof. apply flagOf_mono_enum. by intros d d' (? & _). Qed.

Lemma needsPtrVariant_markObject pkg st tok m :
  namespaceOf pkg tok = Ok m →
  needsPtrVariant pkg (packages (markObject pkg st tok m)) tok = true.
Proof.
  intros Hm. unfold needsPtrVariant, flagOf. rewrite Hm. simpl.
  rewrite typeFlags_update by apply getPkg_is_Some. by rewrite decide_True.
Qed.

Lemma enumNeedsPtrVariant_markEnum pkg st tok m :
  namespaceOf pkg tok = Ok m →
  enumNeedsPtrVariant pkg (packages (markEnum pkg st tok m)) tok = true.
Proof.
  intros Hm. unfold enumNeedsPtrVariant, flagOf. rewrite Hm. simpl.
  rewrite enumFlags_update by apply getPkg_is_Some. by rewrite decide_True.
Qed.

(** *** Seen tokens are marked *)

Lemma seenMarked_extends pkg st st' tok :
  seenMarked pkg st → extends st st' → tok ∈ seen st →
  (tok ∈ objectTokens pkg → needsPtrVariant pkg (packages st') tok = true) ∧
  (tok ∈ enumTokens pkg → enumNeedsPtrVariant pkg (packages st') tok = true).
Proof.
  intros Hmarked (_ & Hle & _) Hin. destruct (Hmarked tok Hin) as [Ho He]. split.
  - intros H. eapply needsPtrVariant_mono; eauto.
  - intros H. eapply enumNeedsPtrVariant_mono; eauto.
Qed.

Lemma mark_seenMarked fuel pkg st props b st' :
  tokensUnambiguous pkg →
  (∀ p, p ∈ props → p ∈ schemaProperties pkg) →
  seenMarked pkg st →
  mark fuel pkg st props b = Ok st' → seenMarked pkg st'.
Proof.
  intros Hunamb Hprops HI Hrun.
  eapply (mark_rule pkg (fun p => p ∈ schemaProperties pkg) (seenMarked pkg));
    [ | | |by apply Forall_forall|done|done].
  - intros tok p. apply objectProperties_elem_of.
  - intros st1 p tok m HI1 Hp Htok Hseen Hm tok' [Hin| ->%elem_of_singleton]%elem_of_union.
    + by eapply seenMarked_extends; [|apply extends_markObject|].
    + split; [intros _; by apply needsPtrVariant_markObject|].
      intros He. exfalso. eapply Hunamb; [|done]. by eapply objectToken_elem_of.
  - intros st1 p tok m HI1 Hp Htok Hseen Hm tok' [Hin| ->%elem_of_singleton]%elem_of_union.
    + by eapply seenMarked_extends; [|apply extends_markEnum|].
    + split; [|intros _; by apply enumNeedsPtrVariant_markEnum].
      intros Ho. exfalso. eapply Hunamb; [done|]. by eapply enumToken_elem_of.
Qed.

(** *** The properties of a seen object type are seen *)

Lemma token_unique p tok tok' :
  objectToken p = Some tok ∨ enumToken p = Some tok →
  objectToken p = Some tok' ∨ enumToken p = Some tok' → tok = tok'.
Proof.
  unfold objectToken, enumToken.
  destruct (prop_Type p); intros [?|?] [?|?]; congruence.
Qed.

Lemma mark_closed fuel pkg st props b st' stack :
  tokensUnambiguous pkg →
  (∀ p, p ∈ props → p ∈ schemaProperties pkg) →
  seenClosedExcept pkg stack st →
  mark fuel pkg st props b = Ok st' →
  seenClosedExcept pkg stack st' ∧
  ∀ p tok, p ∈ props → negb (prop_IsRequired p) || b = true →
    objectToken p = Some tok ∨ enumToken p = Some tok → tok ∈ seen st'.
Proof.
  intros Hunamb. revert st props b st' stack.
  induction fuel as [|fuel IHfuel]; [done|].
  intros st props. revert st.
  induction props as [|p props IHprops]; intros st b st' stack Hprops Hclosed Hrun.
  { rewrite mark_nil in Hrun. simplify_eq. split; [done|]. by intros p tok ?%elem_of_nil. }
  assert (p ∈ schemaProperties pkg) as Hp by (apply Hprops; left).
  assert (∀ q, q ∈ props → q ∈ schemaProperties pkg) as Hprops'
    by (intros q Hq; apply Hprops; by right).
  destruct (property_cases st p b)
    as [Hskip|[(tok & Htok & Hopt & Hseen)|(tok & Htok & Hopt & Hseen)]].
  - rewrite mark_cons_skip in Hrun by done.
    pose proof (mark_extends _ _ _ _ _ _ Hrun) as (Hsub & _).
    destruct (IHprops _ _ _ _ Hprops' Hclosed Hrun) as [Hclosed' Hrest].
    split; [done|]. intros q tok [->|Hq]%elem_of_cons Hopt Htok; [|eauto].
    destruct Hskip as [[Ho He]|[Hno|(tok0 & Htok0 & Hin)]].
    + destruct Htok; congruence.
    + congruence.
    + rewrite (token_unique _ _ _ Htok Htok0). by apply Hsub.
  - rewrite (mark_cons_object _ _ _ _ _ _ tok) in Hrun by done.
    apply bind_Ok in Hrun as (m & Hm & Hrun).
    apply bind_Ok in Hrun as (st1 & Hrec & Hrun).
    pose proof (mark_extends _ _ _ _ _ _ Hrec) as (Hsub1 & _).
    pose proof (mark_extends _ _ _ _ _ _ Hrun) as (Hsub2 & _).
    destruct (IHfuel (markObject pkg st tok m)
                (objectProperties (pkg_objects pkg) tok) true st1 (stack ∪ {[tok]}))
      as [Hclosed1 Hchildren]; [|  |done|].
    { intros q. apply objectProperties_elem_of. }
    { intros tok' q child [Hin| ->%elem_of_singleton]%elem_of_union Ho Hstack Hq Hchild.
      - apply elem_of_union_l. eapply Hclosed; eauto. set_solver.
      - set_solver. }
    assert (seenClosedExcept pkg stack st1) as Hclosed1'.
    { intros tok' q child Hin Ho Hstack Hq Hchild.
      destruct (decide (tok' = tok)) as [->|Hne].
      - eapply Hchildren; [done| |done]. apply orb_true_r.
      - eapply Hclosed1; eauto. set_solver. }
    destruct (IHprops _ _ _ _ Hprops' Hclosed1' Hrun) as [Hclosed' Hrest].
    split; [done|]. intros q tok' [->|Hq]%elem_of_cons Hopt' Htok'; [|eauto].
    rewrite <- (token_unique _ _ _ (or_introl Htok) Htok').
    apply Hsub2, Hsub1. simpl. set_solver.
  - rewrite (mark_cons_enum _ _ _ _ _ _ tok) in Hrun by done.
    apply bind_Ok in Hrun as (m & Hm & Hrun).
    pose proof (mark_extends _ _ _ _ _ _ Hrun) as (Hsub & _).
    destruct (IHprops (markEnum pkg st tok m) b st' stack) as [Hclosed' Hrest];
      [done| |done|].
    { intros tok' q child [Hin| ->%elem_of_singleton]%elem_of_union Ho Hstack Hq Hchild.
      - apply elem_of_union_l. eapply Hclosed; eauto.
      - exfalso. eapply Hunamb; [done|]. by eapply enumToken_elem_of. }
    split; [done|]. intros q tok' [->|Hq]%elem_of_cons Hopt' Htok'; [|eauto].
    rewrite <- (token_unique _ _ _ (or_intror Htok) Htok').
    apply Hsub. simpl. set_solver.
Qed.

(** *** The propagation returns

    Each recursive call follows the addition of a new token to [seen]; the
    object types not yet seen bound the depth. *)





(** ** Loops *)

Section ForEach.
Context {A S : Type} (body : S → A → result S).

Lemma forEach_rel (R : S → S → Prop) `{!Reflexive R, !Transitive R} l st st' :
  (∀ s a s', a ∈ l → body s a = Ok s' → R s s') →
  forEach body l st = Ok st' → R st st'.
Proof.
  revert st. induction l as [|a l IH]; intros st Hbody Hrun; simpl in Hrun.
  { by simplify_eq. }
  apply bind_Ok in Hrun as (s1 & Ha & Hrun).
  etrans; [eapply Hbody; [left|done]|].
  apply IH; [|done]. intros s a' s' Ha'. apply Hbody. by right.
Qed.


End ForEach.

(** ** The rounds of the partitioner *)

#[local] Instance grows_refl : Reflexive grows.
Proof. intros st. split; [done|apply details_le_refl]. Qed.

#[local] Instance grows_trans : Transitive grows.
Proof.
  intros st1 st2 st3 [Hs12 Hd12] [Hs23 Hd23]. split; [by etrans|].
  by eapply details_le_trans.
Qed.

#[local] Instance details_le_reflexive : Reflexive details_le.
Proof. intros ps. apply details_le_refl. Qed.

#[local] Instance details_le_transitive : Transitive details_le.
Proof. intros ps1 ps2 ps3. apply details_le_trans. Qed.

Lemma extends_grows st st' : extends st st' → grows st st'.
Proof. by intros (? & ? & _). Qed.


Lemma scanType_extends fuel pkg st t st' :
  scanType fuel pkg st t = Ok st' → extends st st'.
Proof.
  unfold scanType. intros Hrun.
  assert (∀ tok f, (∀ d, flags_le d (f d)) → ∀ m,
    extends st {| packages := alter (updateDetailsForType tok f) m
                                  (getPkg pkg (packages st) m);
                  seen := seen st |}) as Hflag.
  { intros tok f Hf m. split_and!; simpl; [done| |].
    - eapply details_le_trans; [apply details_le_getPkg|].
      apply details_le_update_type; [apply getPkg_is_Some|done].
    - intros m'. rewrite namesOf_alter_frame by done. apply namesOf_getPkg. }
  assert (∀ f m,
    (∀ c, names (f c) = names c) →
    (∀ c, ctx_typeDetails (f c) = ctx_typeDetails c) →
    (∀ c, ctx_enumDetails (f c) = ctx_enumDetails c) →
    extends st {| packages := alter f m (getPkg pkg (packages st) m);
                  seen := seen st |}) as Hframe.
  { intros f m Hnames Ht He. split_and!; simpl; [done| |].
    - eapply details_le_trans; [apply details_le_getPkg|].
      by apply details_le_alter_frame.
    - intros m'. rewrite namesOf_alter_frame by done. apply namesOf_getPkg. }
  destruct t as [ | | | | | | | |e|e|tok pk| | | |tok e]; simplify_eq;
    try apply extends_refl.
  - destruct e; simplify_eq; try apply extends_refl.
    apply bind_Ok in Hrun as ([m ps] & [Hm ->]%getPkgFromToken_Ok & Hrun).
    simplify_eq. apply Hflag, flags_le_setArrayElement.
  - destruct e; simplify_eq; try apply extends_refl.
    apply bind_Ok in Hrun as ([m ps] & [Hm ->]%getPkgFromToken_Ok & Hrun).
    simplify_eq. apply Hflag, flags_le_setMapElement.
  - apply bind_Ok in Hrun as ([m ps] & [Hm ->]%getPkgFromToken_Ok & Hrun).
    apply mark_extends in Hrun.
    eapply extends_trans; [|done]. by apply Hframe.
  - apply bind_Ok in Hrun as ([m ps] & [Hm ->]%getPkgFromToken_Ok & Hrun).
    simplify_eq. by apply Hframe.
Qed.



Lemma scanResource_Ok fuel pkg st r st' :
  scanResource fuel pkg st r = Ok st' ↔
  ∃ m name st1,
    namespaceOf pkg (res_Token r) = Ok m ∧ resourceName r = Ok name ∧
    mark fuel pkg (registered pkg st r m name) (res_InputProperties r)
      (negb (res_IsProvider r)) = Ok st1 ∧
    mark fuel pkg st1 (res_Properties r) (negb (res_IsProvider r)) = Ok st'.
Proof.
  unfold scanResource. split.
  - intros Hrun.
    apply bind_Ok in Hrun as ([m ps] & [Hm ->]%getPkgFromToken_Ok & Hrun).
    apply bind_Ok in Hrun as (name & Hname & Hrun).
    apply bind_Ok in Hrun as (st1 & Hin & Hout).
    by exists m, name, st1.
  - intros (m & name & st1 & Hm & Hname & Hin & Hout).
    apply bind_Ok. exists (m, getPkg pkg (packages st) m).
    split; [by apply getPkgFromToken_Ok|].
    apply bind_Ok. exists name. split; [done|].
    apply bind_Ok. by exists st1.
Qed.

Lemma foldl_add_names_lookup (ps : pkgMap) m ids :
  is_Some (ps !! m) →
  is_Some (foldl (fun ps id => alter (set_names (fun ns => ns ∪ {[id]})) m ps) ps ids !! m).
Proof.
  revert ps. induction ids as [|id ids IH]; intros ps Hm; simpl; [done|].
  apply IH. rewrite lookup_alter, decide_True by done. by apply fmap_is_Some.
Qed.

Lemma namesOf_add (ps : pkgMap) m id m' :
  is_Some (ps !! m) →
  namesOf (alter (set_names (fun ns => ns ∪ {[id]})) m ps) m'
  = if decide (m = m') then namesOf ps m ∪ {[id]} else namesOf ps m'.
Proof.
  intros [c Hc]. unfold namesOf. rewrite lookup_alter.
  case_decide; [|done]. subst. by rewrite Hc.
Qed.

Lemma namesOf_foldl_add (ps : pkgMap) m ids m' :
  is_Some (ps !! m) →
  namesOf (foldl (fun ps id => alter (set_names (fun ns => ns ∪ {[id]})) m ps) ps ids) m'
  = if decide (m = m') then namesOf ps m ∪ list_to_set ids else namesOf ps m'.
Proof.
  revert ps. induction ids as [|id ids IH]; intros ps Hm; simpl.
  { case_decide; [|done]. subst. by rewrite (right_id_L ∅ (∪)). }
  rewrite IH by (rewrite lookup_alter, decide_True by done; by apply fmap_is_Some).
  rewrite !namesOf_add by done. case_decide; [|done].
  rewrite decide_True by done. set_solver.
Qed.

Lemma details_le_foldl_add (ps : pkgMap) m ids :
  details_le ps (foldl (fun ps id => alter (set_names (fun ns => ns ∪ {[id]})) m ps) ps ids).
Proof.
  revert ps. induction ids as [|id ids IH]; intros ps; simpl; [apply details_le_refl|].
  eapply details_le_trans; [|apply IH]. by apply details_le_alter_frame.
Qed.

Lemma registered_grows pkg st r m name : grows st (registered pkg st r m name).
Proof.
  split; [done|]. unfold registered. cbn [packages].
  eapply details_le_trans; [apply details_le_getPkg|].
  eapply details_le_trans; [|apply details_le_foldl_add].
  by apply details_le_alter_frame.
Qed.

(** The names of the resource's namespace gain the identifiers, and the
    names of the other namespaces stay. *)
Lemma registered_names pkg st r m name m' :
  namesOf (packages (registered pkg st r m name)) m'
  = if decide (m = m')
    then namesOf (packages st) m ∪
         list_to_set (resourceIdentifiers name (res_IsProvider r) (res_IsComponent r))
    else namesOf (packages st) m'.
Proof.
  unfold registered. cbn [packages]. rewrite namesOf_foldl_add.
  - rewrite !namesOf_alter_frame by done. by rewrite !namesOf_getPkg.
  - rewrite lookup_alter, decide_True by done. apply fmap_is_Some, getPkg_is_Some.
Qed.

Lemma scanResource_grows fuel pkg st r st' :
  scanResource fuel pkg st r = Ok st' → grows st st'.
Proof.
  intros (m & name & st1 & Hm & Hname & Hin & Hout)%scanResource_Ok.
  etrans; [apply registered_grows|].
  etrans; apply extends_grows; by eapply mark_extends.
Qed.

Lemma scanResource_names fuel pkg st r st' m name :
  scanResource fuel pkg st r = Ok st' →
  namespaceOf pkg (res_Token r) = Ok m → resourceName r = Ok name →
  ∀ m', namesOf (packages st') m'
        = if decide (m = m')
          then namesOf (packages st) m ∪
               list_to_set (resourceIdentifiers name (res_IsProvider r) (res_IsComponent r))
          else namesOf (packages st) m'.
Proof.
  intros (m0 & name0 & st1 & Hm0 & Hname0 & Hin & Hout)%scanResource_Ok Hm Hname m'.
  simplify_eq.
  apply mark_extends in Hin as (_ & _ & Hin).
  apply mark_extends in Hout as (_ & _ & Hout).
  rewrite Hout, Hin. assert (m0 = m) as -> by congruence.
  assert (name0 = name) as -> by congruence. apply registered_names.
Qed.


Lemma scanFunction_details_le pkg ps f ps' :
  scanFunction pkg ps f = Ok ps' → details_le ps ps'.
Proof.
  unfold scanFunction. intros Hrun.
  apply bind_Ok in Hrun as ([m ps1] & [Hm ->]%getPkgFromToken_Ok & Hrun).
  apply bind_Ok in Hrun as (name & Hname & Hrun). simplify_eq.
  repeat match goal with
         | |- details_le _ (match ?x with Some _ => _ | None => _ end) => destruct x
         | |- details_le _ (alter _ _ _) =>
             etrans; [|by apply details_le_alter_frame]
         end; apply details_le_getPkg.
Qed.


(** ** The partitioner as a whole *)

Lemma generatePackageContextMap_Ok fuel pkg ps :
  generatePackageContextMap fuel pkg = Ok ps ↔
  ∃ st1 st2 st3,
    forEach (scanType fuel pkg) (pkg_Types pkg) (initialState pkg) = Ok st1 ∧
    scanResource fuel pkg st1 (pkg_Provider pkg) = Ok st2 ∧
    forEach (scanResource fuel pkg) (pkg_Resources pkg) st2 = Ok st3 ∧
    forEach (scanFunction pkg) (pkg_Functions pkg) (packages st3) = Ok ps.
Proof.
  unfold generatePackageContextMap. fold (initialState pkg). split.
  - intros Hrun.
    apply bind_Ok in Hrun as (st1 & H1 & Hrun).
    apply bind_Ok in Hrun as (st2 & H2 & Hrun).
    apply bind_Ok in Hrun as (st3 & H3 & Hrun).
    by exists st1, st2, st3.
  - intros (st1 & st2 & st3 & H1 & H2 & H3 & H4).
    apply bind_Ok. exists st1. split; [done|].
    apply bind_Ok. exists st2. split; [done|].
    apply bind_Ok. by exists st3.
Qed.


(** C7: scanning a resource whose name is [Widget], neither provider nor
    component, adds to the names of its namespace exactly the nine
    identifiers, which are pairwise distinct; scanning a provider or a
    component resource adds the six identifiers without the [State] pair
    and the [Get] one; the names of the other namespaces are as before; and
    in the partition of the package with the one resource [p:m:Widget] the
    names of namespace [m] are exactly the nine. *)
Theorem C7_scanResource_registers_identifiers (fuel : nat) (pkg : Package)
    (st st' : scanState) (r : Resource) (m : string) :
  scanResource fuel pkg st r = Ok st' →
  namespaceOf pkg (res_Token r) = Ok m →
  (res_IsProvider r = false → res_IsComponent r = false →
   tokenToName (res_Token r) = Ok "Widget" →
   namesOf (packages st') m = namesOf (packages st) m ∪ list_to_set widgetIdentifiers) ∧
  NoDup widgetIdentifiers ∧
  (res_IsProvider r = true ∨ res_IsComponent r = true →
   ∀ name, resourceName r = Ok name →
     namesOf (packages st') m
     = namesOf (packages st) m ∪
       {[name; name +:+ "Input"; name +:+ "Output"; name +:+ "Args";
         camel name +:+ "Args"; "New" +:+ name]}) ∧
  (∀ m', m' ≠ m → namesOf (packages st') m' = namesOf (packages st) m') ∧
  (∀ fuel', 1 ≤ fuel' →
     ∃ ps, generatePackageContextMap fuel' widgetPackage = Ok ps ∧
           namesOf ps "m" = list_to_set widgetIdentifiers).
Proof.
  intros Hrun Hm. split_and!.
  - intros Hprov Hcomp Hname.
    rewrite (scanResource_names _ _ _ _ _ m "Widget" Hrun Hm).
    + rewrite decide_True by done. by rewrite Hprov, Hcomp.
    + unfold resourceName. by rewrite Hprov.
  - refine (bool_decide_unpack _ _). vm_compute. exact I.
  - intros Hcase name Hname.
    rewrite (scanResource_names _ _ _ _ _ m name Hrun Hm Hname).
    rewrite decide_True by done. f_equal. unfold resourceIdentifiers.
    assert (negb (res_IsProvider r) && negb (res_IsComponent r) = false) as ->.
    { destruct Hcase as [-> | ->]; [done|]. apply andb_false_r. }
    simpl. set_solver.
  - intros m' Hne.
    assert (∃ name, resourceName r = Ok name) as [name Hname].
    { apply scanResource_Ok in Hrun as (? & name & ? & _ & Hname & _). eauto. }
    rewrite (scanResource_names _ _ _ _ _ m name Hrun Hm Hname).
    by rewrite decide_False.
  - intros fuel' Hfuel. destruct fuel' as [|fuel']; [lia|].
    eexists. split; [vm_compute; reflexivity|]. vm_compute. reflexivity.
Qed.

Lemma C7_widget_witness :
  ∃ st', scanResource 1 widgetPackage {| packages := ∅; seen := ∅ |} widget = Ok st' ∧
         namesOf (packages st') "m" = list_to_set widgetIdentifiers ∧
         NoDup widgetIdentifiers.
Proof.
  destruct (scanResource 1 widgetPackage {| packages := ∅; seen := ∅ |} widget)
    as [st'| | |] eqn:Hrun; try (vm_compute in Hrun; discriminate).
  exists st'.
  destruct (C7_scanResource_registers_identifiers
              1 widgetPackage {| packages := ∅; seen := ∅ |} st' widget "m" Hrun eq_refl)
    as (Hnames & Hnodup & _).
  split; [reflexivity|]. split; [|exact Hnodup].
  rewrite Hnames by reflexivity. apply (left_id_L ∅ (∪)).
Defined.

(** ** Propagation from a resource *)

Lemma seenMarked_grows pkg st st' :
  seenMarked pkg st → seen st' = seen st →
  details_le (packages st) (packages st') → seenMarked pkg st'.
Proof.
  intros Hmarked Hseen Hle tok Hin. rewrite Hseen in Hin.
  destruct (Hmarked tok Hin) as [Ho He]. split.
  - intros H. eapply needsPtrVariant_mono; eauto.
  - intros H. eapply enumNeedsPtrVariant_mono; eauto.
Qed.

Lemma typeFlags_foldl_add (ps : pkgMap) m ids m' tok :
  typeFlags (foldl (fun ps id => alter (set_names (fun ns => ns ∪ {[id]})) m ps) ps ids)
    m' tok = typeFlags ps m' tok.
Proof.
  revert ps. induction ids as [|id ids IH]; intros ps; simpl; [done|].
  rewrite IH. by apply typeFlags_alter_frame.
Qed.

Lemma enumFlags_foldl_add (ps : pkgMap) m ids m' tok :
  enumFlags (foldl (fun ps id => alter (set_names (fun ns => ns ∪ {[id]})) m ps) ps ids)
    m' tok = enumFlags ps m' tok.
Proof.
  revert ps. induction ids as [|id ids IH]; intros ps; simpl; [done|].
  rewrite IH. by apply enumFlags_alter_frame.
Qed.

(** Registering the identifiers leaves every flag as it was. *)
Lemma registered_flags pkg st r m name tok :
  needsPtrVariant pkg (packages (registered pkg st r m name)) tok
  = needsPtrVariant pkg (packages st) tok ∧
  enumNeedsPtrVariant pkg (packages (registered pkg st r m name)) tok
  = enumNeedsPtrVariant pkg (packages st) tok.
Proof.
  unfold needsPtrVariant, enumNeedsPtrVariant, flagOf, registered. cbn [packages].
  destruct (namespaceOf pkg tok) as [m'| | |]; try done.
  rewrite typeFlags_foldl_add, enumFlags_foldl_add.
  rewrite typeFlags_alter_frame, enumFlags_alter_frame by done.
  by rewrite typeFlags_getPkg, enumFlags_getPkg.
Qed.

(** Under a required parent, required properties are passed over. *)
Lemma mark_all_required fuel pkg st props st' :
  (∀ p, p ∈ props → prop_IsRequired p = true) →
  mark fuel pkg st props false = Ok st' → st' = st.
Proof.
  destruct fuel as [|fuel]; [done|].
  induction props as [|p props IH]; intros Hreq Hrun.
  { rewrite mark_nil in Hrun. by simplify_eq. }
  rewrite mark_cons_skip in Hrun.
  - apply IH; [|done]. intros q Hq. apply Hreq. by right.
  - right. left. rewrite (Hreq p) by left. done.
Qed.

(** Once the direct properties are seen, the nested ones are. *)
Lemma nested_seen pkg st props p tok :
  seenClosedExcept pkg ∅ st →
  (∀ q, q ∈ props → q ∈ schemaProperties pkg) →
  (∀ q child, q ∈ props →
     objectToken q = Some child ∨ enumToken q = Some child → child ∈ seen st) →
  nestedProperty pkg props p →
  objectToken p = Some tok ∨ enumToken p = Some tok →
  p ∈ schemaProperties pkg ∧ tok ∈ seen st.
Proof.
  intros Hclosed Hschema Hdirect Hnested. revert Hschema Hdirect.
  induction Hnested as [props p Hp|props q parent p Hq Hparent Hnested IH];
    intros Hschema Hdirect Htok.
  - split; [by apply Hschema|]. by eapply Hdirect.
  - apply IH; [intros q'; apply objectProperties_elem_of| |done].
    intros q' child Hq' Hchild.
    eapply (Hclosed parent q' child); [|by eapply objectToken_elem_of; eauto| |done|done].
    + eapply Hdirect; [done|by left].
    + set_solver.
Qed.

(** The invariant holds where the partitioner starts and after every round
    over a type. *)
Lemma initialState_propagated pkg : propagated pkg (initialState pkg).
Proof.
  split.
  - intros tok Hin. simpl in Hin. by apply not_elem_of_empty in Hin.
  - intros tok p child Hin. simpl in Hin. by apply not_elem_of_empty in Hin.
Qed.

Lemma scanType_propagated fuel pkg st t st' :
  tokensUnambiguous pkg → propagated pkg st →
  scanType fuel pkg st t = Ok st' → propagated pkg st'.
Proof.
  intros Hunamb [Hmarked Hclosed] Hrun.
  assert (∀ ps tok b,
    details_le (packages st) ps →
    mark fuel pkg {| packages := ps; seen := seen st |}
      (objectProperties (pkg_objects pkg) tok) b = Ok st' →
    propagated pkg st') as Hmark.
  { intros ps tok b Hle Hmark. split.
    - eapply mark_seenMarked; [done|intros q; apply objectProperties_elem_of| |done].
      by eapply seenMarked_grows.
    - eapply (mark_closed _ _ _ _ _ _ ∅); [done| | |done].
      + intros q. apply objectProperties_elem_of.
      + exact Hclosed. }
  assert (∀ ps, details_le (packages st) ps →
                propagated pkg {| packages := ps; seen := seen st |}) as Hsame.
  { intros ps Hle. split; [by eapply seenMarked_grows|exact Hclosed]. }
  assert (∀ m, details_le (packages st) (getPkg pkg (packages st) m)) as Hget
    by (intros m; apply details_le_getPkg).
  unfold scanType in Hrun.
  destruct t as [ | | | | | | | |e|e|tok pk| | | |tok e]; simplify_eq; try done.
  - destruct e; simplify_eq; try done.
    apply bind_Ok in Hrun as ([m ps] & [Hm ->]%getPkgFromToken_Ok & Hrun).
    simplify_eq. apply Hsame. etrans; [apply Hget|].
    apply details_le_update_type; [apply getPkg_is_Some|apply flags_le_setArrayElement].
  - destruct e; simplify_eq; try done.
    apply bind_Ok in Hrun as ([m ps] & [Hm ->]%getPkgFromToken_Ok & Hrun).
    simplify_eq. apply Hsame. etrans; [apply Hget|].
    apply details_le_update_type; [apply getPkg_is_Some|apply flags_le_setMapElement].
  - apply bind_Ok in Hrun as ([m ps] & [Hm ->]%getPkgFromToken_Ok & Hrun).
    eapply Hmark; [|done]. etrans; [apply Hget|]. by apply details_le_alter_frame.
  - apply bind_Ok in Hrun as ([m ps] & [Hm ->]%getPkgFromToken_Ok & Hrun).
    simplify_eq. apply Hsame. etrans; [apply Hget|]. by apply details_le_alter_frame.
Qed.

(** Scanning a resource of the package keeps the invariant, and the
    properties the propagation does not pass over are seen afterwards. *)
Lemma scanResource_propagated fuel pkg st r st' :
  tokensUnambiguous pkg → r ∈ pkg_Provider pkg :: pkg_Resources pkg →
  propagated pkg st → scanResource fuel pkg st r = Ok st' →
  propagated pkg st' ∧
  ∀ p tok, p ∈ resourceProperties r →
    negb (prop_IsRequired p) || negb (res_IsProvider r) = true →
    objectToken p = Some tok ∨ enumToken p = Some tok → tok ∈ seen st'.
Proof.
  intros Hunamb Hr [Hmarked Hclosed] Hrun.
  pose proof Hrun as (m & name & st1 & Hm & Hname & Hin & Hout)%scanResource_Ok.
  assert (∀ p, p ∈ res_InputProperties r → p ∈ schemaProperties pkg) as Hin_schema.
  { intros p Hp. eapply resourceProperties_elem_of; [done|].
    apply elem_of_app. by left. }
  assert (∀ p, p ∈ res_Properties r → p ∈ schemaProperties pkg) as Hout_schema.
  { intros p Hp. eapply resourceProperties_elem_of; [done|].
    apply elem_of_app. by right. }
  assert (seenMarked pkg (registered pkg st r m name)) as Hmarked0.
  { eapply seenMarked_grows; [done|done|apply registered_grows]. }
  assert (seenMarked pkg st') as Hmarked'.
  { eapply (mark_seenMarked _ _ st1 _ _ _ Hunamb Hout_schema); [|exact Hout].
    exact (mark_seenMarked _ _ _ _ _ _ Hunamb Hin_schema Hmarked0 Hin). }
  assert (seenClosedExcept pkg ∅ (registered pkg st r m name)) as Hclosed0
    by exact Hclosed.
  destruct (mark_closed _ _ _ _ _ _ ∅ Hunamb Hin_schema Hclosed0 Hin)
    as [Hclosed1 Hseen_in].
  destruct (mark_closed _ _ _ _ _ _ ∅ Hunamb Hout_schema Hclosed1 Hout)
    as [Hclosed' Hseen_out].
  pose proof (mark_extends _ _ _ _ _ _ Hout) as (Hsub & _).
  split; [done|].
  intros p tok [Hp|Hp]%elem_of_app Hopt Htok.
  - apply Hsub. by eapply Hseen_in.
  - by eapply Hseen_out.
Qed.

(** In a state that satisfies the invariant, the properties nested under
    seen ones have their flags set. *)
Lemma propagated_nested_marked pkg st props p tok :
  propagated pkg st →
  (∀ q, q ∈ props → q ∈ schemaProperties pkg) →
  (∀ q child, q ∈ props →
     objectToken q = Some child ∨ enumToken q = Some child → child ∈ seen st) →
  nestedProperty pkg props p →
  (objectToken p = Some tok → needsPtrVariant pkg (packages st) tok = true) ∧
  (enumToken p = Some tok → enumNeedsPtrVariant pkg (packages st) tok = true).
Proof.
  intros [Hmarked Hclosed] Hschema Hdirect Hnested.
  assert (objectToken p = Some tok ∨ enumToken p = Some tok →
          p ∈ schemaProperties pkg ∧ tok ∈ seen st) as Hseen
    by by eapply nested_seen.
  split; intros Htok.
  - destruct Hseen as [Hp Hs]; [by left|].
    apply (Hmarked tok Hs). by eapply objectToken_elem_of.
  - destruct Hseen as [Hp Hs]; [by right|].
    apply (Hmarked tok Hs). by eapply enumToken_elem_of.
Qed.

Lemma forEach_invariant {A S : Type} (body : S → A → result S) (Inv : S → Prop)
    (R : S → S → Prop) `{!Reflexive R, !Transitive R} l st st' :
  (∀ s a s', a ∈ l → Inv s → body s a = Ok s' → Inv s' ∧ R s s') →
  Inv st → forEach body l st = Ok st' → Inv st' ∧ R st st'.
Proof.
  revert st. induction l as [|a l IH]; intros st Hbody HI Hrun; simpl in Hrun.
  { by simplify_eq. }
  apply bind_Ok in Hrun as (s1 & Ha & Hrun).
  destruct (Hbody st a s1) as [HI1 HR1]; [left|done|done|].
  destruct (IH s1) as [HI' HR']; [|done|done|].
  { intros s a' s' Ha'. apply Hbody. by right. }
  split; [done|by etrans].
Qed.

(** The round of an element, with the invariant it starts from. *)
Lemma forEach_round_invariant {A S : Type} (body : S → A → result S) (Inv : S → Prop)
    (R : S → S → Prop) `{!Reflexive R, !Transitive R} l st st' a :
  (∀ s a s', a ∈ l → Inv s → body s a = Ok s' → Inv s' ∧ R s s') →
  Inv st → forEach body l st = Ok st' → a ∈ l →
  ∃ s1 s2, Inv s1 ∧ body s1 a = Ok s2 ∧ R s2 st'.
Proof.
  revert st. induction l as [|a0 l IH]; intros st Hbody HI Hrun Hin.
  { by apply elem_of_nil in Hin. }
  simpl in Hrun. apply bind_Ok in Hrun as (s1 & Ha & Hrun).
  assert (∀ s a s', a ∈ l → Inv s → body s a = Ok s' → Inv s' ∧ R s s') as Hbody'
    by (intros s a' s' Ha'; apply Hbody; by right).
  destruct (Hbody st a0 s1) as [HI1 _]; [left|done|done|].
  apply elem_of_cons in Hin as [->|Hin].
  - exists st, s1. split_and!; [done|done|].
    by destruct (forEach_invariant body Inv R l s1 st' Hbody' HI1 Hrun).
  - by apply (IH s1).
Qed.

(** C9: [scanResource] runs the propagation over the input properties and
    then over the output properties, both times with the parent-optional
    flag set to the negation of [IsProvider], and scanning a resource of the
    package keeps the propagation's invariant.  For a resource that is not
    the provider, every property of its input and output lists whose type
    is an object type or an enum, required or not, ends with its pointer
    flag set, and so does every such property nested under them through
    object types; the flags are still set in what the partitioner returns.
    For the provider the flag follows the property: an optional one is
    marked, and when every property is required nothing is seen or marked
    by the scan. *)
Theorem C9_scanResource_parent_optional (fuel : nat) (pkg : Package)
    (st st' : scanState) (r : Resource) :
  tokensUnambiguous pkg →
  r ∈ pkg_Provider pkg :: pkg_Resources pkg →
  propagated pkg st →
  scanResource fuel pkg st r = Ok st' →
  (∃ m name st1,
     namespaceOf pkg (res_Token r) = Ok m ∧ resourceName r = Ok name ∧
     mark fuel pkg (registered pkg st r m name) (res_InputProperties r)
       (negb (res_IsProvider r)) = Ok st1 ∧
     mark fuel pkg st1 (res_Properties r) (negb (res_IsProvider r)) = Ok st') ∧
  propagated pkg st' ∧
  (res_IsProvider r = false →
   ∀ p tok, nestedProperty pkg (resourceProperties r) p →
     (objectToken p = Some tok → needsPtrVariant pkg (packages st') tok = true) ∧
     (enumToken p = Some tok → enumNeedsPtrVariant pkg (packages st') tok = true)) ∧
  (res_IsProvider r = false → r ∈ pkg_Resources pkg →
   ∀ ps, generatePackageContextMap fuel pkg = Ok ps →
   ∀ p tok, nestedProperty pkg (resourceProperties r) p →
     (objectToken p = Some tok → needsPtrVariant pkg ps tok = true) ∧
     (enumToken p = Some tok → enumNeedsPtrVariant pkg ps tok = true)) ∧
  (res_IsProvider r = true →
   (∀ p tok, p ∈ resourceProperties r → prop_IsRequired p = false →
      (objectToken p = Some tok → needsPtrVariant pkg (packages st') tok = true) ∧
      (enumToken p = Some tok → enumNeedsPtrVariant pkg (packages st') tok = true)) ∧
   ((∀ p, p ∈ resourceProperties r → prop_IsRequired p = true) →
      seen st' = seen st ∧
      ∀ tok, needsPtrVariant pkg (packages st') tok
             = needsPtrVariant pkg (packages st) tok ∧
             enumNeedsPtrVariant pkg (packages st') tok
             = enumNeedsPtrVariant pkg (packages st) tok)).
Proof.
  intros Hunamb Hr Hprop Hrun.
  pose proof Hrun as (m & name & st1 & Hm & Hname & Hin & Hout)%scanResource_Ok.
  assert (∀ q, q ∈ resourceProperties r → q ∈ schemaProperties pkg) as Hschema
    by (intros q; by apply resourceProperties_elem_of).
  (* What one scan of [r] gives, from any state with the invariant. *)
  assert (∀ s s', propagated pkg s → scanResource fuel pkg s r = Ok s' →
            res_IsProvider r = false →
            ∀ p tok, nestedProperty pkg (resourceProperties r) p →
              (objectToken p = Some tok → needsPtrVariant pkg (packages s') tok = true) ∧
              (enumToken p = Some tok → enumNeedsPtrVariant pkg (packages s') tok = true))
    as Hscan.
  { intros s s' Hs Hruns Hprov p tok Hnested.
    destruct (scanResource_propagated fuel pkg s r s') as [Hs' Hdirect]; [done..|].
    apply (propagated_nested_marked pkg s' (resourceProperties r) p tok Hs' Hschema);
      [|done].
    intros q child Hq Hchild. eapply Hdirect; [done| |done].
    rewrite Hprov. apply orb_true_r. }
  destruct (scanResource_propagated fuel pkg st r st') as [Hprop' Hdirect]; [done..|].
  split; [by exists m, name, st1|].
  split; [done|]. split; [exact (Hscan st st' Hprop Hrun)|]. split.
  - intros Hprov Hres ps Hgen p tok Hnested.
    apply generatePackageContextMap_Ok in Hgen as (s1 & s2 & s3 & H1 & H2 & H3 & H4).
    assert (propagated pkg s1) as Hs1.
    { eapply (forEach_invariant (scanType fuel pkg) (propagated pkg) grows);
        [|apply initialState_propagated|done].
      intros s t s' _ Hs Ht. split; [by eapply scanType_propagated|].
      by eapply extends_grows, scanType_extends. }
    assert (propagated pkg s2) as Hs2.
    { eapply scanResource_propagated; [done|left|done|done]. }
    destruct (forEach_round_invariant (scanResource fuel pkg) (propagated pkg) grows
                (pkg_Resources pkg) s2 s3 r) as (sa & sb & Hsa & Hround & [_ Hle]);
      [|done|done|done|].
    { intros s r' s' Hr' Hs Hruns. split; [|by eapply scanResource_grows].
      eapply scanResource_propagated; [done|by right|done|done]. }
    assert (details_le (packages sb) ps) as Hfinal.
    { etrans; [done|].
      eapply (forEach_rel (scanFunction pkg) details_le); [|done].
      intros s f s' _. apply scanFunction_details_le. }
    destruct (Hscan sa sb Hsa Hround Hprov p tok Hnested) as [Ho He]. split.
    + intros Htok. eapply needsPtrVariant_mono; eauto.
    + intros Htok. eapply enumNeedsPtrVariant_mono; eauto.
  - intros Hprov. split.
    + intros p tok Hp Hopt. destruct Hprop' as [Hmarked' _].
      assert (objectToken p = Some tok ∨ enumToken p = Some tok → tok ∈ seen st')
        as Hseen.
      { intros Htok. eapply Hdirect; [done| |done]. by rewrite Hopt. }
      split; intros Htok.
      * apply (Hmarked' tok); [apply Hseen; by left|].
        eapply objectToken_elem_of; [by apply Hschema|done].
      * apply (Hmarked' tok); [apply Hseen; by right|].
        eapply enumToken_elem_of; [by apply Hschema|done].
    + intros Hreq. rewrite Hprov in Hin, Hout. simpl in Hin, Hout.
      apply mark_all_required in Hin;
        [|intros p Hp; apply Hreq, elem_of_app; by left].
      apply mark_all_required in Hout;
        [|intros p Hp; apply Hreq, elem_of_app; by right].
      subst st1 st'. split; [done|]. intros tok. apply registered_flags.
Qed.

Lemma C9_bucket_witness :
  ∃ st', scanResource 3 bucketPackage {| packages := ∅; seen := ∅ |} bucket = Ok st' ∧
         needsPtrVariant bucketPackage (packages st') "p:m:Versioning" = true ∧
         enumNeedsPtrVariant bucketPackage (packages st') "p:m:Mode" = true.
Proof.
  destruct (scanResource 3 bucketPackage {| packages := ∅; seen := ∅ |} bucket)
    as [st'| | |] eqn:Hrun; try (vm_compute in Hrun; discriminate).
  exists st'.
  destruct (C9_scanResource_parent_optional
              3 bucketPackage {| packages := ∅; seen := ∅ |} st' bucket)
    as (_ & _ & Hmarks & _).
  - intros tok Ho%list_elem_of_In He%list_elem_of_In.
    vm_compute in Ho, He. destruct Ho as [<-|[]]. destruct He as [He|[]].
    discriminate He.
  - right. left.
  - split.
    + intros tok Hin. simpl in Hin. by apply not_elem_of_empty in Hin.
    + intros tok p child Hin. simpl in Hin. by apply not_elem_of_empty in Hin.
  - exact Hrun.
  - split; [reflexivity|]. split.
    + apply (Hmarks eq_refl versioningProperty "p:m:Versioning"); [|reflexivity].
      apply nested_here. left.
    + apply (Hmarks eq_refl modeProperty "p:m:Mode"); [|reflexivity].
      apply (nested_under _ _ versioningProperty "p:m:Versioning"); [left|reflexivity|].
      apply nested_here.
      assert (objectProperties (pkg_objects bucketPackage) "p:m:Versioning"
              = [modeProperty]) as -> by reflexivity.
      left.
Defined.

(** ** The environment lookup of the emitted utilities *)

Lemma getEnvOrDefault_all_empty Getenv def parser vars :
  (∀ u, u ∈ vars → Getenv u = "") → getEnvOrDefault Getenv def parser vars = def.
Proof.
  induction vars as [|u vars IH]; intros Hempty; simpl; [done|].
  rewrite (Hempty u) by left. simpl. apply IH. intros u' Hu'. apply Hempty. by right.
Qed.

Lemma getEnvOrDefault_first_nonempty Getenv def parser pre v post :
  (∀ u, u ∈ pre → Getenv u = "") → Getenv v ≠ "" →
  getEnvOrDefault Getenv def parser (pre ++ v :: post)
  = match parser with
    | Some parse => parse (Getenv v)
    | None => Str (Getenv v)
    end.
Proof.
  intros Hpre Hv. induction pre as [|u pre IH]; simpl.
  - apply String.eqb_neq in Hv. by rewrite Hv.
  - rewrite (Hpre u) by left. simpl. apply IH. intros u' Hu'. apply Hpre. by right.
Qed.

(** C10: the first variable of the list with a non-empty value decides.
    With a parser the result is what the parser returns for that value, nil
    when the value does not parse, whatever the later variables and the
    default are; the three scalar parsers return nil on a parse error; and
    the default is the result when every listed variable is unset or
    empty. *)
Theorem C10_first_nonempty_variable_decides (ParseInt : string → option Z)
    (ParseFloat : string → option string) (Getenv : string → string)
    (def : value) (parser : option (string → value)) (pre post : list string)
    (v : string) :
  (∀ u, u ∈ pre → Getenv u = "") →
  Getenv v ≠ "" →
  getEnvOrDefault Getenv def parser (pre ++ v :: post)
  = match parser with
    | Some parse => parse (Getenv v)
    | None => Str (Getenv v)
    end ∧
  (∀ parse, parser = Some parse → parse (Getenv v) = Nil →
     ∀ def' post', getEnvOrDefault Getenv def' parser (pre ++ v :: post') = Nil) ∧
  (ParseBool (Getenv v) = None → parseEnvBool (Getenv v) = Nil) ∧
  (ParseInt (Getenv v) = None → parseEnvInt ParseInt (Getenv v) = Nil) ∧
  (ParseFloat (Getenv v) = None → parseEnvFloat ParseFloat (Getenv v) = Nil) ∧
  (∀ vars, (∀ u, u ∈ vars → Getenv u = "") →
     getEnvOrDefault Getenv def parser vars = def).
Proof.
  intros Hpre Hv. split_and!.
  - by apply getEnvOrDefault_first_nonempty.
  - intros parse -> Hnil def' post'.
    by rewrite getEnvOrDefault_first_nonempty.
  - unfold parseEnvBool. by intros ->.
  - unfold parseEnvInt. by intros ->.
  - unfold parseEnvFloat. by intros ->.
  - intros vars. apply getEnvOrDefault_all_empty.
Qed.

Lemma C10_unparsable_witness :
  getEnvOrDefault exampleEnv (Int 0) (Some (parseEnvInt parseDecimal)) ["U"; "A"; "B"]
  = Nil.
Proof.
  destruct (C10_first_nonempty_variable_decides parseDecimal (fun _ => None)
              exampleEnv (Int 0) (Some (parseEnvInt parseDecimal)) ["U"] ["B"] "A")
    as (Hfirst & _).
  - intros u ->%list_elem_of_singleton. reflexivity.
  - vm_compute. discriminate.
  - exact Hfirst.
Defined.

(** ** The constructor body *)

Lemma genResourceConstructor_Ok ps pkg r body ps' :
  genResourceConstructor ps pkg r = Ok (body, ps') ↔
  ∃ name defaults,
    resourceName r = Ok name ∧
    genDefaults ps pkg (res_InputProperties r) = Ok (defaults, ps') ∧
    body = ((if negb (hasRequired r) then ArgsNilDefault name else ArgsNilError)
            :: genRequiredChecks r ++ defaults)%list.
Proof.
  unfold genResourceConstructor. split.
  - intros H. apply bind_Ok in H as (name & Hname & H).
    apply bind_Ok in H as ([defaults ps1] & Hdef & H). simplify_eq.
    by exists name, defaults.
  - intros (name & defaults & Hname & Hdef & ->).
    rewrite Hname. simpl. rewrite Hdef. done.
Qed.

Section Body.
Variable ParseInt : string → option Z.
Variable ParseFloat : string → option string.
Variable Getenv : string → string.

#[local] Abbreviation runBody := (execBody ParseInt ParseFloat Getenv).
#[local] Abbreviation runStmt := (execStmt ParseInt ParseFloat Getenv).

Lemma execBody_cons s body a :
  runBody (s :: body) (Some a) = (runStmt s a ≫= fun a' => runBody body (Some a')).
Proof. by destruct s. Qed.

Lemma execBody_app body1 body2 a :
  runBody (body1 ++ body2) (Some a)
  = (runBody body1 (Some a) ≫= fun a' => runBody body2 (Some a')).
Proof.
  revert a. induction body1 as [|s body1 IH]; intros a; [done|].
  rewrite <- app_comm_cons, !execBody_cons.
  destruct (runStmt s a) as [a'| | |]; simpl; [apply IH|done..].
Qed.

Lemma requiredCheck_pass a p :
  missing a p = false → runBody (requiredCheck p) (Some a) = Ok a.
Proof.
  unfold missing, requiredCheck. intros Hmiss.
  destruct (prop_Type p), (prop_IsRequired p); try done;
    simpl in *; by rewrite Hmiss.
Qed.

Lemma requiredCheck_fail a p :
  missing a p = true → runBody (requiredCheck p) (Some a) = Failed (invalidValue p).
Proof.
  unfold missing, requiredCheck, invalidValue. intros Hmiss.
  destruct (prop_Type p), (prop_IsRequired p); try done;
    simpl in *; by rewrite Hmiss.
Qed.

Lemma requiredChecks_pass a props :
  (∀ q, q ∈ props → missing a q = false) →
  runBody (flat_map requiredCheck props) (Some a) = Ok a.
Proof.
  induction props as [|p props IH]; intros Hpass; simpl; [done|].
  rewrite execBody_app, requiredCheck_pass by (apply Hpass; left).
  simpl. apply IH. intros q Hq. apply Hpass. by right.
Qed.

Lemma requiredChecks_fail a pre p post :
  (∀ q, q ∈ pre → missing a q = false) → missing a p = true →
  runBody (flat_map requiredCheck (pre ++ p :: post)) (Some a)
  = Failed (invalidValue p).
Proof.
  intros Hpre Hp. rewrite flat_map_app, execBody_app.
  rewrite requiredChecks_pass by done. simpl.
  rewrite execBody_app, requiredCheck_fail by done. done.
Qed.

(** The first missing input among [props], if there is one. *)
Lemma first_missing a props p :
  p ∈ props → missing a p = true →
  ∃ pre q post, props = (pre ++ q :: post)%list ∧
                (∀ q', q' ∈ pre → missing a q' = false) ∧ missing a q = true.
Proof.
  induction props as [|p0 props IH]; intros Hin Hp; [by apply elem_of_nil in Hin|].
  destruct (missing a p0) eqn:Hp0.
  - exists [], p0, props. split_and!; [done| |done]. by intros q' ?%elem_of_nil.
  - apply elem_of_cons in Hin as [->|Hin]; [congruence|].
    destruct (IH Hin Hp) as (pre & q & post & -> & Hpre & Hq).
    exists (p0 :: pre), q, post. split_and!; [done| |done].
    intros q' [->|Hq']%elem_of_cons; auto.
Qed.
End Body.

Lemma genPropertyDefaults_required_enum ps pkg p tok elementType stmts ps' :
  prop_Type p = EnumType tok elementType → prop_IsRequired p = true →
  genPropertyDefaults ps pkg p = Ok (stmts, ps') →
  Forall (requiredEnumStmt p elementType) stmts ∧
  (is_Some (prop_DefaultValue p) →
   ∃ t v, (elementType = StringType ∧
           AssignIfEmptyString (Title (prop_Name p)) t v ∈ stmts) ∨
          ((elementType = IntType ∨ elementType = NumberType) ∧
           AssignIfZero (Title (prop_Name p)) t v ∈ stmts)).
Proof.
  intros Htype Hreq. unfold genPropertyDefaults. rewrite Htype, Hreq. intros H.
  apply bind_Ok in H as ([constStmts ps1] & Hconst & H).
  assert (Forall (requiredEnumStmt p elementType) constStmts) as Hc.
  { destruct (prop_ConstValue p) as [c|] eqn:Hcv; [|by simplify_eq].
    apply bind_Ok in Hconst as (v & Hv & Hconst).
    apply bind_Ok in Hconst as ([t ps2] & Ht & Hconst). simplify_eq.
    apply Forall_singleton. simpl. split; [done|by eexists]. }
  destruct (prop_DefaultValue p) as [dv|] eqn:Hdv.
  - apply bind_Ok in H as ([v needs] & Hv & H).
    apply bind_Ok in H as ([t ps2] & Ht & H).
    destruct elementType; simplify_eq;
      (split;
       [ apply Forall_app; split; [done|]; apply Forall_singleton; simpl;
         split_and!; [done|auto|by eexists]
       | intros _; exists t, v;
         first [ left; split; [reflexivity|] | right; split; [auto|] ];
         apply elem_of_app; right; left ]).
  - simplify_eq. split; [done|]. by intros [? ?].
Qed.

(** C6, as the code has it.  Called with nil arguments, the constructor
    fails with the missing-arguments error when some input is required and
    goes on with empty arguments when none is; with arguments, the first
    required input that is not of enum type and is nil makes it fail with
    the error naming that input.  An input of enum type gets no such check,
    required or not; when it is required, what is generated for it is the
    assignment of its constant, if it has one, and, if it declares a
    default, the assignment of the default behind a comparison with the
    empty string for a string enum and with zero for a numeric enum. *)
Theorem C6_constructor_validation (ParseInt : string → option Z)
    (ParseFloat : string → option string) (Getenv : string → string)
    (ps : pkgMap) (pkg : pkgContext) (r : Resource) (body : list stmt) (ps' : pkgMap) :
  genResourceConstructor ps pkg r = Ok (body, ps') →
  (hasRequired r = true →
     execBody ParseInt ParseFloat Getenv body None
     = Failed "missing one or more required arguments") ∧
  (hasRequired r = false →
     execBody ParseInt ParseFloat Getenv body None
     = execBody ParseInt ParseFloat Getenv body (Some ∅)) ∧
  (∀ a pre p post,
     res_InputProperties r = (pre ++ p :: post)%list →
     (∀ q, q ∈ pre → missing a q = false) → missing a p = true →
     execBody ParseInt ParseFloat Getenv body (Some a) = Failed (invalidValue p)) ∧
  (∀ a p, p ∈ res_InputProperties r → missing a p = true →
     ∃ q, q ∈ res_InputProperties r ∧ missing a q = true ∧
          execBody ParseInt ParseFloat Getenv body (Some a) = Failed (invalidValue q)) ∧
  (∀ p tok elementType, prop_Type p = EnumType tok elementType →
     requiredCheck p = [] ∧
     (∀ a, missing a p = false) ∧
     (prop_IsRequired p = true →
      ∀ ps0 stmts ps1, genPropertyDefaults ps0 pkg p = Ok (stmts, ps1) →
        Forall (requiredEnumStmt p elementType) stmts ∧
        (is_Some (prop_DefaultValue p) →
         ∃ t v, (elementType = StringType ∧
                 AssignIfEmptyString (Title (prop_Name p)) t v ∈ stmts) ∨
                ((elementType = IntType ∨ elementType = NumberType) ∧
                 AssignIfZero (Title (prop_Name p)) t v ∈ stmts)))).
Proof.
  intros (name & defaults & Hname & Hdef & ->)%genResourceConstructor_Ok.
  assert (∀ a pre p post,
    res_InputProperties r = (pre ++ p :: post)%list →
    (∀ q, q ∈ pre → missing a q = false) → missing a p = true →
    execBody ParseInt ParseFloat Getenv
      ((if negb (hasRequired r) then ArgsNilDefault name else ArgsNilError)
       :: genRequiredChecks r ++ defaults) (Some a) = Failed (invalidValue p)) as Hfirst.
  { intros a pre p post Hprops Hpre Hp.
    rewrite execBody_cons.
    assert (∀ s, s = ArgsNilDefault name ∨ s = ArgsNilError →
                 execStmt ParseInt ParseFloat Getenv s a = Ok a) as Hnil
      by (by intros s [-> | ->]).
    rewrite Hnil by (destruct (negb _); auto). simpl.
    rewrite execBody_app. unfold genRequiredChecks. rewrite Hprops.
    by rewrite requiredChecks_fail. }
  split_and!.
  - intros Hreq. by rewrite Hreq.
  - intros Hreq. by rewrite Hreq.
  - exact Hfirst.
  - intros a p Hin Hp.
    destruct (first_missing a _ p Hin Hp) as (pre & q & post & Hprops & Hpre & Hq).
    exists q. split_and!; [|done|by eapply Hfirst].
    rewrite Hprops. apply elem_of_app. right. left.
  - intros p tok elementType Htype. split_and!.
    + unfold requiredCheck. by rewrite Htype.
    + intros a. unfold missing. by rewrite Htype.
    + intros Hreq ps0 stmts ps1. by apply (genPropertyDefaults_required_enum _ _ _ tok).
Qed.

(** For the required enum input [color] of [paint] nothing is generated
    beyond the check of [args] itself: the constructor compares [Color]
    with nothing, and returns with [Color] empty. *)
Lemma C6_required_enum_not_compared :
  genResourceConstructor ∅ (emptyContext examplePkg "m") paint
  = Ok ([ArgsNilError], ∅) ∧
  execBody parseDecimal (fun _ => None) exampleEnv [ArgsNilError]
    (Some {["Color" := Str ""]})
  = Ok {["Color" := Str ""]}.
Proof. split; vm_compute; reflexivity. Qed.

Lemma C6_widget_witness :
  ∃ body ps',
    genResourceConstructor ∅ (emptyContext examplePkg "m") widget = Ok (body, ps') ∧
    execBody parseDecimal (fun _ => None) exampleEnv body None
    = Failed "missing one or more required arguments" ∧
    execBody parseDecimal (fun _ => None) exampleEnv body (Some ∅)
    = Failed "invalid value for required argument 'Name'".
Proof.
  destruct (genResourceConstructor ∅ (emptyContext examplePkg "m") widget)
    as [[body ps']| | |] eqn:Hgen; try (vm_compute in Hgen; discriminate).
  exists body, ps'.
  destruct (C6_constructor_validation parseDecimal (fun _ => None) exampleEnv
              ∅ (emptyContext examplePkg "m") widget body ps' Hgen)
    as (Hnil & _ & Hfirst & _).
  split; [reflexivity|]. split.
  - apply Hnil. reflexivity.
  - apply (Hfirst ∅ [] (property "Name" StringType true)
             (drop 1 (res_InputProperties widget))).
    + reflexivity.
    + intros q Hq. by apply elem_of_nil in Hq.
    + reflexivity.
Defined.

(** ** Constants and defaults in the constructor body *)

Section Defaults.
Variable ParseInt : string → option Z.
Variable ParseFloat : string → option string.
Variable Getenv : string → string.

#[local] Abbreviation runBody := (execBody ParseInt ParseFloat Getenv).
#[local] Abbreviation runStmt := (execStmt ParseInt ParseFloat Getenv).




End Defaults.






Section Flow.
Variable ParseInt : string → option Z.
Variable ParseFloat : string → option string.
Variable Getenv : string → string.

#[local] Abbreviation runBody := (execBody ParseInt ParseFloat Getenv).
#[local] Abbreviation runStmt := (execStmt ParseInt ParseFloat Getenv).


End Flow.

(** ** The statements of one property at run time *)



Section Own.
Variable ParseInt : string → option Z.
Variable ParseFloat : string → option string.
Variable Getenv : string → string.

#[local] Abbreviation runBody := (execBody ParseInt ParseFloat Getenv).
#[local] Abbreviation runStmt := (execStmt ParseInt ParseFloat Getenv).

End Own.




(* ------------------------------------------------------------------ *)
(** * Properties of the rest of the generator *)
(* ------------------------------------------------------------------ *)

(** ** Case mapping and the two naming helpers *)

Lemma append_cons c s t : String c s +:+ t = String c (s +:+ t).
Proof. reflexivity. Qed.

Lemma append_nil_r s : s +:+ "" = s.
Proof. induction s as [|c s IH]; [done|]. by rewrite append_cons, IH. Qed.

Lemma append_assoc s1 s2 s3 : (s1 +:+ s2) +:+ s3 = s1 +:+ s2 +:+ s3.
Proof. induction s1 as [|c s1 IH]; [done|]. by rewrite !append_cons, IH. Qed.

Lemma length_append s1 s2 :
  String.length (s1 +:+ s2) = String.length s1 + String.length s2.
Proof. induction s1 as [|c s1 IH]; [done|]. rewrite append_cons. simpl. by rewrite IH. Qed.

(** Facts about single bytes are settled by running through the bytes. *)
Ltac by_bytes c := destruct c as [[] [] [] [] [] [] [] []]; vm_compute; try done.

Lemma ToUpperRune_not_lower c : IsLower (ToUpperRune c) = false.
Proof. by_bytes c. Qed.

Lemma ToUpperRune_not_dollar c :
  Ascii.eqb c "$" = false → Ascii.eqb (ToUpperRune c) "$" = false.
Proof. by_bytes c. Qed.

Lemma ToUpperRune_idemp c : ToUpperRune (ToUpperRune c) = ToUpperRune c.
Proof. by_bytes c. Qed.

Lemma ToLowerRune_idemp c : ToLowerRune (ToLowerRune c) = ToLowerRune c.
Proof. by_bytes c. Qed.

Lemma ToLowerRune_lower c : IsLower c = true → ToLowerRune c = c.
Proof. by_bytes c. Qed.

Lemma ToLowerRune_cases c :
  IsLower (ToLowerRune c) = true ∨ ToLowerRune c = c ∧ IsUpper c = false.
Proof. by_bytes c; auto. Qed.

Lemma IsUpper_not_lower c : IsUpper c = true → IsLower c = false ∧ ToLowerRune c ≠ c.
Proof. by_bytes c. Qed.

Lemma ToLower_idemp s : ToLower (ToLower s) = ToLower s.
Proof. induction s as [|c s IH]; [done|]. simpl. by rewrite ToLowerRune_idemp, IH. Qed.

Lemma Title_idemp s : Title (Title s) = Title s.
Proof.
  induction s as [|c s IH]; [done|]. simpl.
  destruct (Ascii.eqb c "$") eqn:Hc; [done|]. simpl.
  by rewrite (ToUpperRune_not_dollar c Hc), ToUpperRune_idemp.
Qed.

Lemma ToUpperRune_ascii c :
  Nat.ltb (nat_of_ascii c) 128 = true → Nat.ltb (nat_of_ascii (ToUpperRune c)) 128 = true.
Proof. by_bytes c. Qed.

Lemma ToLowerRune_ascii c :
  Nat.ltb (nat_of_ascii c) 128 = true → Nat.ltb (nat_of_ascii (ToLowerRune c)) 128 = true.
Proof. by_bytes c. Qed.

Lemma isASCII_append a b : isASCII (a +:+ b) = isASCII a && isASCII b.
Proof.
  induction a as [|c a IH]; [done|]. rewrite append_cons. simpl.
  by rewrite IH, andb_assoc.
Qed.

Lemma Title_ascii s : isASCII s = true → isASCII (Title s) = true.
Proof.
  induction s as [|c s IH]; [done|]. simpl. intros [Hc Hs]%andb_prop.
  destruct (Ascii.eqb c "$"); [by apply IH|]. simpl.
  by rewrite (ToUpperRune_ascii c Hc), Hs.
Qed.

Lemma camel_ascii s : isASCII s = true → isASCII (camel s) = true.
Proof.
  induction s as [|c s IH]; [done|]. simpl. intros [Hc Hs]%andb_prop.
  destruct (IsLower c); simpl; [by rewrite Hc, Hs|].
  by rewrite (ToLowerRune_ascii c Hc), (IH Hs).
Qed.

(** X1.  On an ASCII string, [Title] applied twice is [Title] applied once.
    Its result starts neither with [$] nor with a lower-case letter, a [$]
    in front of the argument makes no difference, and the result is no
    longer than the argument and an ASCII string again. *)
Theorem Title_idempotent (s : string) :
  isASCII s = true →
  Title (Title s) = Title s ∧
  HasPrefix (Title s) "$" = false ∧
  (∀ c rest, Title s = String c rest → IsLower c = false) ∧
  Title ("$" +:+ s) = Title s ∧
  String.length (Title s) ≤ String.length s ∧
  isASCII (Title s) = true.
Proof.
  intros Hascii.
  split_and!; [clear Hascii..|by apply Title_ascii].
  - apply Title_idemp.
  - induction s as [|c s IH]; [done|]. simpl.
    destruct (Ascii.eqb c "$") eqn:Hc; [done|]. simpl.
    by rewrite (ToUpperRune_not_dollar c Hc).
  - induction s as [|c s IH]; [done|]. simpl. intros c' rest.
    destruct (Ascii.eqb c "$") eqn:Hc; [apply IH|].
    intros [= <- <-]. apply ToUpperRune_not_lower.
  - done.
  - induction s as [|c s IH]; [done|]. simpl.
    destruct (Ascii.eqb c "$"); simpl; lia.
Qed.

Lemma Title_idempotent_witness :
  Title "$bucket" = "Bucket" ∧ Title (Title "$bucket") = Title "$bucket".
Proof.
  split; [reflexivity|]. exact (proj1 (Title_idempotent "$bucket" eq_refl)).
Defined.

Lemma camel_idemp s : camel (camel s) = camel s.
Proof.
  induction s as [|c s IH]; [done|]. simpl.
  destruct (IsLower c) eqn:Hc; simpl; [by rewrite Hc|].
  destruct (ToLowerRune_cases c) as [Hl|[Heq Hup]].
  - by rewrite Hl.
  - rewrite Heq, Hc. by rewrite Heq, IH.
Qed.

Lemma camel_length s : String.length (camel s) = String.length s.
Proof.
  induction s as [|c s IH]; [done|]. simpl.
  destruct (IsLower c); simpl; by rewrite ?IH.
Qed.

Lemma camel_ToLower s : ToLower (camel s) = ToLower s.
Proof.
  induction s as [|c s IH]; [done|]. simpl.
  destruct (IsLower c); simpl; [done|]. by rewrite ToLowerRune_idemp, IH.
Qed.

Lemma camel_upper c rest : IsUpper c = true → camel (String c rest) ≠ String c rest.
Proof.
  intros Hc. destruct (IsUpper_not_lower c Hc) as [Hl Hne]. simpl. rewrite Hl.
  congruence.
Qed.

(** X2.  On an ASCII string, [camel] applied twice is [camel] applied once.
    It keeps the length and changes nothing but the case of letters; a name
    that starts with a lower-case letter comes back as it is, and a name
    that starts with an upper-case letter comes back changed; the result is
    an ASCII string again. *)
Theorem camel_idempotent (s : string) :
  isASCII s = true →
  camel (camel s) = camel s ∧
  String.length (camel s) = String.length s ∧
  ToLower (camel s) = ToLower s ∧
  (∀ c rest, s = String c rest → IsLower c = true → camel s = s) ∧
  (∀ c rest, s = String c rest → IsUpper c = true → camel s ≠ s) ∧
  isASCII (camel s) = true.
Proof.
  intros Hascii.
  split_and!; [clear Hascii..|by apply camel_ascii].
  - apply camel_idemp.
  - apply camel_length.
  - apply camel_ToLower.
  - intros c rest -> Hc. simpl. by rewrite Hc.
  - intros c rest ->. apply camel_upper.
Qed.

Lemma camel_idempotent_witness :
  camel "HTTPServer" = "httpserver" ∧ camel (camel "HTTPServer") = camel "HTTPServer".
Proof.
  split; [reflexivity|]. exact (proj1 (camel_idempotent "HTTPServer" eq_refl)).
Defined.

(** ** The identifiers of a resource *)

Lemma append_same_length a b x y :
  String.length a = String.length b → a +:+ x = b +:+ y → a = b ∧ x = y.
Proof.
  revert b. induction a as [|c a IH]; intros [|d b] Hlen H;
    simpl in Hlen; try discriminate.
  - done.
  - rewrite !append_cons in H. injection H as -> H. injection Hlen as Hlen.
    by destruct (IH b Hlen H) as [-> ->].
Qed.

(** Two identifiers differ by their length, by their suffix or by their
    prefix. *)
Ltac differ H :=
  first
    [ apply (f_equal String.length) in H;
      rewrite ?length_append, ?camel_length in H; simpl in H; lia
    | apply append_same_length in H as [? ?];
      [ congruence | by rewrite ?camel_length ] ].

Lemma resourceIdentifiers_NoDup name isProvider isComponent :
  camel name ≠ name → NoDup (resourceIdentifiers name isProvider isComponent).
Proof.
  intros Hne. unfold resourceIdentifiers.
  destruct (negb isProvider && negb isComponent); simpl;
    repeat (apply NoDup_cons_2;
            [ intros Hin;
              repeat (apply elem_of_cons in Hin as [Hin|Hin]; [differ Hin|]);
              by apply elem_of_nil in Hin | ]);
    apply NoDup_nil_2.
Qed.

(** X3.  The identifiers [scanResource] registers for a resource with an
    ASCII name are ASCII strings, and they are pairwise distinct exactly
    when [camel] changes the name; it does so when the name starts with an
    upper-case letter. *)
Theorem resourceIdentifiers_distinct (name : string) (isProvider isComponent : bool) :
  isASCII name = true →
  (NoDup (resourceIdentifiers name isProvider isComponent) ↔ camel name ≠ name) ∧
  (∀ c rest, name = String c rest → IsUpper c = true →
     NoDup (resourceIdentifiers name isProvider isComponent)) ∧
  Forall (fun id => isASCII id = true) (resourceIdentifiers name isProvider isComponent).
Proof.
  intros Hascii.
  split; [clear Hascii|split; [clear Hascii|]]; [|
    intros c rest -> Hc; by apply resourceIdentifiers_NoDup, camel_upper|
    pose proof (camel_ascii name Hascii) as Hcamel;
    unfold resourceIdentifiers;
    apply Forall_app; split;
      [|destruct (negb isProvider && negb isComponent)];
      repeat apply Forall_cons_2; try apply Forall_nil_2;
      rewrite ?isASCII_append, ?Hascii, ?Hcamel; done].
  split; [|apply resourceIdentifiers_NoDup].
  intros Hnodup Heq. unfold resourceIdentifiers in Hnodup. rewrite Heq in Hnodup.
  apply NoDup_app in Hnodup as (Hnodup & _ & _).
  do 3 apply NoDup_cons in Hnodup as [_ Hnodup].
  apply NoDup_cons in Hnodup as [Hin _]. apply Hin. left.
Qed.

Lemma resourceIdentifiers_distinct_witness :
  NoDup (resourceIdentifiers "Widget" false false).
Proof.
  exact (proj1 (proj2 (resourceIdentifiers_distinct "Widget" false false eq_refl))
           "W"%char "idget" eq_refl eq_refl).
Defined.

(** ** Splitting *)

Lemma Split_cons s sep : ∃ h t, Split s sep = h :: t.
Proof.
  induction s as [|c s (h & t & IH)]; simpl; [by eexists _, _|].
  destruct (Ascii.eqb c sep); [by eexists _, _|]. rewrite IH. by eexists _, _.
Qed.

Lemma Split_lacks s sep : Forall (fun x => lacks sep x = true) (Split s sep).
Proof.
  induction s as [|c s IH]; simpl; [by apply Forall_singleton|].
  destruct (Ascii.eqb c sep) eqn:Hc; [by apply Forall_cons|].
  destruct (Split s sep) as [|h t]; [by apply Forall_singleton; simpl; rewrite Hc|].
  apply Forall_cons in IH as [Hh Ht]. apply Forall_cons. split; [|done].
  simpl. by rewrite Hc.
Qed.

Lemma Split_lacking s sep : lacks sep s = true → Split s sep = [s].
Proof.
  induction s as [|c s IH]; simpl; [done|].
  intros [Hc Hs]%andb_prop. apply negb_true_iff in Hc. by rewrite Hc, (IH Hs).
Qed.

Lemma Split_head s sep :
  ∃ rest, s = nth 0 (Split s sep) "" +:+ rest ∧
          (rest = "" ∨ ∃ r, rest = String sep r).
Proof.
  induction s as [|c s (rest & IH & Hrest)]; simpl.
  { exists "". by split; [|left]. }
  destruct (Ascii.eqb c sep) eqn:Hc.
  - apply Ascii.eqb_eq in Hc as ->. exists (String sep s). split; [done|]. right. by eexists.
  - destruct (Split_cons s sep) as (h & t & Hsplit). rewrite Hsplit in IH |- *. simpl in *.
    exists rest. split; [|done]. rewrite append_cons. by f_equal.
Qed.

(** X4.  [goPackage] returns the part of the name before its first hyphen:
    the result has no hyphen, the name is the result followed by nothing or
    by a hyphen and a rest, a second application changes nothing, and a name
    without a hyphen comes back as it is. *)
Theorem goPackage_before_hyphen (name : string) :
  lacks "-" (goPackage name) = true ∧
  (∃ rest, name = goPackage name +:+ rest ∧ (rest = "" ∨ ∃ r, rest = "-" +:+ r)) ∧
  goPackage (goPackage name) = goPackage name ∧
  (lacks "-" name = true → goPackage name = name).
Proof.
  unfold goPackage.
  assert (lacks "-" (nth 0 (Split name "-") "") = true) as Hlacks.
  { pose proof (Split_lacks name "-") as Hall.
    destruct (Split_cons name "-") as (h & t & Hsplit). rewrite Hsplit in Hall |- *.
    by apply Forall_cons in Hall as [Hh _]. }
  split_and!.
  - done.
  - apply Split_head.
  - by rewrite (Split_lacking _ _ Hlacks).
  - intros H. by rewrite (Split_lacking _ _ H).
Qed.

(** ** References to other packages *)

Lemma HasPrefix_nil s : HasPrefix s "" = true.
Proof. by destruct s. Qed.

Lemma Contains_cons c s sub : Contains s sub = true → Contains (String c s) sub = true.
Proof. intros H. simpl. rewrite H. apply orb_true_r. Qed.

Lemma Contains_append_dot a b : Contains (a +:+ "." +:+ b) "." = true.
Proof.
  induction a as [|c a IH].
  - change ("" +:+ "." +:+ b) with (String "." b). simpl. by rewrite HasPrefix_nil.
  - rewrite append_cons. by apply Contains_cons.
Qed.

(** X5.  For a resource type of another package, [resolveResourceType]
    returns a name with a dot in it: the name the context of the other
    package resolves the token to when that name has a dot, and the name of
    the other package, a dot and that name otherwise. *)
Theorem resolveResourceType_external_qualified (pkg : pkgContext) (tok : string)
    (ext : PackageRef) (id : string) :
  isExternalReference pkg (ResourceType tok (Some ext)) = true →
  resolveResourceType pkg tok (Some ext) = Ok id →
  Contains id "." = true ∧
  ∃ resType, tokenToResource (extPkgCtx ext) tok = Ok resType ∧
    id = if Contains resType "." then resType else pkgName ext +:+ "." +:+ resType.
Proof.
  intros Hext. unfold resolveResourceType. rewrite Hext. simpl.
  intros (resType & Hres & Hid)%bind_Ok.
  destruct (Contains resType ".") eqn:Hdot; simpl in Hid; simplify_eq.
  - split; [done|]. exists id. by rewrite Hdot.
  - split; [apply Contains_append_dot|]. exists resType. by rewrite Hdot.
Qed.

Lemma resolveResourceType_external_witness :
  resolveResourceType (emptyContext examplePkg "m") "aws::Bucket" (Some otherPkg)
  = Ok "aws.Bucket" ∧
  Contains "aws.Bucket" "." = true.
Proof.
  split; [reflexivity|].
  apply (resolveResourceType_external_qualified (emptyContext examplePkg "m")
           "aws::Bucket" otherPkg "aws.Bucket"); reflexivity.
Defined.

(** ** What every resolution keeps *)

Section ResolverRule.
Variable R : pkgMap → pkgMap → Prop.
Hypothesis R_refl : ∀ ps, R ps ps.
Hypothesis R_trans : ∀ ps1 ps2 ps3, R ps1 ps2 → R ps2 ps3 → R ps1 ps3.
Hypothesis R_rename :
  ∀ suffix ps m name id ps1, suffix = "Type" ∨ suffix = "Enum" →
    renameIn suffix ps m name = (id, ps1) → R ps ps1.

Lemma tokenToType_rule ps pkg tok id ps1 :
  tokenToType ps pkg tok = Ok (id, ps1) → R ps ps1.
Proof.
  intros (m & name & _ & _ & _ & Hre & _)%tokenToType_Ok.
  eapply R_rename; [by left|done].
Qed.

Lemma tokenToEnum_rule ps pkg tok id ps1 :
  tokenToEnum ps pkg tok = Ok (id, ps1) → R ps ps1.
Proof.
  intros (m & name & _ & _ & _ & Hre & _)%tokenToEnum_Ok.
  eapply R_rename; [by right|done].
Qed.

Lemma resolveObjectType_rule ps pkg tok pk id ps1 :
  resolveObjectType ps pkg tok pk = Ok (id, ps1) → R ps ps1.
Proof.
  unfold resolveObjectType.
  destruct (negb _); [apply tokenToType_rule|].
  destruct pk as [ext|]; [|apply tokenToType_rule].
  intros ([typ ps0] & _ & H)%bind_Ok. by simplify_eq.
Qed.

(** The cases of a resolver that end in the [optional] wrapper or return a
    fixed string. *)
Ltac rule_leaf H :=
  repeat match type of H with
         | (_ ≫= _) = Ok _ => apply bind_Ok in H as ([? ?] & ? & H)
         | (if ?b then _ else _) = Ok _ => destruct b
         end;
  simplify_eq;
  eauto using tokenToType_rule, tokenToEnum_rule, resolveObjectType_rule.

Lemma plainType_rule ps pkg t optional id ps1 :
  plainType ps pkg t optional = Ok (id, ps1) → R ps ps1.
Proof.
  revert ps optional id ps1. by_schema_induction t; intros ps optional id ps1 H;
    simpl in H.
  1-8: by rule_leaf H.
  - apply bind_Ok in H as ([el ps2] & Hel & H). simplify_eq. eauto.
  - apply bind_Ok in H as ([el ps2] & Hel & H). simplify_eq. eauto.
  - by rule_leaf H.
  - apply bind_Ok in H as ([typ ps2] & Hres & H).
    apply bind_Ok in Hres as (typ' & _ & Hres). rule_leaf H; by simplify_eq.
  - by rule_leaf H.
  - eauto.
  - induction IH as [|e es He _ IHes]; [by simplify_eq|].
    destruct e; try by apply IHes. by eapply He.
  - eauto.
Qed.

Lemma inputType_rule_with_element pkg t :
  (∀ ps optional id ps1, inputType ps pkg t optional = Ok (id, ps1) → R ps ps1) ∧
  (∀ tok e, t = EnumType tok e →
     ∀ ps optional id ps1, inputType ps pkg e optional = Ok (id, ps1) → R ps ps1).
Proof.
  by_schema_induction t;
    (split; [intros ps optional id ps1 H; simpl in H | intros tok' e' Heq; try done]).
  1-8: by rule_leaf H.
  - apply bind_Ok in H as ([el ps2] & Hel & H). simplify_eq. by eapply (proj1 IH).
  - apply bind_Ok in H as ([el ps2] & Hel & H). simplify_eq. by eapply (proj1 IH).
  - by rule_leaf H.
  - apply bind_Ok in H as (typ & _ & H). by simplify_eq.
  - by rule_leaf H.
  - by eapply (proj1 IH).
  - induction IH as [|e es [_ He] _ IHes]; [by simplify_eq|].
    destruct e; try by apply IHes. by eapply He.
  - by rule_leaf H.
  - injection Heq as -> ->. apply IH.
Qed.

Lemma inputType_rule ps pkg t optional id ps1 :
  inputType ps pkg t optional = Ok (id, ps1) → R ps ps1.
Proof. apply inputType_rule_with_element. Qed.

Lemma outputType_rule ps pkg t optional id ps1 :
  outputType ps pkg t optional = Ok (id, ps1) → R ps ps1.
Proof.
  revert ps optional id ps1. by_schema_induction t; intros ps optional id ps1 H;
    simpl in H.
  1-8: by rule_leaf H.
  - apply bind_Ok in H as ([el ps2] & Hel & H).
    destruct (String.eqb _ _); simplify_eq; eauto.
  - apply bind_Ok in H as ([el ps2] & Hel & H).
    destruct (String.eqb _ _); simplify_eq; eauto.
  - by rule_leaf H.
  - apply bind_Ok in H as (typ & _ & H). by simplify_eq.
  - by rule_leaf H.
  - eauto.
  - induction IH as [|e es He _ IHes]; [by simplify_eq|].
    destruct e; try by apply IHes. by eapply He.
  - eauto.
Qed.
End ResolverRule.

Lemma registry_le_refl ps : registry_le ps ps.
Proof. intros m c Hc. by exists c. Qed.

Lemma registry_le_trans ps1 ps2 ps3 :
  registry_le ps1 ps2 → registry_le ps2 ps3 → registry_le ps1 ps3.
Proof.
  intros H12 H23 m c1 Hc1.
  destruct (H12 m c1 Hc1) as (c2 & Hc2 & Hn12 & Hr12).
  destruct (H23 m c2 Hc2) as (c3 & Hc3 & Hn23 & Hr23).
  exists c3. split_and!; [done|by etrans|by etrans].
Qed.

(** X6.  A successful [plainType], [inputType] or [outputType] only extends
    the registry: every namespace is still there, with every name it had
    taken and every rename it had on record. *)
Theorem resolvers_only_extend_registry (ps : pkgMap) (pkg : pkgContext) (t : SchemaType)
    (optional : bool) (id : string) (ps1 : pkgMap) :
  (plainType ps pkg t optional = Ok (id, ps1) → registry_le ps ps1) ∧
  (inputType ps pkg t optional = Ok (id, ps1) → registry_le ps ps1) ∧
  (outputType ps pkg t optional = Ok (id, ps1) → registry_le ps ps1).
Proof.
  assert (∀ suffix ps m name id ps1, suffix = "Type" ∨ suffix = "Enum" →
            renameIn suffix ps m name = (id, ps1) → registry_le ps ps1) as Hrename
    by (intros suffix ps0 m name id0 ps2 _; apply renameIn_registry_le).
  split_and!.
  - by apply (plainType_rule registry_le registry_le_refl registry_le_trans Hrename).
  - by apply (inputType_rule registry_le registry_le_refl registry_le_trans Hrename).
  - by apply (outputType_rule registry_le registry_le_refl registry_le_trans Hrename).
Qed.

Lemma renameIn_consistent suffix ps m name id ps1 :
  suffix = "Type" ∨ suffix = "Enum" →
  renameIn suffix ps m name = (id, ps1) →
  renamesConsistent ps → renamesConsistent ps1.
Proof.
  intros Hsuffix Hre Hcons. unfold renameIn in Hre.
  destruct (ps !! m) as [c|] eqn:Hm; [|by simplify_eq].
  destruct (renamed c !! name) as [nn|] eqn:Hr; [by simplify_eq|].
  case_bool_decide as Hin; simplify_eq; [|done].
  intros m' c' k v Hc' Hk.
  destruct (decide (m = m')) as [<-|Hne].
  - rewrite lookup_insert_eq in Hc'. simplify_eq. simpl in *.
    destruct (decide (name = k)) as [<-|Hnk].
    + rewrite lookup_insert_eq in Hk. simplify_eq.
      split_and!; [set_solver|set_solver|]. by destruct Hsuffix as [-> | ->]; [left|right].
    + rewrite lookup_insert_ne in Hk by done.
      destruct (Hcons m c k v Hm Hk) as (? & ? & ?). split_and!; [set_solver|set_solver|done].
  - rewrite lookup_insert_ne in Hc' by done. by eapply Hcons.
Qed.

(** The three resolvers keep the renames consistent. *)
Lemma resolvers_keep_renames_consistent (ps : pkgMap) (pkg : pkgContext)
    (t : SchemaType) (optional : bool) (id : string) (ps1 : pkgMap) :
  renamesConsistent ps →
  plainType ps pkg t optional = Ok (id, ps1) ∨
  inputType ps pkg t optional = Ok (id, ps1) ∨
  outputType ps pkg t optional = Ok (id, ps1) →
  renamesConsistent ps1.
Proof.
  intros Hcons Hrun. revert Hcons.
  pose (R := fun ps ps1 : pkgMap => renamesConsistent ps → renamesConsistent ps1).
  assert (∀ ps, R ps ps) as Hrefl by (by intros ps0 H).
  assert (∀ ps1 ps2 ps3, R ps1 ps2 → R ps2 ps3 → R ps1 ps3) as Htrans
    by (intros ps2 ps3 ps4 H23 H34 H; auto).
  assert (∀ suffix ps m name id ps1, suffix = "Type" ∨ suffix = "Enum" →
            renameIn suffix ps m name = (id, ps1) → R ps ps1) as Hrename
    by (intros suffix ps0 m name id0 ps2 Hs Hre Hc; by eapply renameIn_consistent).
  destruct Hrun as [H|[H|H]].
  - exact (plainType_rule R Hrefl Htrans Hrename _ _ _ _ _ _ H).
  - exact (inputType_rule R Hrefl Htrans Hrename _ _ _ _ _ _ H).
  - exact (outputType_rule R Hrefl Htrans Hrename _ _ _ _ _ _ H).
Qed.

(** ** Suffixes *)

Lemma rev_string_append a b : rev_string (a +:+ b) = rev_string b +:+ rev_string a.
Proof.
  induction a as [|c a IH].
  - change ("" +:+ b) with b. simpl. by rewrite append_nil_r.
  - rewrite append_cons. cbn [rev_string]. by rewrite IH, append_assoc.
Qed.

Lemma HasPrefix_append a b : HasPrefix (a +:+ b) a = true.
Proof.
  induction a as [|c a IH]; [apply HasPrefix_nil|].
  rewrite append_cons. simpl. by rewrite Ascii.eqb_refl, IH.
Qed.

Lemma HasSuffix_append s suffix : HasSuffix (s +:+ suffix) suffix = true.
Proof. unfold HasSuffix. rewrite rev_string_append. apply HasPrefix_append. Qed.

Lemma take_string_append a b : take_string (String.length a) (a +:+ b) = a.
Proof.
  induction a as [|c a IH]; [done|]. rewrite append_cons. simpl. by rewrite IH.
Qed.

Lemma TrimSuffix_append s suffix : TrimSuffix (s +:+ suffix) suffix = s.
Proof.
  unfold TrimSuffix. rewrite HasSuffix_append, length_append.
  replace (String.length s + String.length suffix - String.length suffix)
    with (String.length s) by lia.
  apply take_string_append.
Qed.

Lemma append_suffix_neq s suffix t : HasSuffix t suffix = false → s +:+ suffix ≠ t.
Proof. intros Ht <-. by rewrite HasSuffix_append in Ht. Qed.

(** ** Input and Output names of the types without tokens *)

Lemma outputBase_append base suffix :
  HasSuffix "pulumi." suffix = false → outputBase (base +:+ suffix) = base +:+ suffix.
Proof.
  intros Hs. unfold outputBase.
  destruct (String.eqb_spec (base +:+ suffix) "pulumi.") as [Heq|]; [|done].
  by apply append_suffix_neq in Heq.
Qed.

Lemma tokenFree_element ps pkg e (suffix : string) base :
  HasSuffix "pulumi." suffix = false → HasSuffix "pulumi.Any" suffix = false →
  inputType ps pkg e false = Ok (base +:+ "Input", ps) →
  outputType ps pkg e false = Ok (outputBase base +:+ "Output", ps) →
  base ≠ "pulumi.Any" →
  (inputType ps pkg e false ≫= fun '(en, ps) =>
     Ok (TrimSuffix en "Input" +:+ suffix +:+ "Input", ps))
  = Ok ((base +:+ suffix) +:+ "Input", ps) ∧
  (outputType ps pkg e false ≫= fun '(el, ps) =>
     let en := TrimSuffix el "Output" in
     if String.eqb en "pulumi.Any" then Ok ("pulumi." +:+ suffix +:+ "Output", ps)
     else Ok (en +:+ suffix +:+ "Output", ps))
  = Ok (outputBase (base +:+ suffix) +:+ "Output", ps) ∧
  base +:+ suffix ≠ "pulumi.Any".
Proof.
  intros Hs1 Hs2 Hin Hout Hbase. rewrite Hin, Hout. simpl.
  rewrite !TrimSuffix_append, (outputBase_append _ _ Hs1). split_and!.
  - by rewrite append_assoc.
  - unfold outputBase. destruct (String.eqb_spec base "pulumi.") as [->|Hne]; simpl.
    + by rewrite append_assoc.
    + apply String.eqb_neq in Hbase. rewrite Hbase. by rewrite append_assoc.
  - by apply append_suffix_neq.
Qed.

Lemma tokenFree_agree pkg t :
  tokenFree t = true →
  ∀ ps optional, ∃ base,
    inputType ps pkg t optional = Ok (base +:+ "Input", ps) ∧
    outputType ps pkg t optional = Ok (outputBase base +:+ "Output", ps) ∧
    base ≠ "pulumi.Any".
Proof.
  by_schema_induction t; intros Hfree ps optional; try done.
  - destruct optional; [exists "pulumi.BoolPtr"|exists "pulumi.Bool"]; by split_and!.
  - destruct optional; [exists "pulumi.IntPtr"|exists "pulumi.Int"]; by split_and!.
  - destruct optional; [exists "pulumi.Float64Ptr"|exists "pulumi.Float64"]; by split_and!.
  - destruct optional; [exists "pulumi.StringPtr"|exists "pulumi.String"]; by split_and!.
  - exists "pulumi.Archive". by split_and!.
  - exists "pulumi.AssetOrArchive". by split_and!.
  - exists "pulumi.". by split_and!.
  - exists "pulumi.". by split_and!.
  - destruct (IH Hfree ps false) as (base & Hin & Hout & Hbase).
    exists (base +:+ "Array").
    exact (tokenFree_element ps pkg e "Array" base eq_refl eq_refl Hin Hout Hbase).
  - destruct (IH Hfree ps false) as (base & Hin & Hout & Hbase).
    exists (base +:+ "Map").
    exact (tokenFree_element ps pkg e "Map" base eq_refl eq_refl Hin Hout Hbase).
  - exists "pulumi.". simpl in Hfree |- *.
    induction es as [|e es IHes]; [by split_and!|].
    apply andb_prop in Hfree as [He Hes]. apply Forall_cons in IH as [_ IH].
    destruct e; try done; by apply IHes.
Qed.

(** X8.  For a type with no token in it, [inputType] and [outputType]
    succeed, leave the registry as it is, and agree on the base of the name:
    the Input type is the base followed by [Input], the Output type the base
    followed by [Output], with [pulumi.Any] for the base [pulumi.]; the
    conversion [genResource] puts around a constant or a default of a
    property of that type is the same base. *)
Theorem tokenFree_input_output_agree (ps : pkgMap) (pkg : pkgContext) (t : SchemaType)
    (optional : bool) :
  tokenFree t = true →
  ∃ base,
    inputType ps pkg t optional = Ok (base +:+ "Input", ps) ∧
    outputType ps pkg t optional = Ok (outputBase base +:+ "Output", ps) ∧
    ∀ p, prop_Type p = t → negb (prop_IsRequired p) = optional →
         conversionFor ps pkg p = Ok (outputBase base, ps).
Proof.
  intros Hfree. destruct (tokenFree_agree pkg t Hfree ps optional)
    as (base & Hin & Hout & _).
  exists base. split_and!; [done|done|].
  intros p <- <-. unfold conversionFor. rewrite Hin. simpl.
  by rewrite TrimSuffix_append.
Qed.

Lemma tokenFree_witness :
  ∃ base,
    inputType ∅ (emptyContext examplePkg "m") (MapType (ArrayType AnyType)) true
    = Ok (base +:+ "Input", ∅) ∧
    outputType ∅ (emptyContext examplePkg "m") (MapType (ArrayType AnyType)) true
    = Ok (outputBase base +:+ "Output", ∅) ∧
    ∀ p, prop_Type p = MapType (ArrayType AnyType) → negb (prop_IsRequired p) = true →
         conversionFor ∅ (emptyContext examplePkg "m") p = Ok (outputBase base, ∅).
Proof.
  apply (tokenFree_input_output_agree ∅ (emptyContext examplePkg "m")
           (MapType (ArrayType AnyType)) true).
  reflexivity.
Defined.

(** ** What the partitioner keeps true of every namespace *)

Lemma namespaceOf_lower pkg tok m : namespaceOf pkg tok = Ok m → ToLower m = m.
Proof.
  unfold namespaceOf, tokenToPackage. intros (m0 & _ & H)%bind_Ok.
  simplify_eq. apply ToLower_idemp.
Qed.

Lemma forEach_keeps {A S : Type} (body : S → A → result S) (Inv : S → Prop) l st st' :
  (∀ s a s', a ∈ l → Inv s → body s a = Ok s' → Inv s') →
  Inv st → forEach body l st = Ok st' → Inv st'.
Proof.
  revert st. induction l as [|a l IH]; intros st Hbody HI Hrun; simpl in Hrun.
  { by simplify_eq. }
  apply bind_Ok in Hrun as (s1 & Ha & Hrun).
  eapply IH; [|by eapply Hbody; [left|..]|done].
  intros s a' s' Ha'. apply Hbody. by right.
Qed.

Section Keeps.
Variable pkg : Package.
Variable Q : string → option pkgContext → Prop.
(** The tokens of the functions that are scanned. *)
Variable scanned : string → Prop.

Hypothesis Q_new :
  ∀ m, ToLower m = m → Q m None → Q m (Some (emptyContext (pkg_ref pkg) m)).
Hypothesis Q_names :
  ∀ m id c, Q m (Some c) → Q m (Some (set_names (fun ns => ns ∪ {[id]}) c)).
Hypothesis Q_types :
  ∀ m t c, Q m (Some c) → Q m (Some (set_types (fun ts => (ts ++ [t])%list) c)).
Hypothesis Q_enums :
  ∀ m t c, Q m (Some c) → Q m (Some (set_enums (fun es => (es ++ [t])%list) c)).
Hypothesis Q_resources :
  ∀ m r c, Q m (Some c) → Q m (Some (set_resources (fun rs => (rs ++ [r])%list) c)).
Hypothesis Q_functions :
  ∀ m f c, scanned (fn_Token f) → Q m (Some c) →
    Q m (Some (set_functions (fun fs => (fs ++ [f])%list) id c)).
Hypothesis Q_functionNames :
  ∀ m tok name c, scanned tok → Q m (Some c) →
    Q m (Some (set_functions id (fun fn => <[tok := name]> fn) c)).
Hypothesis Q_typeFlags :
  ∀ m tok g c, Q m (Some c) → Q m (Some (updateDetailsForType tok g c)).
Hypothesis Q_enumFlags :
  ∀ m tok g c, Q m (Some c) → Q m (Some (updateDetailsForEnum tok g c)).

Lemma everywhere_getPkg ps m :
  ToLower m = m → everywhere Q ps → everywhere Q (getPkg pkg ps m).
Proof.
  intros Hm HQ m'. unfold getPkg. destruct (ps !! m) eqn:Hps; [apply HQ|].
  destruct (decide (m = m')) as [<-|Hne].
  - rewrite lookup_insert_eq. apply Q_new; [done|]. rewrite <- Hps. apply HQ.
  - rewrite lookup_insert_ne by done. apply HQ.
Qed.

Lemma everywhere_alter f ps m :
  (∀ c, Q m (Some c) → Q m (Some (f c))) →
  everywhere Q ps → everywhere Q (alter f m ps).
Proof.
  intros Hf HQ m'. rewrite lookup_alter. case_decide as Heq; [|apply HQ]. subst m'.
  specialize (HQ m). destruct (ps !! m) as [c|]; simpl; [by apply Hf|done].
Qed.

Lemma everywhere_names ps m ids :
  everywhere Q ps →
  everywhere Q (foldl (fun ps id => alter (set_names (fun ns => ns ∪ {[id]})) m ps) ps ids).
Proof.
  revert ps. induction ids as [|id ids IH]; intros ps HQ; simpl; [done|].
  apply IH, everywhere_alter; [|done]. intros c. apply Q_names.
Qed.

Lemma mark_keeps fuel st props b st' :
  mark fuel pkg st props b = Ok st' →
  everywhere Q (packages st) → everywhere Q (packages st').
Proof.
  intros Hrun HQ.
  eapply (mark_rule pkg (fun _ => True) (fun st => everywhere Q (packages st)));
    [done| | |by apply Forall_forall|done|done].
  - intros st1 p tok m H1 _ _ _ Hm. simpl.
    apply everywhere_alter; [intros c; apply Q_typeFlags|].
    apply everywhere_getPkg; [by eapply namespaceOf_lower|done].
  - intros st1 p tok m H1 _ _ _ Hm. simpl.
    apply everywhere_alter; [intros c; apply Q_enumFlags|].
    apply everywhere_getPkg; [by eapply namespaceOf_lower|done].
Qed.

Lemma scanType_keeps fuel st t st' :
  scanType fuel pkg st t = Ok st' →
  everywhere Q (packages st) → everywhere Q (packages st').
Proof.
  unfold scanType. intros Hrun HQ.
  assert (∀ tok m, namespaceOf pkg tok = Ok m →
            everywhere Q (getPkg pkg (packages st) m)) as Hget.
  { intros tok m Hm. apply everywhere_getPkg; [by eapply namespaceOf_lower|done]. }
  destruct t as [ | | | | | | | |e|e|tok pk| | | |tok e]; simplify_eq; try done.
  - destruct e; simplify_eq; try done.
    apply bind_Ok in Hrun as ([m ps] & [Hm ->]%getPkgFromToken_Ok & Hrun).
    simplify_eq. simpl. apply everywhere_alter; [intros c; apply Q_typeFlags|eauto].
  - destruct e; simplify_eq; try done.
    apply bind_Ok in Hrun as ([m ps] & [Hm ->]%getPkgFromToken_Ok & Hrun).
    simplify_eq. simpl. apply everywhere_alter; [intros c; apply Q_typeFlags|eauto].
  - apply bind_Ok in Hrun as ([m ps] & [Hm ->]%getPkgFromToken_Ok & Hrun).
    apply (mark_keeps _ _ _ _ _ Hrun). simpl.
    apply everywhere_alter; [intros c; apply Q_types|eauto].
  - apply bind_Ok in Hrun as ([m ps] & [Hm ->]%getPkgFromToken_Ok & Hrun).
    simplify_eq. simpl. apply everywhere_alter; [intros c; apply Q_enums|eauto].
Qed.

Lemma registered_keeps st r m name :
  ToLower m = m → everywhere Q (packages st) →
  everywhere Q (packages (registered pkg st r m name)).
Proof.
  intros Hm HQ. unfold registered. cbn [packages].
  apply everywhere_names, everywhere_alter; [intros c; apply Q_resources|].
  by apply everywhere_getPkg.
Qed.

Lemma scanResource_keeps fuel st r st' :
  scanResource fuel pkg st r = Ok st' →
  everywhere Q (packages st) → everywhere Q (packages st').
Proof.
  intros (m & name & st1 & Hm & Hname & Hin & Hout)%scanResource_Ok HQ.
  apply (mark_keeps _ _ _ _ _ Hout), (mark_keeps _ _ _ _ _ Hin).
  apply registered_keeps; [by eapply namespaceOf_lower|done].
Qed.

Lemma scanFunction_keeps ps f ps' :
  scanned (fn_Token f) →
  scanFunction pkg ps f = Ok ps' → everywhere Q ps → everywhere Q ps'.
Proof.
  unfold scanFunction. intros Hf Hrun HQ.
  apply bind_Ok in Hrun as ([m ps1] & [Hm ->]%getPkgFromToken_Ok & Hrun).
  apply bind_Ok in Hrun as (name & Hname & Hrun). simplify_eq.
  repeat match goal with
         | |- everywhere Q (match ?x with Some _ => _ | None => _ end) => destruct x
         | |- everywhere Q (alter (set_names _) _ _) =>
             apply everywhere_alter; [intros c; apply Q_names|]
         | |- everywhere Q (alter (set_functions _ id) _ _) =>
             apply everywhere_alter; [intros c; by apply Q_functions|]
         | |- everywhere Q (alter (set_functions id _) _ _) =>
             apply everywhere_alter; [intros c; by apply Q_functionNames|]
         end;
    (apply everywhere_getPkg; [by eapply namespaceOf_lower|done]).
Qed.

Lemma initialState_keeps : everywhere Q ∅ → everywhere Q (packages (initialState pkg)).
Proof.
  intros HQ. unfold initialState. cbn [packages].
  destruct (negb _); [|done]. by apply everywhere_getPkg.
Qed.

Lemma generatePackageContextMap_keeps fuel ps :
  (∀ f, f ∈ pkg_Functions pkg → scanned (fn_Token f)) →
  generatePackageContextMap fuel pkg = Ok ps →
  everywhere Q (packages (initialState pkg)) → everywhere Q ps.
Proof.
  intros Hfs (st1 & st2 & st3 & H1 & H2 & H3 & H4)%generatePackageContextMap_Ok HQ.
  eapply (forEach_keeps (scanFunction pkg) (everywhere Q)); [| |done].
  { intros s f s' Hf Hs Hrun. eapply scanFunction_keeps; eauto. }
  eapply (forEach_keeps (scanResource fuel pkg) (fun st => everywhere Q (packages st)));
    [| |done].
  { intros s r s' _ Hs Hrun. by eapply scanResource_keeps. }
  eapply scanResource_keeps; [done|].
  eapply (forEach_keeps (scanType fuel pkg) (fun st => everywhere Q (packages st)));
    [| |done].
  { intros s t s' _ Hs Hrun. by eapply scanType_keeps. }
  done.
Qed.
End Keeps.

(** ** Where the partitioner files each entity *)

Section ListField.
Context {A : Type} (field : pkgContext → list A).
Hypothesis field_empty : ∀ p m, field (emptyContext p m) = [].

#[local] Abbreviation fieldOf ps m := (default [] (field <$> (ps : pkgMap) !! (m : string))).

Lemma fieldOf_getPkg pkg ps m m' : fieldOf (getPkg pkg ps m) m' = fieldOf ps m'.
Proof. apply (read_getPkg field []). intros p. apply field_empty. Qed.

(** Appending [x] in the namespace [m] that [getPkg] returned. *)
Lemma fieldOf_file pkg ps m f x m' :
  (∀ c, field (f c) = (field c ++ [x])%list) →
  fieldOf (alter f m (getPkg pkg ps m)) m'
  = (fieldOf ps m' ++ if decide (m = m') then [x] else [])%list.
Proof.
  intros Hf. destruct (decide (m = m')) as [<-|Hne].
  - destruct (getPkg_is_Some pkg ps m) as [c Hc].
    rewrite (read_alter_same field [] f _ _ c Hc), Hf. f_equal.
    rewrite <- (fieldOf_getPkg pkg ps m m). by rewrite Hc.
  - rewrite (read_alter_ne field []) by done.
    by rewrite fieldOf_getPkg, (right_id_L [] (++)).
Qed.

Lemma fieldOf_keep ps m f m' :
  (∀ c, field (f c) = field c) → fieldOf (alter f m ps) m' = fieldOf ps m'.
Proof. apply (read_alter_frame field []). Qed.
End ListField.

Lemma filter_pick {A : Type} (P : A → bool) (a : A) (l : list A) :
  ((if P a then [a] else []) ++ filter (fun a => P a = true) l)%list
  = filter (fun a => P a = true) (a :: l).
Proof.
  destruct (P a) eqn:Ha; simpl.
  - by rewrite filter_cons_True.
  - rewrite filter_cons_False; [done|]. by rewrite Ha.
Qed.

Lemma filedUnder_namespace pkg tok m m' :
  namespaceOf pkg tok = Ok m → filedUnder pkg m' tok = bool_decide (m = m').
Proof.
  intros Hm. unfold filedUnder. rewrite Hm.
  destruct (String.eqb_spec m m');
    [by rewrite bool_decide_eq_true_2|by rewrite bool_decide_eq_false_2].
Qed.

Lemma pick_namespace {A : Type} pkg tok m m' (x : A) :
  namespaceOf pkg tok = Ok m →
  (if decide (m = m') then [x] else []) = if filedUnder pkg m' tok then [x] else [].
Proof.
  intros Hm. rewrite (filedUnder_namespace _ _ _ _ Hm).
  destruct (decide (m = m'));
    [by rewrite bool_decide_eq_true_2|by rewrite bool_decide_eq_false_2].
Qed.

(** A fixed reading of a list field is kept by whatever leaves the field
    alone. *)
Ltac keeps_field :=
  first [ by intros; simpl in *
        | intros ? ? H; exact H
        | intros ? ? ? H; exact H
        | intros ? ? ? ? H; exact H
        | intros ? ? ? ? ? H; exact H ].

Lemma mark_lists fuel pkg st props b st' :
  mark fuel pkg st props b = Ok st' →
  ∀ m, typesOf (packages st') m = typesOf (packages st) m ∧
       enumsOf (packages st') m = enumsOf (packages st) m ∧
       resourcesOf (packages st') m = resourcesOf (packages st) m ∧
       functionsOf (packages st') m = functionsOf (packages st) m.
Proof.
  intros Hrun m. split_and!.
  - refine (mark_keeps pkg (fun m o => default [] (types <$> o) = typesOf (packages st) m)
              _ _ _ _ _ _ _ _ Hrun _ m); keeps_field.
  - refine (mark_keeps pkg (fun m o => default [] (enums <$> o) = enumsOf (packages st) m)
              _ _ _ _ _ _ _ _ Hrun _ m); keeps_field.
  - refine (mark_keeps pkg
              (fun m o => default [] (resources <$> o) = resourcesOf (packages st) m)
              _ _ _ _ _ _ _ _ Hrun _ m); keeps_field.
  - refine (mark_keeps pkg
              (fun m o => default [] (functions <$> o) = functionsOf (packages st) m)
              _ _ _ _ _ _ _ _ Hrun _ m); keeps_field.
Qed.

Lemma fieldOf_names {A : Type} (field : pkgContext → list A) (ps : pkgMap) m ids m' :
  (∀ g c, field (set_names g c) = field c) →
  default [] (field <$> foldl (fun ps id => alter (set_names (fun ns => ns ∪ {[id]})) m ps)
                          ps ids !! m')
  = default [] (field <$> ps !! m').
Proof.
  intros Hf. revert ps. induction ids as [|id ids IH]; intros ps; simpl; [done|].
  rewrite IH. apply fieldOf_keep. intros c. apply Hf.
Qed.

Lemma app_nil_pick {A : Type} (l : list A) : l = (l ++ [])%list.
Proof. by rewrite (right_id_L [] (++)). Qed.

Lemma scanType_lists fuel pkg st t st' :
  scanType fuel pkg st t = Ok st' →
  ∀ m, typesOf (packages st') m
       = (typesOf (packages st) m ++ if objectIn pkg m t then [t] else [])%list ∧
       enumsOf (packages st') m
       = (enumsOf (packages st) m ++ if enumIn pkg m t then [t] else [])%list ∧
       resourcesOf (packages st') m = resourcesOf (packages st) m ∧
       functionsOf (packages st') m = functionsOf (packages st) m.
Proof.
  unfold scanType. intros Hrun m'.
  assert (∀ tok g m,
    let ps := alter (updateDetailsForType tok g) m (getPkg pkg (packages st) m) in
    typesOf ps m' = (typesOf (packages st) m' ++ [])%list ∧
    enumsOf ps m' = (enumsOf (packages st) m' ++ [])%list ∧
    resourcesOf ps m' = resourcesOf (packages st) m' ∧
    functionsOf ps m' = functionsOf (packages st) m') as Hflag.
  { intros tok g m ps. unfold ps, typesOf, enumsOf, resourcesOf, functionsOf.
    rewrite <- !app_nil_pick, !fieldOf_keep, !fieldOf_getPkg by done. done. }
  destruct t as [ | | | | | | | |e|e|tok pk| | | |tok e]; simplify_eq;
    try (cbn [objectIn enumIn]; split_and!; by rewrite <- ?app_nil_pick).
  - destruct e; simplify_eq; try (cbn [objectIn enumIn]; split_and!; by rewrite <- ?app_nil_pick).
    apply bind_Ok in Hrun as ([m ps] & [Hm ->]%getPkgFromToken_Ok & Hrun).
    simplify_eq. apply Hflag.
  - destruct e; simplify_eq; try (cbn [objectIn enumIn]; split_and!; by rewrite <- ?app_nil_pick).
    apply bind_Ok in Hrun as ([m ps] & [Hm ->]%getPkgFromToken_Ok & Hrun).
    simplify_eq. apply Hflag.
  - apply bind_Ok in Hrun as ([m ps] & [Hm ->]%getPkgFromToken_Ok & Hrun).
    destruct (mark_lists _ _ _ _ _ _ Hrun m') as (-> & -> & -> & ->).
    cbn [packages objectIn enumIn]. unfold typesOf, enumsOf, resourcesOf, functionsOf.
    rewrite <- (pick_namespace pkg tok m m' _ Hm).
    rewrite (fieldOf_file types (fun _ _ => eq_refl) pkg _ m _ (ObjectType tok pk)) by done.
    rewrite <- !app_nil_pick, !fieldOf_keep, !fieldOf_getPkg by done. done.
  - apply bind_Ok in Hrun as ([m ps] & [Hm ->]%getPkgFromToken_Ok & Hrun).
    simplify_eq. cbn [packages objectIn enumIn].
    unfold typesOf, enumsOf, resourcesOf, functionsOf.
    rewrite <- (pick_namespace pkg tok m m' _ Hm).
    rewrite (fieldOf_file enums (fun _ _ => eq_refl) pkg _ m _ (EnumType tok e)) by done.
    rewrite <- !app_nil_pick, !fieldOf_keep, !fieldOf_getPkg by done. done.
Qed.

Lemma scanResource_lists fuel pkg st r st' :
  scanResource fuel pkg st r = Ok st' →
  ∀ m, typesOf (packages st') m = typesOf (packages st) m ∧
       enumsOf (packages st') m = enumsOf (packages st) m ∧
       resourcesOf (packages st') m
       = (resourcesOf (packages st) m ++
          if filedUnder pkg m (res_Token r) then [r] else [])%list ∧
       functionsOf (packages st') m = functionsOf (packages st) m.
Proof.
  intros (m & name & st1 & Hm & Hname & Hin & Hout)%scanResource_Ok m'.
  destruct (mark_lists _ _ _ _ _ _ Hout m') as (-> & -> & -> & ->).
  destruct (mark_lists _ _ _ _ _ _ Hin m') as (-> & -> & -> & ->).
  unfold registered. cbn [packages].
  unfold typesOf, enumsOf, resourcesOf, functionsOf.
  rewrite <- (pick_namespace pkg _ m m' _ Hm).
  rewrite !fieldOf_names by done.
  rewrite (fieldOf_file resources (fun _ _ => eq_refl) pkg _ m _ r) by done.
  rewrite !fieldOf_keep, !fieldOf_getPkg by done. done.
Qed.

Lemma scanFunction_lists pkg ps f ps' :
  scanFunction pkg ps f = Ok ps' →
  ∀ m, typesOf ps' m = typesOf ps m ∧
       enumsOf ps' m = enumsOf ps m ∧
       resourcesOf ps' m = resourcesOf ps m ∧
       functionsOf ps' m
       = (functionsOf ps m ++ if filedUnder pkg m (fn_Token f) then [f] else [])%list.
Proof.
  unfold scanFunction. intros Hrun m'.
  apply bind_Ok in Hrun as ([m ps1] & [Hm ->]%getPkgFromToken_Ok & Hrun).
  apply bind_Ok in Hrun as (name & Hname & Hrun). simplify_eq.
  unfold typesOf, enumsOf, resourcesOf, functionsOf.
  rewrite <- (pick_namespace pkg _ m m' _ Hm).
  destruct (fn_Inputs f), (fn_Outputs f);
    repeat first [ rewrite (fieldOf_keep functions _ _ (set_names _)) by done
                 | rewrite (fieldOf_keep functions _ _ (set_functions id _)) by done ];
    rewrite (fieldOf_file functions (fun _ _ => eq_refl) pkg _ m _ f) by done;
    rewrite !fieldOf_keep, !fieldOf_getPkg by done; done.
Qed.

Lemma initialState_lists pkg m :
  typesOf (packages (initialState pkg)) m = [] ∧
  enumsOf (packages (initialState pkg)) m = [] ∧
  resourcesOf (packages (initialState pkg)) m = [] ∧
  functionsOf (packages (initialState pkg)) m = [].
Proof.
  unfold initialState, typesOf, enumsOf, resourcesOf, functionsOf. cbn [packages].
  destruct (negb _); [|by rewrite lookup_empty].
  rewrite !fieldOf_getPkg by done. by rewrite lookup_empty.
Qed.

Lemma types_phase fuel pkg l st st' :
  forEach (scanType fuel pkg) l st = Ok st' →
  ∀ m, typesOf (packages st') m
       = (typesOf (packages st) m ++ filter (fun t => objectIn pkg m t = true) l)%list ∧
       enumsOf (packages st') m
       = (enumsOf (packages st) m ++ filter (fun t => enumIn pkg m t = true) l)%list ∧
       resourcesOf (packages st') m = resourcesOf (packages st) m ∧
       functionsOf (packages st') m = functionsOf (packages st) m.
Proof.
  revert st. induction l as [|t l IH]; intros st Hrun m; simpl in Hrun.
  { simplify_eq. rewrite !filter_nil. by rewrite <- !app_nil_pick. }
  apply bind_Ok in Hrun as (s1 & Ht & Hrun).
  destruct (IH _ Hrun m) as (-> & -> & -> & ->).
  destruct (scanType_lists _ _ _ _ _ Ht m) as (-> & -> & -> & ->).
  by rewrite <- !(assoc_L (++)), !filter_pick.
Qed.

Lemma resources_phase fuel pkg l st st' :
  forEach (scanResource fuel pkg) l st = Ok st' →
  ∀ m, typesOf (packages st') m = typesOf (packages st) m ∧
       enumsOf (packages st') m = enumsOf (packages st) m ∧
       resourcesOf (packages st') m
       = (resourcesOf (packages st) m ++
          filter (fun r => filedUnder pkg m (res_Token r) = true) l)%list ∧
       functionsOf (packages st') m = functionsOf (packages st) m.
Proof.
  revert st. induction l as [|r l IH]; intros st Hrun m; simpl in Hrun.
  { simplify_eq. rewrite !filter_nil. by rewrite <- !app_nil_pick. }
  apply bind_Ok in Hrun as (s1 & Hr & Hrun).
  destruct (IH _ Hrun m) as (-> & -> & -> & ->).
  destruct (scanResource_lists _ _ _ _ _ Hr m) as (-> & -> & -> & ->).
  by rewrite <- !(assoc_L (++)),
       (filter_pick (fun r => filedUnder pkg m (res_Token r))).
Qed.

Lemma functions_phase pkg l ps ps' :
  forEach (scanFunction pkg) l ps = Ok ps' →
  ∀ m, typesOf ps' m = typesOf ps m ∧
       enumsOf ps' m = enumsOf ps m ∧
       resourcesOf ps' m = resourcesOf ps m ∧
       functionsOf ps' m
       = (functionsOf ps m ++
          filter (fun f => filedUnder pkg m (fn_Token f) = true) l)%list.
Proof.
  revert ps. induction l as [|f l IH]; intros ps Hrun m; simpl in Hrun.
  { simplify_eq. rewrite !filter_nil. by rewrite <- !app_nil_pick. }
  apply bind_Ok in Hrun as (s1 & Hf & Hrun).
  destruct (IH _ Hrun m) as (-> & -> & -> & ->).
  destruct (scanFunction_lists _ _ _ _ Hf m) as (-> & -> & -> & ->).
  by rewrite <- !(assoc_L (++)),
       (filter_pick (fun f => filedUnder pkg m (fn_Token f))).
Qed.

Lemma partition_lists (fuel : nat) (pkg : Package) (ps : pkgMap) (m : string) :
  generatePackageContextMap fuel pkg = Ok ps →
  typesOf ps m = filter (fun t => objectIn pkg m t = true) (pkg_Types pkg) ∧
  enumsOf ps m = filter (fun t => enumIn pkg m t = true) (pkg_Types pkg) ∧
  resourcesOf ps m
  = filter (fun r => filedUnder pkg m (res_Token r) = true)
      (pkg_Provider pkg :: pkg_Resources pkg) ∧
  functionsOf ps m
  = filter (fun f => filedUnder pkg m (fn_Token f) = true) (pkg_Functions pkg).
Proof.
  intros (st1 & st2 & st3 & H1 & H2 & H3 & H4)%generatePackageContextMap_Ok.
  destruct (functions_phase _ _ _ _ H4 m) as (-> & -> & -> & ->).
  destruct (resources_phase _ _ _ _ _ H3 m) as (-> & -> & -> & ->).
  destruct (scanResource_lists _ _ _ _ _ H2 m) as (-> & -> & -> & ->).
  destruct (types_phase _ _ _ _ _ H1 m) as (-> & -> & -> & ->).
  destruct (initialState_lists pkg m) as (-> & -> & -> & ->).
  rewrite <- !(assoc_L (++)),
    (filter_pick (fun r => filedUnder pkg m (res_Token r))).
  done.
Qed.

(** X9.  After [generatePackageContextMap], the object types, the enums, the
    resources (the provider first) and the functions of a namespace are those
    of the schema whose token resolves to that namespace, in the order of the
    schema. *)
Theorem partition_by_namespace (fuel : nat) (pkg : Package) (ps : pkgMap) (m : string) :
  generatePackageContextMap fuel pkg = Ok ps →
  typesOf ps m = filter (fun t => objectIn pkg m t = true) (pkg_Types pkg) ∧
  enumsOf ps m = filter (fun t => enumIn pkg m t = true) (pkg_Types pkg) ∧
  resourcesOf ps m
  = filter (fun r => filedUnder pkg m (res_Token r) = true)
      (pkg_Provider pkg :: pkg_Resources pkg) ∧
  functionsOf ps m
  = filter (fun f => filedUnder pkg m (fn_Token f) = true) (pkg_Functions pkg).
Proof. apply partition_lists. Qed.

Lemma partition_node_witness :
  ∃ ps, generatePackageContextMap 3 nodePackage = Ok ps ∧
        typesOf ps "m" = [nodeType] ∧ resourcesOf ps "providers" = [exampleProvider].
Proof.
  destruct (generatePackageContextMap 3 nodePackage) as [ps| | |] eqn:Hrun;
    try (vm_compute in Hrun; discriminate).
  exists ps. split; [reflexivity|].
  split.
  - destruct (partition_by_namespace 3 nodePackage ps "m" Hrun) as (-> & _). reflexivity.
  - destruct (partition_by_namespace 3 nodePackage ps "providers" Hrun)
      as (_ & _ & -> & _). reflexivity.
Defined.

(** ** The namespaces themselves *)

Lemma filed_exists {A : Type} (field : pkgContext → list A) (ps : pkgMap) m (x : A) l :
  default [] (field <$> ps !! m) = l → x ∈ l → is_Some (ps !! m).
Proof.
  intros Hl Hx. destruct (ps !! m); [done|]. simpl in Hl. subst l.
  by apply elem_of_nil in Hx.
Qed.

Lemma filedUnder_own pkg tok m : namespaceOf pkg tok = Ok m → filedUnder pkg m tok = true.
Proof. intros Hm. rewrite (filedUnder_namespace _ _ _ _ Hm). by apply bool_decide_eq_true_2. Qed.

Lemma partition_fresh (fuel : nat) (pkg : Package) (ps : pkgMap) :
  generatePackageContextMap fuel pkg = Ok ps →
  ∀ m c, ps !! m = Some c → freshNamespace pkg m c ∧ ToLower m = m.
Proof.
  intros Hrun m c Hc.
  refine (generatePackageContextMap_keeps pkg
            (fun m o => ∀ c, o = Some c → freshNamespace pkg m c ∧ ToLower m = m)
            (fun _ => True) _ _ _ _ _ _ _ _ _ fuel ps _ Hrun _ m c Hc);
    try (intros ? ? ? H c' [= <-]; exact (H _ eq_refl));
    try (intros ? ? ? ? H c' [= <-]; exact (H _ eq_refl));
    try (intros ? ? ? ? ? H c' [= <-]; exact (H _ eq_refl)); try done.
  - intros m' Hm' _ c' [= <-]. by split.
  - intros m'. unfold initialState. cbn [packages].
    destruct (negb _); [|by rewrite lookup_empty].
    unfold getPkg. rewrite lookup_empty.
    destruct (decide ("config" = m')) as [<-|Hne].
    + rewrite lookup_insert_eq. intros c' [= <-]. by split.
    + rewrite lookup_insert_ne by done. by rewrite lookup_empty.
Qed.

(** X10.  After [generatePackageContextMap], every namespace is filed under
    a lower-case name and carries that name, the package and its module
    overrides, with no rename on record; the namespace [config] exists when
    the package has configuration variables; and the namespace of every type,
    resource and function token of the schema exists. *)
Theorem namespaces_well_formed (fuel : nat) (pkg : Package) (ps : pkgMap) :
  generatePackageContextMap fuel pkg = Ok ps →
  (∀ m c, ps !! m = Some c → freshNamespace pkg m c ∧ ToLower m = m) ∧
  (pkg_Config pkg ≠ [] → is_Some (ps !! "config")) ∧
  (∀ tok m, tok ∈ filedTokens pkg → namespaceOf pkg tok = Ok m → is_Some (ps !! m)).
Proof.
  intros Hrun. split_and!.
  - by apply (partition_fresh fuel).
  - intros Hconfig.
    refine (generatePackageContextMap_keeps pkg
              (fun m o => m = "config" → is_Some o)
              (fun _ => True) _ _ _ _ _ _ _ _ _ fuel ps _ Hrun _ "config" eq_refl);
      try done.
    intros m' ->. unfold initialState. cbn [packages].
    destruct (pkg_Config pkg); [done|]. simpl. apply getPkg_is_Some.
  - intros tok m Htok Hm. pose proof (filedUnder_own _ _ _ Hm) as Hfiled.
    destruct (partition_lists fuel pkg ps m Hrun) as (Ht & He & Hr & Hf).
    unfold filedTokens in Htok.
    apply elem_of_app in Htok as [Htok|[Htok|Htok]%elem_of_app].
    + apply list_elem_of_omap in Htok as (t & Ht_in & Htok).
      destruct t; simplify_eq.
      * eapply (filed_exists types); [exact Ht|].
        apply list_elem_of_filter. split; [|exact Ht_in]. exact Hfiled.
      * eapply (filed_exists enums); [exact He|].
        apply list_elem_of_filter. split; [|exact Ht_in]. exact Hfiled.
    + apply list_elem_of_fmap in Htok as (r & -> & Hr_in).
      eapply (filed_exists resources); [exact Hr|].
      apply list_elem_of_filter. split; [|exact Hr_in]. exact Hfiled.
    + apply list_elem_of_fmap in Htok as (f & -> & Hf_in).
      eapply (filed_exists functions); [exact Hf|].
      apply list_elem_of_filter. split; [|exact Hf_in]. exact Hfiled.
Qed.

Lemma namespaces_witness :
  ∃ ps, generatePackageContextMap 1 fooPackage = Ok ps ∧
        is_Some (ps !! "config") ∧ is_Some (ps !! "m").
Proof.
  destruct (generatePackageContextMap 1 fooPackage) as [ps| | |] eqn:Hrun;
    try (vm_compute in Hrun; discriminate).
  exists ps. split; [reflexivity|].
  destruct (namespaces_well_formed 1 fooPackage ps Hrun) as (_ & Hconfig & Hfiled).
  split.
  - apply Hconfig. discriminate.
  - apply (Hfiled "p:m:Foo"); [|reflexivity]. right. left.
Defined.

(** X7.  After [generatePackageContextMap], every rename on record maps a
    name its namespace has taken to that name followed by [Type] or [Enum],
    which the namespace has taken as well; a successful [plainType],
    [inputType] or [outputType] keeps this true. *)
Theorem renames_stay_consistent :
  (∀ fuel pkg ps, generatePackageContextMap fuel pkg = Ok ps → renamesConsistent ps) ∧
  (∀ ps pkg t optional id ps1,
     renamesConsistent ps →
     plainType ps pkg t optional = Ok (id, ps1) ∨
     inputType ps pkg t optional = Ok (id, ps1) ∨
     outputType ps pkg t optional = Ok (id, ps1) →
     renamesConsistent ps1).
Proof.
  split.
  - intros fuel pkg ps Hrun m c k v Hc Hk.
    destruct (partition_fresh fuel pkg ps Hrun m c Hc) as ((_ & _ & _ & Hnone & _) & _).
    rewrite Hnone in Hk. by rewrite lookup_empty in Hk.
  - apply resolvers_keep_renames_consistent.
Qed.

(** ** Functions named like a constructor or a getter *)

Lemma forEach_app {A S : Type} (body : S → A → result S) l1 l2 st st' :
  forEach body (l1 ++ l2) st = Ok st' ↔
  ∃ s, forEach body l1 st = Ok s ∧ forEach body l2 s = Ok st'.
Proof.
  revert st. induction l1 as [|a l1 IH]; intros st; simpl.
  { split; [intros H; by exists st|]. by intros (s & [= ->] & H). }
  rewrite bind_Ok. split.
  - intros (s1 & Ha & (s & H1 & H2)%IH). exists s. split; [|done].
    apply bind_Ok. by exists s1.
  - intros (s & (s1 & Ha & H1)%bind_Ok & H2). exists s1. split; [done|].
    apply IH. by exists s.
Qed.

(** An invariant that the round of one element establishes and that the
    other rounds keep holds at the end of the loop. *)
Lemma forEach_establishes {A S : Type} (body : S → A → result S) (Inv : S → Prop)
    l st st' a :
  (∀ s a' s', a' ∈ l → Inv s → body s a' = Ok s' → Inv s') →
  (∀ s s', body s a = Ok s' → Inv s') →
  a ∈ l → forEach body l st = Ok st' → Inv st'.
Proof.
  intros Hkeep Hround (pre & post & ->)%list_elem_of_split Hrun.
  apply forEach_app in Hrun as (s & _ & Hrun). simpl in Hrun.
  apply bind_Ok in Hrun as (s1 & Ha & Hrun).
  eapply (forEach_keeps body Inv); [|by eapply Hround|done].
  intros s0 a' s' Ha'. apply Hkeep. apply elem_of_app. right. by right.
Qed.

(** A name taken in a namespace stays taken. *)
Lemma scanResource_taken fuel pkg st r st' m id :
  scanResource fuel pkg st r = Ok st' →
  id ∈ namesOf (packages st) m → id ∈ namesOf (packages st') m.
Proof.
  intros Hrun Hid.
  refine (scanResource_keeps pkg (fun m' o => m' = m → id ∈ default ∅ (names <$> o))
            _ _ _ _ _ fuel st r st' Hrun _ m eq_refl).
  all: try done.
  all: try (intros m' ? H Hm; specialize (H Hm); simpl in H; set_solver).
  all: try (intros m' id' c H Hm; simpl; apply elem_of_union_l; by apply H).
  intros m' ->. exact Hid.
Qed.

Lemma scanFunction_taken pkg ps f ps' m id :
  scanFunction pkg ps f = Ok ps' → id ∈ namesOf ps m → id ∈ namesOf ps' m.
Proof.
  intros Hrun Hid.
  refine (scanFunction_keeps pkg (fun m' o => m' = m → id ∈ default ∅ (names <$> o))
            (fun _ => True) _ _ _ _ ps f ps' I Hrun _ m eq_refl).
  all: try done.
  all: try (intros m' ? H Hm; specialize (H Hm); simpl in H; set_solver).
  all: try (intros m' id' c H Hm; simpl; apply elem_of_union_l; by apply H).
  intros m' ->. exact Hid.
Qed.

(** The identifiers of a resource are taken once the resources are
    scanned. *)
Lemma resources_taken fuel pkg st1 st2 st3 r m name id :
  scanResource fuel pkg st1 (pkg_Provider pkg) = Ok st2 →
  forEach (scanResource fuel pkg) (pkg_Resources pkg) st2 = Ok st3 →
  r ∈ pkg_Provider pkg :: pkg_Resources pkg →
  namespaceOf pkg (res_Token r) = Ok m → resourceName r = Ok name →
  id ∈ resourceIdentifiers name (res_IsProvider r) (res_IsComponent r) →
  id ∈ namesOf (packages st3) m.
Proof.
  intros H2 H3 Hr Hm Hname Hid.
  assert (∀ s s', scanResource fuel pkg s r = Ok s' → id ∈ namesOf (packages s') m)
    as Hround.
  { intros s s' Hrun. rewrite (scanResource_names _ _ _ _ _ m name Hrun Hm Hname).
    rewrite decide_True by done. apply elem_of_union_r. by apply elem_of_list_to_set. }
  apply elem_of_cons in Hr as [Heq|Hr].
  - rewrite <- Heq in H2.
    eapply (forEach_keeps (scanResource fuel pkg)
              (fun st => id ∈ namesOf (packages st) m)); [|by eapply Hround|done].
    intros s r' s' _ Hs Hrun. by eapply scanResource_taken.
  - eapply (forEach_establishes (scanResource fuel pkg)
              (fun st => id ∈ namesOf (packages st) m)); [|exact Hround|done|done].
    intros s r' s' _ Hs Hrun. by eapply scanResource_taken.
Qed.

(** What [scanFunction] records for a function whose name is taken. *)
Lemma scanFunction_renames pkg ps f ps' m base :
  scanFunction pkg ps f = Ok ps' →
  namespaceOf pkg (fn_Token f) = Ok m → tokenToName (fn_Token f) = Ok base →
  base ∈ namesOf ps m →
  functionNameOf ps' m (fn_Token f) = Some (renamedFunction base) ∧
  renamedFunction base ∈ namesOf ps' m.
Proof.
  unfold scanFunction. intros Hrun Hm Hbase Htaken.
  apply bind_Ok in Hrun as ([m0 ps1] & [Hm0 ->]%getPkgFromToken_Ok & Hrun).
  assert (m0 = m) as -> by congruence.
  apply bind_Ok in Hrun as (name & Hname & Hrun).
  assert (name = base) as -> by congruence.
  unfold namesOf in Htaken. destruct (ps !! m) as [c|] eqn:Hc;
    [|by apply not_elem_of_empty in Htaken]. simpl in Htaken.
  assert (getPkg pkg ps m = ps) as Hget by (unfold getPkg; by rewrite Hc).
  rewrite Hget in Hrun. rewrite lookup_alter, decide_True, Hc in Hrun by done.
  simpl in Hrun. rewrite bool_decide_eq_true_2 in Hrun by done.
  fold (renamedFunction base) in Hrun.
  unfold functionNameOf, namesOf.
  destruct (fn_Inputs f), (fn_Outputs f); simplify_eq;
    rewrite !lookup_alter, !decide_True, Hc by done; simpl;
    (split; [apply lookup_insert_eq|set_solver]).
Qed.

Lemma scanFunction_other pkg ps f ps' m tok name :
  scanFunction pkg ps f = Ok ps' → fn_Token f ≠ tok →
  functionNameOf ps m tok = Some name ∧ name ∈ namesOf ps m →
  functionNameOf ps' m tok = Some name ∧ name ∈ namesOf ps' m.
Proof.
  intros Hrun Hne [Hname Hin]. split; [|by eapply scanFunction_taken].
  refine (scanFunction_keeps pkg
            (fun m' o => m' = m → o ≫= (fun c => functionNames c !! tok) = Some name)
            (fun t => t ≠ tok) _ _ _ _ ps f ps' Hne Hrun _ m eq_refl).
  all: try done.
  all: try (intros m' ? H Hm'; by specialize (H Hm')).
  all: try (intros m' tok' name' c Htok' H Hm'; simpl;
            rewrite lookup_insert_ne by done; by apply H).
  intros m' ->. exact Hname.
Qed.

Lemma renamedFunction_New name : renamedFunction ("New" +:+ name) = "Create" +:+ name.
Proof.
  unfold renamedFunction.
  change ("New" +:+ name) with (String "N" (String "e" (String "w" name))).
  cbn [HasPrefix drop_string]. by rewrite !Ascii.eqb_refl, HasPrefix_nil.
Qed.

Lemma renamedFunction_Get name : renamedFunction ("Get" +:+ name) = "Lookup" +:+ name.
Proof.
  unfold renamedFunction.
  change ("Get" +:+ name) with (String "G" (String "e" (String "t" name))).
  cbn [HasPrefix drop_string]. rewrite !Ascii.eqb_refl, HasPrefix_nil.
  by replace (Ascii.eqb "G" "N") with false by reflexivity.
Qed.

(** X11.  When the function tokens of the schema are distinct, a function
    whose name is [New] followed by the name of a resource of its namespace is
    recorded under [Create] followed by that name, and, for a resource that is
    neither the provider nor a component, a function named [Get] followed by
    the name is recorded under [Lookup] followed by it; the namespace has
    taken the new name. *)
Theorem function_named_like_constructor_is_renamed (fuel : nat) (pkg : Package)
    (ps : pkgMap) (f : Function) (r : Resource) (m name : string) :
  generatePackageContextMap fuel pkg = Ok ps →
  NoDup (fn_Token <$> pkg_Functions pkg) →
  f ∈ pkg_Functions pkg → r ∈ pkg_Provider pkg :: pkg_Resources pkg →
  namespaceOf pkg (fn_Token f) = Ok m → namespaceOf pkg (res_Token r) = Ok m →
  resourceName r = Ok name →
  (tokenToName (fn_Token f) = Ok ("New" +:+ name) →
     functionNameOf ps m (fn_Token f) = Some ("Create" +:+ name) ∧
     "Create" +:+ name ∈ namesOf ps m) ∧
  (res_IsProvider r = false → res_IsComponent r = false →
   tokenToName (fn_Token f) = Ok ("Get" +:+ name) →
     functionNameOf ps m (fn_Token f) = Some ("Lookup" +:+ name) ∧
     "Lookup" +:+ name ∈ namesOf ps m).
Proof.
  intros (st1 & st2 & st3 & H1 & H2 & H3 & H4)%generatePackageContextMap_Ok
    Hnodup Hf Hr Hmf Hmr Hname.
  assert (∀ base, tokenToName (fn_Token f) = Ok base →
            base ∈ resourceIdentifiers name (res_IsProvider r) (res_IsComponent r) →
            functionNameOf ps m (fn_Token f) = Some (renamedFunction base) ∧
            renamedFunction base ∈ namesOf ps m) as Hrenamed.
  { intros base Hbase Hid.
    pose proof (resources_taken _ _ _ _ _ _ _ _ _ H2 H3 Hr Hmr Hname Hid) as Htaken.
    apply list_elem_of_split in Hf as (pre & post & Hfs). rewrite Hfs in H4, Hnodup.
    apply forEach_app in H4 as (s & Hpre & Hpost). simpl in Hpost.
    apply bind_Ok in Hpost as (s1 & Hround & Hpost).
    assert (base ∈ namesOf s m) as Htaken'.
    { eapply (forEach_keeps (scanFunction pkg) (fun ps => base ∈ namesOf ps m));
        [|exact Htaken|exact Hpre].
      intros s0 f' s' _ Hs Hrun. by eapply scanFunction_taken. }
    eapply (forEach_keeps (scanFunction pkg)
              (fun ps => functionNameOf ps m (fn_Token f) = Some (renamedFunction base) ∧
                         renamedFunction base ∈ namesOf ps m));
      [|by eapply scanFunction_renames|exact Hpost].
    intros s0 f' s' Hf' Hs Hrun. eapply scanFunction_other; [done| |done].
    rewrite fmap_app, fmap_cons in Hnodup.
    apply NoDup_app in Hnodup as (_ & _ & [Hnot _]%NoDup_cons).
    intros Heq. apply Hnot. rewrite <- Heq.
    by apply list_elem_of_fmap_2. }
  split.
  - intros Hbase.
    rewrite <- renamedFunction_New.
    apply (Hrenamed _ Hbase).
    unfold resourceIdentifiers. apply elem_of_app. left.
    do 5 right. left.
  - intros Hprov Hcomp Hbase.
    rewrite <- renamedFunction_Get.
    apply (Hrenamed _ Hbase).
    unfold resourceIdentifiers. rewrite Hprov, Hcomp. apply elem_of_app. right.
    simpl. do 2 right. left.
Qed.

Lemma function_renamed_witness :
  ∃ ps, generatePackageContextMap 1 fooPackage = Ok ps ∧
        functionNameOf ps "m" "p:m:newFoo" = Some "CreateFoo" ∧
        functionNameOf ps "m" "p:m:getFoo" = Some "LookupFoo".
Proof.
  destruct (generatePackageContextMap 1 fooPackage) as [ps| | |] eqn:Hrun;
    try (vm_compute in Hrun; discriminate).
  exists ps. split; [reflexivity|].
  assert (NoDup (fn_Token <$> pkg_Functions fooPackage)) as Hnodup
    by (refine (bool_decide_unpack _ _); vm_compute; exact I).
  split.
  - refine (proj1 (proj1 (function_named_like_constructor_is_renamed 1 fooPackage ps
                     (nth 0 (pkg_Functions fooPackage) {| fn_Token := ""; fn_Inputs := None;
                                                          fn_Outputs := None |})
                     (nth 0 (pkg_Resources fooPackage) exampleProvider) "m" "Foo"
                     Hrun Hnodup _ _ eq_refl eq_refl eq_refl) eq_refl)).
    + left.
    + right. left.
  - refine (proj1 (proj2 (function_named_like_constructor_is_renamed 1 fooPackage ps
                     (nth 1 (pkg_Functions fooPackage) {| fn_Token := ""; fn_Inputs := None;
                                                          fn_Outputs := None |})
                     (nth 0 (pkg_Resources fooPackage) exampleProvider) "m" "Foo"
                     Hrun Hnodup _ _ eq_refl eq_refl eq_refl) eq_refl eq_refl eq_refl)).
    + right. left.
    + right. left.
Defined.

(** ** The environment default at run time *)

(** X12.  When the first non-empty environment variable of a default cannot
    be parsed, the value [getDefaultValue] wrote panics at run time: the
    parser returns nil and the type assertion on the result fails.  That
    happens for properties of type boolean, integer and number only. *)
Theorem unparsable_variable_panics (ParseInt : string → option Z)
    (ParseFloat : string → option string) (Getenv : string → string)
    (dv : DefaultValue) (t : SchemaType) (e : goExpr) (needs : bool)
    (pre post : list string) (v : string) :
  getDefaultValue dv t = Ok (e, needs) →
  dv_Environment dv = (pre ++ v :: post)%list →
  (∀ u, u ∈ pre → Getenv u = "") → Getenv v ≠ "" →
  parsed ParseInt ParseFloat (envParserFor t).1 (Getenv v) = Nil →
  eval ParseInt ParseFloat Getenv e = Panic "interface conversion" ∧
  (t = BoolType ∨ t = IntType ∨ t = NumberType).
Proof.
  unfold getDefaultValue. intros Hdv Henv Hpre Hv Hnil.
  apply bind_Ok in Hdv as (val & Hval & Hdv). rewrite Henv in Hdv.
  rewrite length_app in Hdv. simpl in Hdv.
  replace (length pre + S (length post) =? 0)%nat with false in Hdv
    by (symmetry; apply Nat.eqb_neq; lia).
  simpl in Hdv. destruct (envParserFor t) as [parser typ] eqn:Hparser. simpl in Hnil.
  assert (∃ d, evalAs ParseInt ParseFloat Getenv true
                 (match val with EEmpty => EZero typ | _ => val end) = Ok d) as [d Hd].
  { destruct (dv_Value dv) as [c|]; [|simplify_eq; eexists; reflexivity].
    destruct c; simpl in Hval; simplify_eq; eexists; reflexivity. }
  simplify_eq. split.
  - unfold eval. cbn [evalAs]. rewrite Hd. simpl.
    rewrite getEnvOrDefault_first_nonempty by done.
    unfold parsed in Hnil. rewrite Hnil. done.
  - unfold parsed in Hnil.
    destruct t; simpl in Hparser; simplify_eq; simpl in Hnil; try done; auto.
Qed.

Lemma unparsable_variable_witness :
  eval parseDecimal (fun _ => None) exampleEnv
    (EGetEnvOrDefault (EZero GoInt) ParseEnvInt ["U"; "A"; "B"] GoInt)
  = Panic "interface conversion".
Proof.
  refine (proj1 (unparsable_variable_panics parseDecimal (fun _ => None) exampleEnv
                   {| dv_Value := None; dv_Environment := ["U"; "A"; "B"] |} IntType
                   _ true ["U"] ["B"] "A" eq_refl eq_refl _ _ eq_refl)).
  - intros u ->%list_elem_of_singleton. reflexivity.
  - vm_compute. discriminate.
Defined.

(** ** Comments *)

Lemma Split_append_sep a rest sep :
  lacks sep a = true → Split (a +:+ String sep rest) sep = a :: Split rest sep.
Proof.
  induction a as [|c a IH]; intros Ha.
  - change ("" +:+ String sep rest) with (String sep rest). simpl.
    by rewrite Ascii.eqb_refl.
  - simpl in Ha. apply andb_prop in Ha as [Hc Ha]. apply negb_true_iff in Hc.
    rewrite append_cons. simpl. rewrite Hc, (IH Ha). done.
Qed.

Lemma lacks_append sep a b : lacks sep (a +:+ b) = lacks sep a && lacks sep b.
Proof.
  induction a as [|c a IH]; [done|]. rewrite append_cons. simpl.
  by rewrite IH, andb_assoc.
Qed.

Lemma dropTrailingEmpty_subseteq lines : dropTrailingEmpty lines ⊆ lines.
Proof.
  induction lines as [|l lines IH]; simpl; [done|].
  destruct (dropTrailingEmpty lines) as [|x rest].
  - destruct (String.eqb l ""); set_solver.
  - set_solver.
Qed.

Lemma commentLine_split indent l rest :
  lacks newline l = true →
  ∃ line, Split (commentLine indent l +:+ rest) newline = line :: Split rest newline ∧
          isComment line = true.
Proof.
  intros Hl. unfold commentLine.
  exists ((if indent then String tab "" else "") +:+
          (if String.eqb l "" then "//" else "// " +:+ l)).
  split.
  - rewrite <- append_assoc, append_assoc.
    change (String newline "" +:+ rest) with (String newline rest).
    apply Split_append_sep. rewrite lacks_append.
    destruct indent, (String.eqb l ""); simpl; by rewrite ?Hl.
  - unfold isComment. by destruct indent, (String.eqb l "").
Qed.

Lemma written_lines indent lines rest :
  Forall (fun l => lacks newline l = true) lines →
  ∃ printed, Split (written (commentLine indent <$> lines) +:+ rest) newline
             = (printed ++ Split rest newline)%list ∧
             Forall (fun line => isComment line = true) printed ∧
             length printed = length lines.
Proof.
  induction 1 as [|l lines Hl _ (printed & Hsplit & Hall & Hlen)].
  { by exists []. }
  change (written (commentLine indent <$> l :: lines))
    with (commentLine indent l +:+ written (commentLine indent <$> lines)).
  destruct (commentLine_split indent l
              (written (commentLine indent <$> lines) +:+ rest) Hl)
    as (line & Hline & Hcomment).
  exists (line :: printed). rewrite append_assoc, Hline, Hsplit. split_and!.
  - done.
  - by apply Forall_cons.
  - simpl. by rewrite Hlen.
Qed.

Section CommentsOk.
Variable FilterExamples : string → string → string.

Lemma printComment_lines comment indent rest :
  ∃ printed, Split ((printComment FilterExamples comment indent).1 +:+ rest) newline
             = (printed ++ Split rest newline)%list ∧
             Forall (fun line => isComment line = true) printed ∧
             length printed = (printComment FilterExamples comment indent).2.
Proof.
  unfold printComment. cbn [fst snd]. apply written_lines.
  apply Forall_forall. intros l Hl%dropTrailingEmpty_subseteq.
  exact (proj1 (Forall_forall _ _) (Split_lacks (FilterExamples comment "go") newline)
           l Hl).
Qed.

(** X13.  What [printComment] writes is as many lines as it returns, each a
    [//] comment, indented by a tab or not, and ended by a newline; what
    [printCommentWithDeprecationMessage] writes is made of such lines too; a
    comment that [FilterExamples] leaves empty writes nothing and counts no
    line. *)
Theorem printComment_writes_comments (comment deprecationMessage : string)
    (indent : bool) :
  commentLines (printComment FilterExamples comment indent).1
    (printComment FilterExamples comment indent).2 ∧
  (∃ n, commentLines
          (printCommentWithDeprecationMessage FilterExamples comment deprecationMessage
             indent) n) ∧
  (FilterExamples comment "go" = "" →
   printComment FilterExamples comment indent = ("", 0)).
Proof.
  split_and!.
  - destruct (printComment_lines comment indent "") as (printed & Hsplit & Hall & Hlen).
    rewrite append_nil_r in Hsplit. by exists printed.
  - unfold printCommentWithDeprecationMessage.
    destruct (printComment FilterExamples comment indent) as [text n] eqn:Hprint.
    destruct (negb (String.eqb deprecationMessage "")).
    + destruct (printComment_lines ("Deprecated: " +:+ deprecationMessage) indent "")
        as (second & Hsecond & Hall2 & _). rewrite append_nil_r in Hsecond.
      set (tail := (printComment FilterExamples _ indent).1) in *.
      destruct (printComment_lines comment indent
                  ((if negb (n =? 0) then "//" +:+ String newline "" else "") +:+ tail))
        as (first & Hfirst & Hall1 & _).
      rewrite Hprint in Hfirst. cbn [fst] in Hfirst.
      destruct (negb (n =? 0)).
      * assert (("//" +:+ String newline "") +:+ tail = "//" +:+ String newline tail)
          as Heq by (by rewrite append_assoc).
        rewrite Heq in Hfirst |- *.
        rewrite (Split_append_sep "//" tail newline eq_refl), Hsecond in Hfirst.
        exists (length (first ++ "//" :: second)), (first ++ "//" :: second)%list.
        split_and!; [by rewrite Hfirst, <- (assoc_L (++))| |done].
        apply Forall_app. split; [done|]. by apply Forall_cons.
      * change ("" +:+ tail) with tail in Hfirst |- *. rewrite Hsecond in Hfirst.
        exists (length (first ++ second)), (first ++ second)%list.
        split_and!; [by rewrite Hfirst, (assoc_L (++))| |done].
        by apply Forall_app.
    + destruct (printComment_lines comment indent "") as (printed & Hsplit & Hall & Hlen).
      rewrite append_nil_r, Hprint in Hsplit. by exists (length printed), printed.
  - unfold printComment. by intros ->.
Qed.
End CommentsOk.

(** ** Enums *)

Lemma tokenToEnum_again ps pkg tok name ps1 :
  tokenToEnum ps pkg tok = Ok (name, ps1) → tokenToEnum ps1 pkg tok = Ok (name, ps1).
Proof.
  intros (m & n & Hlen & Hpkg & Hm & Hre & ->)%tokenToEnum_Ok.
  apply tokenToEnum_Ok. exists m, n. split_and!; try done. by eapply renameIn_again.
Qed.

Section EnumsOk.
Variable FilterExamples : string → string → string.
Variable makeSafeEnumName : string → string → string + string.
Variable Sprint : option GoValue → string.

Lemma genEnumElements_names taken tok name es constants elements :
  genEnumElements FilterExamples makeSafeEnumName Sprint taken tok name es
  = Ok (constants, elements) →
  const_name <$> constants = elem_Name <$> elements ∧
  length elements = length es ∧
  ∀ c, c ∈ constants → const_name c ∉ taken.
Proof.
  revert constants elements. induction es as [|e es IH]; intros constants elements.
  { intros [= <- <-]. split_and!; [done..|]. by intros c ?%elem_of_nil. }
  simpl. unfold genEnumElement at 1.
  destruct (makeSafeEnumName _ _) as [enumName|]; simpl; [|done].
  unfold Assertf. destruct (bool_decide (enumName ∈ taken)) eqn:Htaken; simpl; [done|].
  apply bool_decide_eq_false in Htaken.
  destruct (elem_Value e) as [v|]; simpl; [|done].
  destruct (genEnumElements _ _ _ _ _ _ es) as [[cs es']| | |]; simpl; try done.
  intros [= <- <-]. destruct (IH cs es' eq_refl) as (Hnames & Hlen & Hfree).
  split_and!.
  - rewrite !fmap_cons. simpl. by f_equal.
  - simpl. by f_equal.
  - intros c [->|Hc]%elem_of_cons; [done|by apply Hfree].
Qed.

(** X14.  Under [genEnum], the last assertion of [genEnumType] never fails:
    [genEnum] is the resolution of the name of the enum followed by the
    writing of the constants, and the registry it leaves is the one the
    resolution left.  When it succeeds, the type is declared under the name
    [tokenToEnum] gives the token, and there is one constant for each
    element, named as the element now is. *)
Theorem genEnum_check_is_redundant (ps : pkgMap) (pkg : pkgContext) (enum : EnumDecl) :
  genEnum FilterExamples makeSafeEnumName Sprint ps pkg enum
  = ('(name, ps1) ← tokenToEnum ps pkg (enum_Token enum);
     '(file, elements) ←
       genEnumConstants FilterExamples makeSafeEnumName Sprint ps1 pkg name enum;
     Ok (file, elements, ps1)) ∧
  ∀ file elements ps1,
    genEnum FilterExamples makeSafeEnumName Sprint ps pkg enum = Ok (file, elements, ps1) →
    tokenToEnum ps pkg (enum_Token enum) = Ok (type_name file, ps1) ∧
    const_name <$> type_constants file = elem_Name <$> elements ∧
    length elements = length (enum_Elements enum).
Proof.
  assert (genEnum FilterExamples makeSafeEnumName Sprint ps pkg enum
          = ('(name, ps1) ← tokenToEnum ps pkg (enum_Token enum);
             '(file, elements) ←
               genEnumConstants FilterExamples makeSafeEnumName Sprint ps1 pkg name enum;
             Ok (file, elements, ps1))) as Heq.
  { unfold genEnum, genEnumType.
    destruct (tokenToEnum ps pkg (enum_Token enum)) as [[name ps1]| | |] eqn:Htok;
      [|done..]. simpl.
    destruct (genEnumConstants _ _ _ ps1 pkg name enum) as [[file elements]| | |];
      [|done..]. simpl.
    rewrite (tokenToEnum_again _ _ _ _ _ Htok). simpl.
    change ("" +:+ name) with name. unfold Assertf. by rewrite String.eqb_refl. }
  split; [done|]. rewrite Heq. clear Heq. intros file elements ps2.
  destruct (tokenToEnum ps pkg (enum_Token enum)) as [[name ps1]| | |]; simpl; [|done..].
  unfold genEnumConstants.
  destruct (tokenToPackage _ _ _) as [m| | |]; simpl; [|done..].
  destruct (ps1 !! m) as [c|]; simpl; [|done].
  destruct (enumElementType _ _) as [et| | |]; simpl; [|done..].
  destruct (genEnumElements _ _ _ _ _ _ _) as [[cs es']| | |] eqn:Hloop; simpl; [|done..].
  intros [= <- <- <-]. simpl.
  by destruct (genEnumElements_names _ _ _ _ _ _ Hloop) as (Hnames & Hlen & _).
Qed.
End EnumsOk.

(** ** Configuration getters *)

Section ConfigOk.
Variable FilterExamples : string → string → string.
Variable Comment : Property → string.
Variable DeprecationMessage : Property → string.

(** X15.  For a configuration variable whose default names environment
    variables, the getter [genConfig] writes tries the configuration and
    falls back to [getEnvOrDefault] over those variables, and [needsUtils] is
    set.  The Go type asserted on the fallback is the return type of the
    getter unless the variable is an array: then the getter returns [string]
    and the fallback is asserted to be a [pulumi.StringArray]. *)
Theorem config_default_type (pkg : pkgContext) (p : Property) (dv : DefaultValue)
    (g : configGetter) (needs : bool) :
  genConfigGetter FilterExamples Comment DeprecationMessage pkg p = Ok (g, needs) →
  prop_DefaultValue p = Some dv →
  dv_Environment dv ≠ [] →
  needs = true ∧
  ∃ key def parser typ,
    getter_body g
    = TryThenDefault (configTypes (prop_Type p)).2 key
        (EGetEnvOrDefault def parser (dv_Environment dv) typ) ∧
    (goTypeName typ = getter_type g ↔ ∀ e, prop_Type p ≠ ArrayType e).
Proof.
  unfold genConfigGetter. intros Hgen Hdv Henv.
  destruct (configTypes (prop_Type p)) as [getType funcType] eqn:Htypes.
  destruct (ctx_pkg pkg) as [pk|]; [|done]. rewrite Hdv in Hgen.
  unfold getDefaultValue in Hgen.
  destruct (match dv_Value dv with Some v => goPrimitiveValue v | None => Ok EEmpty end)
    as [val| | |]; simpl in Hgen; try done.
  destruct (dv_Environment dv) as [|v vars] eqn:Hvars; [done|]. simpl in Hgen.
  destruct (envParserFor (prop_Type p)) as [parser typ] eqn:Hparser.
  simpl in Hgen. injection Hgen as <- <-. split; [done|].
  eexists _, _, _, _. split; [reflexivity|]. simpl.
  destruct (prop_Type p) as [ | | | | | | | |e| | | | | | ]; simpl in *; simplify_eq;
    try by split.
  split; [done|]. intros H. by destruct (H e).
Qed.
End ConfigOk.

Lemma config_default_type_witness :
  ∃ g,
    genConfigGetter (fun c _ => c) (fun _ => "") (fun _ => "")
      (emptyContext examplePkg "config") (regionVariable (ArrayType StringType))
    = Ok (g, true) ∧
    getter_type g = "string" ∧
    ∃ key def parser,
      getter_body g = TryThenDefault "" key (EGetEnvOrDefault def parser ["REGION"] GoStringArray).
Proof.
  eexists. split; [reflexivity|]. split; [reflexivity|].
  destruct (config_default_type (fun c _ => c) (fun _ => "") (fun _ => "")
              (emptyContext examplePkg "config")
              (regionVariable (ArrayType StringType)) _ _ _ eq_refl eq_refl)
    as (_ & key & def & parser & typ & Hbody & Htyp); [done|].
  simpl in Hbody. injection Hbody as <- <- <- <-. by eexists _, _, _.
Defined.

(** ** Imports *)

Section ImportsKeep.
Variable pathJoin : string → string → string.
Variable languageGo : PackageRef → option GoPackageInfo.
Variable versionMajor : PackageRef → N.
Variable P : gmap string string → Prop.
Hypothesis P_join : ∀ imports a b v, P imports → P (<[pathJoin a b := v]> imports).

Lemma externalImport_keeps extPkg tok imports imports' :
  externalImport pathJoin languageGo versionMajor extPkg tok imports = Ok imports' →
  P imports → P imports'.
Proof.
  unfold externalImport. intros H HP.
  apply bind_Ok in H as (m & _ & H). simplify_eq. by apply P_join.
Qed.

Lemma localImport_keeps goInfo pkg tok imports imports' :
  localImport pathJoin goInfo pkg tok imports = Ok imports' → P imports → P imports'.
Proof.
  unfold localImport. intros H HP.
  apply bind_Ok in H as (m & _ & H).
  destruct (negb _); simplify_eq; [by apply P_join|done].
Qed.

Lemma getTypeImports_keeps fuel goInfo objects pkg recurse t st st' :
  getTypeImports pathJoin languageGo versionMajor fuel goInfo objects pkg recurse t st
  = Ok st' →
  P (importsAndAliases st) → P (importsAndAliases st').
Proof.
  revert t st st'. induction fuel as [|fuel IHfuel]; intros t st st'; [done|].
  assert (∀ tok imports st0 st1,
            P imports →
            forEach (fun st p =>
                       getTypeImports pathJoin languageGo versionMajor fuel goInfo
                         objects pkg recurse (prop_Type p) st)
              (objectProperties objects tok) (set_imports imports st0) = Ok st1 →
            P (importsAndAliases st1)) as Hprops.
  { intros tok imports st0 st1 HP Hrun.
    refine (forEach_keeps _ (fun s => P (importsAndAliases s)) _ _ _ _ _ Hrun);
      [|exact HP].
    intros s p s' _ Hs Hp. by eapply IHfuel. }
  assert (∀ tok imports0 imports st0 st1,
            localImport pathJoin goInfo pkg tok imports0 = Ok imports →
            P imports0 →
            (if recurse then
               forEach (fun st p =>
                          getTypeImports pathJoin languageGo versionMajor fuel goInfo
                            objects pkg recurse (prop_Type p) st)
                 (objectProperties objects tok) (set_imports imports st0)
             else Ok (set_imports imports st0)) = Ok st1 →
            P (importsAndAliases st1)) as Hlocal.
  { intros tok imports0 imports st0 st1 Himp HP Hrun.
    apply localImport_keeps in Himp; [|done].
    destruct recurse; [exact (Hprops tok imports st0 st1 Himp Hrun)|by simplify_eq/=]. }
  revert st st'. simpl.
  by_schema_induction t; intros st st'; simpl;
    (destruct (existsb _ (seenTypes st)); [by intros [= <-]|]); simpl;
    try by intros [= <-].
  - intros Hrun HP. by eapply (IH _ _ Hrun).
  - intros Hrun HP. by eapply (IH _ _ Hrun).
  - intros Hrun HP. destruct p as [extPkg|].
    + match type of Hrun with context [if ?b then _ else _] => destruct b end.
      * apply bind_Ok in Hrun as (imports & Himp & Hrun). simplify_eq/=.
        by eapply externalImport_keeps.
      * apply bind_Ok in Hrun as (imports & Himp & Hrun).
        exact (Hlocal tok _ imports _ st' Himp HP Hrun).
    + apply bind_Ok in Hrun as (imports & Himp & Hrun).
      exact (Hlocal tok _ imports _ st' Himp HP Hrun).
  - intros Hrun HP. destruct r as [extPkg|].
    + match type of Hrun with context [if ?b then _ else _] => destruct b end;
        apply bind_Ok in Hrun as (imports & Himp & Hrun); simplify_eq/=;
        [by eapply externalImport_keeps|by eapply localImport_keeps].
    + apply bind_Ok in Hrun as (imports & Himp & Hrun); simplify_eq/=.
      by eapply localImport_keeps.
  - set (st0 := {| importsAndAliases := importsAndAliases st;
                   seenTypes := UnionType es :: seenTypes st |}).
    change (importsAndAliases st) with (importsAndAliases st0).
    generalize st0. clear st0 st.
    induction IH as [|e es He _ IHes]; intros st; simpl; [by intros [= <-]|].
    intros Hrun HP. apply bind_Ok in Hrun as (st1 & He1 & Hrun).
    eapply IHes; [exact Hrun|]. by eapply He.
Qed.

Lemma typeImports_keep fuel goInfo objects pkg recurse props st st' :
  forEach (fun st p =>
             getTypeImports pathJoin languageGo versionMajor fuel goInfo objects pkg
               recurse (prop_Type p) st) props st = Ok st' →
  P (importsAndAliases st) → P (importsAndAliases st').
Proof.
  intros Hrun HP.
  refine (forEach_keeps _ (fun s => P (importsAndAliases s)) _ _ _ _ _ Hrun);
    [|exact HP].
  intros s p s' _ Hs Hp. by eapply getTypeImports_keeps.
Qed.
End ImportsKeep.

Lemma genPropertyDefaults_no_errors ps pkg p stmts ps' :
  genPropertyDefaults ps pkg p = Ok (stmts, ps') → usesErrors stmts = false.
Proof.
  unfold genPropertyDefaults. intros H.
  apply bind_Ok in H as ([constStmts ps1] & Hconst & H).
  assert (usesErrors constStmts = false) as Hc.
  { destruct (prop_ConstValue p) as [c|]; [|by simplify_eq].
    apply bind_Ok in Hconst as (v & Hv & Hconst).
    apply bind_Ok in Hconst as ([t ps2] & Ht & Hconst). by simplify_eq. }
  destruct (prop_DefaultValue p) as [dv|]; [|by simplify_eq].
  apply bind_Ok in H as ([v needs] & Hv & H).
  apply bind_Ok in H as ([t ps2] & Ht & H).
  assert (∀ s, usesErrors [s] = false → usesErrors (constStmts ++ [s]) = false) as Hsnoc.
  { intros s Hs. unfold usesErrors in *. rewrite existsb_app, Hc. exact Hs. }
  destruct (prop_Type p) as [ | | | | | | | | | | | | | |tok e]; simplify_eq;
    try by apply Hsnoc.
  destruct (prop_IsRequired p).
  - destruct e; simplify_eq; by apply Hsnoc.
  - apply bind_Ok in H as ([e' ps3] & He & H). simplify_eq. by apply Hsnoc.
Qed.

Lemma genDefaults_no_errors ps pkg props stmts ps' :
  genDefaults ps pkg props = Ok (stmts, ps') → usesErrors stmts = false.
Proof.
  revert ps stmts. induction props as [|p props IH]; intros ps stmts H; simpl in H.
  { by simplify_eq. }
  apply bind_Ok in H as ([here ps1] & Hhere & H).
  apply bind_Ok in H as ([rest ps2] & Hrest & H). simplify_eq.
  unfold usesErrors. rewrite existsb_app.
  apply genPropertyDefaults_no_errors in Hhere. apply IH in Hrest.
  unfold usesErrors in Hhere, Hrest. by rewrite Hhere, Hrest.
Qed.

Lemma genRequiredChecks_errors r :
  usesErrors (genRequiredChecks r) = true → hasRequired r = true.
Proof.
  unfold genRequiredChecks, hasRequired, usesErrors.
  induction (res_InputProperties r) as [|p props IH]; [done|]. simpl.
  rewrite existsb_app. intros [Hp|Hrest]%orb_true_iff.
  - unfold requiredCheck in Hp.
    destruct (prop_IsRequired p); [done|]. by destruct (prop_Type p).
  - rewrite (IH Hrest). by rewrite orb_true_r.
Qed.

Lemma constructor_usesErrors ps pkg r body ps' :
  genResourceConstructor ps pkg r = Ok (body, ps') → usesErrors body = hasRequired r.
Proof.
  intros (name & defaults & Hname & Hdef & ->)%genResourceConstructor_Ok.
  apply genDefaults_no_errors in Hdef.
  destruct (hasRequired r) eqn:Hreq; [done|]. simpl.
  change (usesErrors (genRequiredChecks r ++ defaults) = false).
  unfold usesErrors in *. rewrite existsb_app, Hdef, orb_false_r.
  destruct (existsb _ (genRequiredChecks r)) eqn:Hchecks; [|done].
  apply genRequiredChecks_errors in Hchecks. congruence.
Qed.

Section ImportsOk.
Variable pathJoin : string → string → string.
Variable languageGo : PackageRef → option GoPackageInfo.
Variable versionMajor : PackageRef → N.

Lemma inputImports_keeps (P : gmap string string → Prop) fuel goInfo objects pkg
    props st st' :
  (∀ imports a b v, P imports → P (<[pathJoin a b := v]> imports)) →
  (existsb prop_IsRequired props = true →
   ∀ imports, P imports → P (<["github.com/pkg/errors" := ""]> imports)) →
  forEach (inputImports pathJoin languageGo versionMajor fuel goInfo objects pkg)
    props st = Ok st' →
  P (importsAndAliases st) → P (importsAndAliases st').
Proof.
  intros Hjoin. revert st. induction props as [|p props IH]; intros st Herr Hrun HP.
  { simpl in Hrun. by simplify_eq. }
  simpl in Hrun, Herr. apply bind_Ok in Hrun as (st1 & Hp & Hrun).
  eapply IH; [|exact Hrun|].
  { intros Hreq. apply Herr. by rewrite Hreq, orb_true_r. }
  unfold inputImports in Hp. apply bind_Ok in Hp as (st2 & Ht & Hp).
  eapply getTypeImports_keeps in Ht; [|exact Hjoin|exact HP].
  destruct (prop_IsRequired p); simplify_eq/=; [by apply Herr|done].
Qed.

Lemma inputImports_errors fuel goInfo objects pkg props st st' :
  forEach (inputImports pathJoin languageGo versionMajor fuel goInfo objects pkg)
    props st = Ok st' →
  existsb prop_IsRequired props = true →
  is_Some (importsAndAliases st' !! "github.com/pkg/errors").
Proof.
  revert st. induction props as [|p props IH]; intros st Hrun Hreq; [done|].
  simpl in Hrun, Hreq. apply bind_Ok in Hrun as (st1 & Hp & Hrun).
  destruct (prop_IsRequired p) eqn:Hp_req.
  - refine (inputImports_keeps (fun imports => is_Some (imports !! "github.com/pkg/errors"))
              _ _ _ _ _ _ _ _ _ Hrun _).
    + intros imports a b v. rewrite lookup_insert_is_Some. destruct 1; eauto.
      destruct (decide (pathJoin a b = "github.com/pkg/errors")); eauto.
    + intros _ imports _. by rewrite lookup_insert_eq.
    + unfold inputImports in Hp. apply bind_Ok in Hp as (st2 & Ht & Hp).
      rewrite Hp_req in Hp. simplify_eq/=. by rewrite lookup_insert_eq.
  - by eapply IH.
Qed.

(** X16.  [getImports] of a resource imports [github.com/pkg/errors]
    whenever the constructor [genResource] writes uses [errors.New]; it
    imports the Pulumi SDK without an alias; it keeps every import it was
    given; and every other import it adds is [path.Join] of two elements. *)
Theorem resource_imports (fuel : nat) (goInfo : GoPackageInfo)
    (objects : gmap string (list Property)) (pkg : pkgContext) (r : Resource)
    (imports0 imports : gmap string string) (ps ps' : pkgMap) (body : list stmt) :
  getImports pathJoin languageGo versionMajor fuel goInfo objects pkg
    (ResourceMember r) imports0 = Ok imports →
  genResourceConstructor ps pkg r = Ok (body, ps') →
  (usesErrors body = true → is_Some (imports !! "github.com/pkg/errors")) ∧
  imports !! "github.com/pulumi/pulumi/sdk/v2/go/pulumi" = Some "" ∧
  (∀ k, is_Some (imports0 !! k) → is_Some (imports !! k)) ∧
  (∀ k, is_Some (imports !! k) →
        is_Some (imports0 !! k) ∨ k = "github.com/pulumi/pulumi/sdk/v2/go/pulumi" ∨
        (k = "github.com/pkg/errors" ∧ usesErrors body = true) ∨
        ∃ a b, k = pathJoin a b).
Proof.
  unfold getImports. intros Hrun Hbody.
  apply constructor_usesErrors in Hbody. rewrite Hbody. clear Hbody body ps ps'.
  apply bind_Ok in Hrun as (st1 & Hprops & Hrun).
  apply bind_Ok in Hrun as (st2 & Hinputs & Hrun). simplify_eq.
  assert (∀ P : gmap string string → Prop,
            (∀ imports a b v, P imports → P (<[pathJoin a b := v]> imports)) →
            (hasRequired r = true →
             ∀ imports, P imports → P (<["github.com/pkg/errors" := ""]> imports)) →
            P imports0 → P (importsAndAliases st2)) as Hkeeps.
  { intros P Hjoin Herr HP.
    eapply inputImports_keeps; [exact Hjoin|exact Herr|exact Hinputs|].
    eapply typeImports_keep; [exact Hjoin|exact Hprops|exact HP]. }
  split_and!.
  - intros Hreq. rewrite lookup_insert_is_Some. right. split; [done|].
    by eapply inputImports_errors.
  - by rewrite lookup_insert_eq.
  - intros k Hk. rewrite lookup_insert_is_Some.
    destruct (decide ("github.com/pulumi/pulumi/sdk/v2/go/pulumi" = k)); [by left|].
    right. split; [done|].
    apply (Hkeeps (fun imports => is_Some (imports !! k))); [| |done].
    + intros imports a b v Hi. rewrite lookup_insert_is_Some.
      destruct (decide (pathJoin a b = k)); eauto.
    + intros _ imports Hi. rewrite lookup_insert_is_Some.
      destruct (decide ("github.com/pkg/errors" = k)); eauto.
  - intros k [->|[_ Hk]]%lookup_insert_is_Some; [by right; left|].
    revert k Hk.
    apply (Hkeeps (fun imports => ∀ k, is_Some (imports !! k) →
             is_Some (imports0 !! k) ∨ k = "github.com/pulumi/pulumi/sdk/v2/go/pulumi" ∨
             (k = "github.com/pkg/errors" ∧ hasRequired r = true) ∨
             ∃ a b, k = pathJoin a b)).
    + intros imports a b v Hi k [<-|[_ Hk]]%lookup_insert_is_Some; [|by apply Hi].
      right. right. right. by exists a, b.
    + intros Hreq imports Hi k [<-|[_ Hk]]%lookup_insert_is_Some; [|by apply Hi].
      right. right. by left.
    + intros k Hk. by left.
Qed.
End ImportsOk.

Lemma resource_imports_witness :
  ∃ imports body ps',
    getImports joinPath (fun _ => None) (fun _ => 0%N) 1 exampleInfo ∅
      (emptyContext examplePkg "m") (ResourceMember gadget) ∅ = Ok imports ∧
    genResourceConstructor ∅ (emptyContext examplePkg "m") gadget = Ok (body, ps') ∧
    usesErrors body = true ∧
    is_Some (imports !! "github.com/pkg/errors") ∧
    imports !! "example.com/sdk/go/p/other" = Some "".
Proof.
  destruct (getImports joinPath (fun _ => None) (fun _ => 0%N) 1 exampleInfo ∅
              (emptyContext examplePkg "m") (ResourceMember gadget) ∅)
    as [imports| | |] eqn:Himports; try (vm_compute in Himports; discriminate).
  destruct (genResourceConstructor ∅ (emptyContext examplePkg "m") gadget)
    as [[body ps']| | |] eqn:Hgen; try (vm_compute in Hgen; discriminate).
  exists imports, body, ps'.
  destruct (resource_imports joinPath (fun _ => None) (fun _ => 0%N) 1 exampleInfo ∅
              (emptyContext examplePkg "m") gadget ∅ imports ∅ ps' body Himports Hgen)
    as (Herrors & _).
  assert (usesErrors body = true) as Huses.
  { vm_compute in Hgen. injection Hgen as <- _. reflexivity. }
  split_and!; [done..|by apply Herrors|].
  vm_compute in Himports. injection Himports as <-. reflexivity.
Defined.

(** ** The array flag *)














